(** * pyhanko_certvalidator: a shallow embedding of the validation core

    The development follows the layout of the Python package:

    - [Poe]          ltv/poe.py               (proof-of-existence bookkeeping)
    - [Validate]     validate.py              (path state, validity, revocation
                                               combinator, AC signature, AA controls)
    - [ValidateCrl]  revinfo/validate_crl.py  (CRL authority name, entry lookup,
                                               completeness of the checked reasons)

    Conventions.  A [datetime] is a [Z] (microseconds since the epoch) and a
    [timedelta] is a [Z] as well; Python integers are [Z]; a 32-byte digest is
    the number it encodes ([N]); a Python [dict] is a [gmap], a Python [set] of
    strings is a [gset string]; [None] is [None] of an [option], or the
    constructor [PyNone] where a variable can hold values of several classes.
    A function that can raise returns a [PyResult]. *)

From Stdlib Require Import ZArith Lia List Bool String.
From stdpp Require Import base option list gmap sets strings.

Local Open Scope Z_scope.

(** ** The result of a call that can raise *)

Inductive PyResult (E A : Type) : Type :=
| Return (a : A)
| Raise (e : E).
Arguments Return {E A} a.
Arguments Raise {E A} e.

(* ===================================================================== *)
(** * ltv/poe.py                                                          *)
(* ===================================================================== *)

Module Poe.

(** [KnownPOE]: a frozen dataclass. *)
Record KnownPOE := mkKnownPOE { digest : N; poe_time : Z }.

#[global] Instance KnownPOE_eq_dec : EqDecision KnownPOE.
Proof. solve_decision. Defined.

(** [POEManager]: the dictionary [_poes] and the optional clock override. *)
Record POEManager := mkPOEManager {
  _poes : gmap N KnownPOE;
  _current_dt_override : option Z
}.

(** [POEManager.__init__] *)
Definition init (current_dt_override : option Z) : POEManager :=
  mkPOEManager ∅ current_dt_override.

Definition set_poes (self : POEManager) (d : N) (p : KnownPOE) : POEManager :=
  mkPOEManager (<[d := p]> (_poes self)) (_current_dt_override self).

(** [POEManager.register_known_poe]: the manager after the call and the
    value returned.  The [KeyError] of a missing key is caught by the
    method itself and falls through to the assignment. *)
Definition register_known_poe (self : POEManager) (known_poe : KnownPOE)
  : POEManager * KnownPOE :=
  let dt := poe_time known_poe in
  let d := digest known_poe in
  match _poes self !! d with
  | Some cur_poe =>
      if poe_time cur_poe <=? dt then (self, cur_poe)
      else (set_poes self d known_poe, known_poe)
  | None => (set_poes self d known_poe, known_poe)
  end.

(** [POEManager.register_by_digest]; [now] is what
    [datetime.now(timezone.utc)] would return.  A [datetime] is always
    truthy, so [dt or override or now] picks the first that is not [None]. *)
Definition register_by_digest (now : Z) (self : POEManager) (d : N)
  (dt : option Z) : POEManager * KnownPOE :=
  let dt' := match dt with
             | Some t => t
             | None => match _current_dt_override self with
                       | Some t => t
                       | None => now
                       end
             end in
  register_known_poe self (mkKnownPOE d dt').

(** A run of [register_known_poe] calls on one manager: the final manager
    and the values returned, in call order. *)
Fixpoint register_all (self : POEManager) (ps : list KnownPOE)
  : POEManager * list KnownPOE :=
  match ps with
  | [] => (self, [])
  | p :: ps' =>
      let '(self1, r) := register_known_poe self p in
      let '(self2, rs) := register_all self1 ps' in
      (self2, r :: rs)
  end.

(** [POEManager.__iter__]: the values of the dictionary.  Python yields them
    in insertion order, the model in the order of [map_to_list]; the position
    of a key does not change when its value is replaced, in both. *)
Definition values (self : POEManager) : list KnownPOE :=
  (map_to_list (_poes self)).*2.

(** Python objects a variable of the merge can hold. *)
Inductive PyObj :=
| PyNone
| PyManager (r : nat)
| PyOther.

Inductive exn :=
| TypeError
| RuntimeError.

(** The store of manager objects: references are shared, so that a manager
    merged into itself is iterated while it is updated. *)
Abbreviation store := (gmap nat POEManager).

(** The loop [for poe in iter(other): self.register_known_poe(poe)] of
    [__ior__], over the live dictionary of [other]: the iterator was created
    when the dictionary had [used] entries and has yielded [pos] of them;
    [k] entries remain.  CPython raises [RuntimeError] when the size of the
    dictionary differs from [used] at a step. *)
Fixpoint ior_loop (k used pos : nat) (self other : nat) (h : store)
  : store * PyResult exn unit :=
  match h !! other, h !! self with
  | Some o, Some s =>
      if negb (Nat.eqb (size (_poes o)) used) then (h, Raise RuntimeError)
      else
        match k with
        | O => (h, Return tt)
        | S k' =>
            match values o !! pos with
            | Some poe =>
                let s' := fst (register_known_poe s poe) in
                ior_loop k' used (S pos) self other (<[self := s']> h)
            | None => (h, Return tt)
            end
        end
  | _, _ => (h, Raise TypeError) (* a reference to no object: not reached *)
  end.

(** [POEManager.__ior__]: the store after the call and the value returned.
    The method has no [return] statement, so it returns [None]. *)
Definition __ior__ (self : nat) (other : PyObj) (h : store)
  : store * PyResult exn PyObj :=
  match other with
  | PyManager o =>
      match h !! o with
      | Some om =>
          let used := size (_poes om) in
          match ior_loop used used 0 self o h with
          | (h', Return _) => (h', Return PyNone)
          | (h', Raise e) => (h', Raise e)
          end
      | None => (h, Raise TypeError)
      end
  | _ => (h, Raise TypeError)
  end.

(** The statement [x |= y] for a variable [x] bound to a manager: Python
    evaluates [x.__ior__(y)] and binds [x] to the value returned. *)
Definition ior_stmt (x y : PyObj) (h : store) : store * PyResult exn PyObj :=
  match x with
  | PyManager r => __ior__ r y h
  | _ => (h, Raise TypeError)
  end.

(** [POEManager.__copy__] *)
Definition __copy__ (self : POEManager) : POEManager :=
  mkPOEManager (_poes self) (_current_dt_override self).

(** The mapping a variable refers to, if it refers to a manager. *)
Definition mapping_of (x : PyObj) (h : store) : option (gmap N KnownPOE) :=
  match x with
  | PyManager r => _poes <$> (h !! r)
  | _ => None
  end.

(** Every value is stored under its own digest: what [register_known_poe]
    maintains. *)
Definition poes_wf (m : gmap N KnownPOE) : Prop :=
  forall d p, m !! d = Some p -> digest p = d.

(** The oldest of a list of times. *)
Definition min_times (ts : list Z) : option Z :=
  match ts with
  | [] => None
  | t :: ts' => Some (fold_left Z.min ts' t)
  end.

(** The times supplied for digest [d] in a run of registrations. *)
Definition supplied_times (d : N) (ps : list KnownPOE) : list Z :=
  map poe_time (filter (fun p => digest p = d) ps).

(** The time stored for [d], if any, and the same as a list. *)
Definition stored_time (self : POEManager) (d : N) : option Z :=
  poe_time <$> (_poes self !! d).

Definition prior_times (self : POEManager) (d : N) : list Z :=
  option_list (stored_time self d).

(** ** Notions used in the properties, and example data *)

(** What one registration stores, and what it returns. *)
Definition oldest (prior : option Z) (t : Z) : Z :=
  match prior with Some m => Z.min m t | None => t end.

(** A manager with two registrations. *)
Definition two_poes : POEManager :=
  fst (register_all (init None) [mkKnownPOE 1 10; mkKnownPOE 2 5]).

End Poe.

(* ===================================================================== *)
(** * validate.py                                                         *)
(* ===================================================================== *)

Module Validate.

(** Why a [PathValidationError] was raised. *)
Inductive path_error :=
| MandatoryOCSPFailed (err_str : list string)
| AAControlsNotOnPreceding
| AAControlsMissing
| OtherPathError (msg : string).

(** Why an [InvalidAttrCertificateError] was raised by [_check_ac_signature]. *)
Inductive ac_error :=
| SignatureAlgorithmMismatch
| SignatureParametersMismatch
| SignatureNotVerified.

(** Why an [InsufficientRevinfoError] was raised. *)
Inductive revinfo_error :=
| MandatoryCRLFailed (err_str : list string)
| RevocationChecksFailed (failures : list string)
| NoRevinfoFound.

Inductive exn :=
| NotYetValidError
| ExpiredError
| PathValidationError (why : path_error)
| InvalidAttrCertificateError (why : ac_error)
| WeakAlgorithmError (hash_algo : string)
| InsufficientRevinfoError (why : revinfo_error)
| TypeError
| OverflowError.

Definition is_raise {A} (r : PyResult exn A) : Prop :=
  match r with Raise _ => True | Return _ => False end.

(** ** Step 1: [_PathValidationState.init_pkix_validation_state] *)

Section PathState.

(** Classes of policy_decl, name_trees, policy_tree and authority, whose
    modules are not part of this slice, with the operations the
    initialisation calls. *)
Context {PolicySet SubtreeMap PolicyTreeRoot PublicKeyInfo Name : Type}.
Variable intersect_policy_sets : PolicySet -> PolicySet -> PolicySet.
Variable subtree_map_truthy : SubtreeMap -> bool.
Variable default_permitted_subtrees : SubtreeMap.
Variable default_excluded_subtrees : SubtreeMap.
Variable intersect_with : SubtreeMap -> SubtreeMap -> SubtreeMap.
Variable union_with : SubtreeMap -> SubtreeMap -> SubtreeMap.
Variable init_policy_tree : PolicyTreeRoot.

Record PKIXValidationParams := mkPKIXValidationParams {
  user_initial_policy_set : PolicySet;
  initial_policy_mapping_inhibit : bool;
  initial_explicit_policy : bool;
  initial_any_policy_inhibit : bool;
  initial_permitted_subtrees : option SubtreeMap;
  initial_excluded_subtrees : option SubtreeMap
}.

(** [PKIXValidationParams()], the dataclass defaults. *)
Variable default_params : PKIXValidationParams.

Record TrustQualifiers := mkTrustQualifiers {
  standard_parameters : option PKIXValidationParams;
  max_path_length : option Z;
  max_aa_path_length : option Z
}.

Record TrustAnchor := mkTrustAnchor {
  trust_qualifiers : TrustQualifiers;
  authority_public_key : PublicKeyInfo;
  authority_name : Name
}.

(** [_PathValidationState].  [st_max_aa_path_length] is annotated [int], but
    the initialisation can store [None] there (it copies the anchor's
    [max_aa_path_length] whenever the anchor's [max_path_length] is set). *)
Record _PathValidationState := mkState {
  valid_policy_tree : option PolicyTreeRoot;
  explicit_policy : Z;
  inhibit_any_policy : Z;
  policy_mapping : Z;
  st_max_path_length : Z;
  st_max_aa_path_length : option Z;
  working_public_key : PublicKeyInfo;
  working_issuer_name : Name;
  permitted_subtrees : SubtreeMap;
  excluded_subtrees : SubtreeMap;
  aa_controls_used : bool
}.

(** [x or default()] for an optional mapping: [None] and the empty mapping
    are both falsy. *)
Definition or_default (x : option SubtreeMap) (d : SubtreeMap) : SubtreeMap :=
  match x with
  | Some m => if subtree_map_truthy m then m else d
  | None => d
  end.

Definition init_pkix_validation_state (path_length : Z)
  (trust_anchor : TrustAnchor) (parameters : option PKIXValidationParams)
  : _PathValidationState * PolicySet :=
  let trust_anchor_quals := trust_qualifiers trust_anchor in
  let max_path_length0 :=
    match max_path_length trust_anchor_quals with
    | Some n => n
    | None => path_length
    end in
  let max_aa_path_length0 :=
    match max_path_length trust_anchor_quals with
    | Some _ => max_aa_path_length trust_anchor_quals
    | None => Some path_length
    end in
  let trust_anchor_params := standard_parameters trust_anchor_quals in
  let '(acceptable_policies, initial_any_policy_inhibit0,
        initial_explicit_policy0, initial_policy_mapping_inhibit0,
        initial_permitted_subtrees0, initial_excluded_subtrees0) :=
    match parameters, trust_anchor_params with
    | Some parameters, Some trust_anchor_params =>
        (intersect_policy_sets (user_initial_policy_set parameters)
           (user_initial_policy_set trust_anchor_params),
         initial_any_policy_inhibit parameters
           && initial_any_policy_inhibit parameters,
         initial_explicit_policy parameters
           && initial_explicit_policy parameters,
         initial_policy_mapping_inhibit parameters
           && initial_policy_mapping_inhibit parameters,
         (let p := or_default (initial_permitted_subtrees parameters)
                     default_permitted_subtrees in
          match initial_permitted_subtrees trust_anchor_params with
          | Some t => intersect_with p t
          | None => p
          end),
         (let e := or_default (initial_excluded_subtrees parameters)
                     default_excluded_subtrees in
          match initial_excluded_subtrees trust_anchor_params with
          | Some t => union_with e t
          | None => e
          end))
    | _, _ =>
        let parameters :=
          match parameters with
          | Some p => p
          | None => match trust_anchor_params with
                    | Some p => p
                    | None => default_params
                    end
          end in
        (user_initial_policy_set parameters,
         initial_any_policy_inhibit parameters,
         initial_explicit_policy parameters,
         initial_policy_mapping_inhibit parameters,
         or_default (initial_permitted_subtrees parameters)
           default_permitted_subtrees,
         or_default (initial_excluded_subtrees parameters)
           default_excluded_subtrees)
    end in
  (mkState
     (Some init_policy_tree)
     (if initial_explicit_policy0 then 0 else path_length + 1)
     (if initial_any_policy_inhibit0 then 0 else path_length + 1)
     (if initial_policy_mapping_inhibit0 then 0 else path_length + 1)
     max_path_length0
     max_aa_path_length0
     (authority_public_key trust_anchor)
     (authority_name trust_anchor)
     initial_permitted_subtrees0
     initial_excluded_subtrees0
     false,
   acceptable_policies).

(** ** [_check_aa_controls] *)

(** The [AAControls] extension value: only the path length constraint is
    read here. *)
Record AAControls := mkAAControls { path_len_constraint : option Z }.

Definition set_aa (state : _PathValidationState) (used : bool)
  (max_aa : option Z) : _PathValidationState :=
  mkState (valid_policy_tree state) (explicit_policy state)
    (inhibit_any_policy state) (policy_mapping state)
    (st_max_path_length state) max_aa
    (working_public_key state) (working_issuer_name state)
    (permitted_subtrees state) (excluded_subtrees state) used.

(** [aa_controls] is [AAControls.read_extension_value(cert)].  Comparing an
    [int] with [None] raises [TypeError]. *)
Definition _check_aa_controls (aa_controls : option AAControls)
  (state : _PathValidationState) (index : Z)
  : PyResult exn _PathValidationState :=
  match aa_controls with
  | Some aa =>
      if negb (aa_controls_used state) && (index >? 1)
      then Raise (PathValidationError AAControlsNotOnPreceding)
      else
        match path_len_constraint aa with
        | Some new_max_aa_path_length =>
            match st_max_aa_path_length state with
            | Some cur =>
                if new_max_aa_path_length <? cur
                then Return (set_aa state true (Some new_max_aa_path_length))
                else Return (set_aa state true (Some cur))
            | None => Raise TypeError
            end
        | None => Return (set_aa state true (st_max_aa_path_length state))
        end
  | None =>
      if aa_controls_used state
      then Raise (PathValidationError AAControlsMissing)
      else Return state
  end.

(** The loop of [intl_validate_path] over the certificates [path[index]],
    [path[index+1]], ...: per certificate, the steps before
    [_check_aa_controls] (signature, validity, revocation, names, policies,
    preparation of the next step), then [_check_aa_controls], then the steps
    after it (critical extensions, recording).  The other steps are given as
    functions of the certificate and the state; [read_aa_controls] is
    [AAControls.read_extension_value]. *)
Section Loop.
Context {Cert : Type}.
Variable read_aa_controls : Cert -> option AAControls.
Variable steps_before : Z -> Cert -> _PathValidationState ->
  PyResult exn _PathValidationState.
Variable steps_after : Z -> Cert -> _PathValidationState ->
  PyResult exn _PathValidationState.

Fixpoint validate_loop (index : Z) (certs : list Cert)
  (state : _PathValidationState) : PyResult exn _PathValidationState :=
  match certs with
  | [] => Return state
  | cert :: rest =>
      match steps_before index cert state with
      | Raise e => Raise e
      | Return s1 =>
          match _check_aa_controls (read_aa_controls cert) s1 index with
          | Raise e => Raise e
          | Return s2 =>
              match steps_after index cert s2 with
              | Raise e => Raise e
              | Return s3 => validate_loop (index + 1) rest s3
              end
          end
      end
  end.

End Loop.
End PathState.

(** ** [_check_validity] *)

Record Validity := mkValidity { not_before : Z; not_after : Z }.

(** The values of [datetime]: from 0001-01-01T00:00:00 to
    9999-12-31T23:59:59.999999, in microseconds since the epoch. *)
Definition datetime_min : Z := -62135596800000000.
Definition datetime_max : Z := 253402300799999999.

Definition is_datetime (t : Z) : bool :=
  (datetime_min <=? t) && (t <=? datetime_max).

(** [dt + delta] and [dt - delta] for a [datetime] and a [timedelta]: Python
    raises [OverflowError] when the result is not a [datetime]. *)
Definition datetime_add (dt delta : Z) : PyResult exn Z :=
  if is_datetime (dt + delta) then Return (dt + delta)
  else Raise OverflowError.

Definition datetime_sub (dt delta : Z) : PyResult exn Z :=
  if is_datetime (dt - delta) then Return (dt - delta)
  else Raise OverflowError.

Definition _check_validity (validity : Validity) (moment tolerance : Z)
  : PyResult exn unit :=
  match datetime_sub (not_before validity) tolerance with
  | Raise e => Raise e
  | Return earliest =>
      if moment <? earliest then Raise NotYetValidError
      else
        match datetime_add (not_after validity) tolerance with
        | Raise e => Raise e
        | Return latest =>
            if moment >? latest then Raise ExpiredError
            else Return tt
        end
  end.

(** ** [_check_revocation] *)

(** Modelled from the spec: policy_decl.RevocationCheckingRule is not part of
    this slice.  "Each rule exposes booleans: ocsp_relevant, ocsp_mandatory,
    crl_relevant, crl_mandatory, tolerant, strict, and a named mode from
    NO_CHECK, CHECK_IF_DECLARED, CRL_REQUIRED, OCSP_REQUIRED,
    CRL_OR_OCSP_REQUIRED, CRL_AND_OCSP_REQUIRED." *)
Inductive RevocationCheckingMode :=
| NO_CHECK
| CHECK_IF_DECLARED
| CRL_REQUIRED
| OCSP_REQUIRED
| CRL_OR_OCSP_REQUIRED
| CRL_AND_OCSP_REQUIRED.

#[global] Instance RevocationCheckingMode_eq_dec : EqDecision RevocationCheckingMode.
Proof. solve_decision. Defined.

Record RevocationCheckingRule := mkRule {
  mode : RevocationCheckingMode;
  ocsp_relevant : bool;
  ocsp_mandatory : bool;
  crl_relevant : bool;
  crl_mandatory : bool;
  tolerant : bool;
  strict : bool
}.

(** What the call of [verify_ocsp_response] does when it is made: it returns,
    or raises one of the exceptions the combinator handles, or another
    exception, which propagates. *)
Inductive ocsp_outcome :=
| OCSPGood
| OCSPValidationIndeterminateError (failures : list string)
| OCSPNoMatchesError
| OCSPFetchError (e : string)
| OCSPOtherError (e : exn).

(** The same for the call of [verify_crl]. *)
Inductive crl_outcome :=
| CRLGood
| CRLValidationIndeterminateError (failures : list string)
| CRLNoMatchesError
| CRLFetchError (e : string)
| CRLOtherError (e : exn).

(** An element of the local list [failures]: a message taken from an
    indeterminate error, or a fetch error object appended as it is. *)
Inductive failure_item :=
| FailureMessage (s : string)
| FailureError (e : string).

Definition item_str (f : failure_item) : string :=
  match f with FailureMessage s => s | FailureError e => e end.

(** ['; '.join(failures)] accepts strings only. *)
Fixpoint join_failures (fs : list failure_item) : option (list string) :=
  match fs with
  | [] => Some []
  | FailureMessage s :: fs' => cons s <$> join_failures fs'
  | FailureError _ :: _ => None
  end.

(** What the combinator does to the outside, in order. *)
Inductive event :=
| CallVerifyOCSP
| CallVerifyCRL
| ReportSoftFail (e : string).

#[global] Instance event_eq_dec : EqDecision event.
Proof. solve_decision. Defined.

(** The local variables of [_check_revocation]. *)
Record rev_vars := mkVars {
  ocsp_status_good : bool;
  revocation_check_failed : bool;
  ocsp_matched : bool;
  crl_matched : bool;
  crl_status_good : bool;
  soft_fail : bool;
  failures : list failure_item
}.

Definition rev_vars_init : rev_vars :=
  mkVars false false false false false false [].

(** A run of the combinator: the events, [status_good] once it has been
    computed, and how the function ends. *)
Record rev_run := mkRun {
  trace : list event;
  status_good : option bool;
  outcome : PyResult exn unit
}.

(** The [try] block around [verify_ocsp_response]. *)
Definition ocsp_block (rev_rule : RevocationCheckingRule) (v : rev_vars)
  (ocsp : ocsp_outcome) : list event * PyResult exn rev_vars :=
  match ocsp with
  | OCSPGood =>
      ([CallVerifyOCSP],
       Return (mkVars true (revocation_check_failed v) true (crl_matched v)
                 (crl_status_good v) (soft_fail v) (failures v)))
  | OCSPValidationIndeterminateError fl =>
      ([CallVerifyOCSP],
       Return (mkVars (ocsp_status_good v) true true (crl_matched v)
                 (crl_status_good v) (soft_fail v)
                 (failures v ++ map FailureMessage fl)))
  | OCSPNoMatchesError => ([CallVerifyOCSP], Return v)
  | OCSPFetchError e =>
      if tolerant rev_rule
      then ([CallVerifyOCSP; ReportSoftFail e],
            Return (mkVars (ocsp_status_good v) (revocation_check_failed v)
                      (ocsp_matched v) (crl_matched v) (crl_status_good v)
                      true (failures v)))
      else ([CallVerifyOCSP],
            Return (mkVars (ocsp_status_good v) true (ocsp_matched v)
                      (crl_matched v) (crl_status_good v) (soft_fail v)
                      (failures v ++ [FailureError e])))
  | OCSPOtherError e => ([CallVerifyOCSP], Raise e)
  end.

(** The [try] block around [verify_crl]. *)
Definition crl_block (rev_rule : RevocationCheckingRule) (v : rev_vars)
  (crl : crl_outcome) : list event * PyResult exn rev_vars :=
  match crl with
  | CRLGood =>
      ([CallVerifyCRL],
       Return (mkVars (ocsp_status_good v) false (ocsp_matched v) true true
                 (soft_fail v) (failures v)))
  | CRLValidationIndeterminateError fl =>
      ([CallVerifyCRL],
       Return (mkVars (ocsp_status_good v) true (ocsp_matched v) true
                 (crl_status_good v) (soft_fail v)
                 (failures v ++ map FailureMessage fl)))
  | CRLNoMatchesError => ([CallVerifyCRL], Return v)
  | CRLFetchError e =>
      if tolerant rev_rule
      then ([CallVerifyCRL; ReportSoftFail e],
            Return (mkVars (ocsp_status_good v) (revocation_check_failed v)
                      (ocsp_matched v) (crl_matched v) (crl_status_good v)
                      true (failures v)))
      else ([CallVerifyCRL],
            Return (mkVars (ocsp_status_good v) true (ocsp_matched v)
                      (crl_matched v) (crl_status_good v) (soft_fail v)
                      (failures v ++ [FailureError e])))
  | CRLOtherError e => ([CallVerifyCRL], Raise e)
  end.

(** The error string of the two mandatory-check failures. *)
Definition err_str (fs : list failure_item) (default : string) : list string :=
  match fs with
  | [] => [default]
  | _ => map item_str fs
  end.

(** The end of [_check_revocation], from [expected_revinfo] on. *)
Definition final_checks (rev_rule : RevocationCheckingRule)
  (revinfo_declared status_good0 : bool) (v : rev_vars) : PyResult exn unit :=
  let expected_revinfo :=
    strict rev_rule
    || (revinfo_declared && bool_decide (mode rev_rule = CHECK_IF_DECLARED)) in
  let matched := crl_matched v || ocsp_matched v in
  let expected_revinfo_not_found := negb matched && expected_revinfo in
  if negb (soft_fail v) then
    if negb status_good0 && matched && revocation_check_failed v then
      match join_failures (failures v) with
      | Some msgs => Raise (InsufficientRevinfoError (RevocationChecksFailed msgs))
      | None => Raise TypeError
      end
    else if expected_revinfo_not_found
    then Raise (InsufficientRevinfoError NoRevinfoFound)
    else Return tt
  else Return tt.

(** [cert_has_crl, cert_has_ocsp] is [get_declared_revinfo(cert)];
    [rev_rule] is the rule of the revocation policy for the position of the
    certificate. *)
Definition _check_revocation (cert_has_crl cert_has_ocsp : bool)
  (rev_rule : RevocationCheckingRule) (ocsp : ocsp_outcome)
  (crl : crl_outcome) : rev_run :=
  let revinfo_declared := cert_has_crl || cert_has_ocsp in
  let '(t1, r1) :=
    if ocsp_relevant rev_rule && cert_has_ocsp
    then ocsp_block rev_rule rev_vars_init ocsp
    else ([], Return rev_vars_init) in
  match r1 with
  | Raise e => mkRun t1 None (Raise e)
  | Return v1 =>
      if negb (ocsp_status_good v1) && ocsp_mandatory rev_rule
      then mkRun t1 None
             (Raise (PathValidationError
                       (MandatoryOCSPFailed
                          (err_str (failures v1)
                             "an applicable OCSP response could not be found"))))
      else
        let status_good0 :=
          ocsp_status_good v1
          && negb (bool_decide (mode rev_rule = CRL_AND_OCSP_REQUIRED)) in
        let crl_required_by_policy :=
          crl_mandatory rev_rule
          || (negb status_good0
              && bool_decide (mode rev_rule = CRL_OR_OCSP_REQUIRED)) in
        let crl_fetchable := crl_relevant rev_rule && cert_has_crl in
        let '(t2, r2) :=
          if crl_required_by_policy || (crl_fetchable && negb status_good0)
          then crl_block rev_rule v1 crl
          else ([], Return v1) in
        match r2 with
        | Raise e => mkRun (t1 ++ t2) (Some status_good0) (Raise e)
        | Return v2 =>
            if negb (crl_status_good v2) && crl_mandatory rev_rule
            then mkRun (t1 ++ t2) (Some status_good0)
                   (Raise (InsufficientRevinfoError
                             (MandatoryCRLFailed
                                (err_str (failures v2)
                                   "an applicable CRL could not be found"))))
            else mkRun (t1 ++ t2) (Some status_good0)
                   (final_checks rev_rule revinfo_declared status_good0 v2)
        end
  end.

(** Was [verify_crl] called in a run? *)
Definition crl_invoked (r : rev_run) : bool :=
  bool_decide (CallVerifyCRL ∈ trace r).

(** ** [_check_ac_signature] *)

Section ACSignature.

(** asn1crypto's [SignedDigestAlgorithm]: a value has a decoded form
    ([.native]), a DER encoding ([.dump()]) and names a hash algorithm. *)
Context {SignedDigestAlgorithm Native : Type} `{EqDecision Native}.
Variable native : SignedDigestAlgorithm -> Native.
Variable dump : SignedDigestAlgorithm -> list Z.
Variable hash_algo : SignedDigestAlgorithm -> string.

(** What the call of [validate_sig] does when it is made. *)
Inductive validate_sig_outcome :=
| SignatureValid
| PSSParameterMismatch
| InvalidSignature.

Inductive ac_event :=
| CallValidateSig.

(** [sd_algo] is [attr_cert['signature_algorithm']], [embedded_sd_algo] is
    [attr_cert['ac_info']['signature']]. *)
Definition _check_ac_signature (sd_algo embedded_sd_algo : SignedDigestAlgorithm)
  (weak_hash_algos : gset string) (validate_sig : validate_sig_outcome)
  : list ac_event * PyResult exn unit :=
  if bool_decide (native sd_algo <> native embedded_sd_algo)
  then ([], Raise (InvalidAttrCertificateError SignatureAlgorithmMismatch))
  else
    let hash_algo0 := hash_algo sd_algo in
    if bool_decide (hash_algo0 ∈ weak_hash_algos)
    then ([], Raise (WeakAlgorithmError hash_algo0))
    else
      match validate_sig with
      | SignatureValid => ([CallValidateSig], Return tt)
      | PSSParameterMismatch =>
          ([CallValidateSig],
           Raise (InvalidAttrCertificateError SignatureParametersMismatch))
      | InvalidSignature =>
          ([CallValidateSig],
           Raise (InvalidAttrCertificateError SignatureNotVerified))
      end.

End ACSignature.

(** Three algorithm identifiers: sha256WithRSAEncryption
    (1.2.840.113549.1.1.11) with the parameters field holding NULL, the same
    with the parameters field absent, and sha1WithRSAEncryption
    (1.2.840.113549.1.1.5) with NULL parameters.  asn1crypto decodes an
    absent optional field and a NULL both to [None], so the first two have
    the same [.native] and different encodings. *)
Inductive rsa_identifier :=
| sha256_rsa_null
| sha256_rsa_absent
| sha1_rsa_null.

Definition rsa_dump (a : rsa_identifier) : list Z :=
  match a with
  | sha256_rsa_null =>
      [48; 13; 6; 9; 42; 134; 72; 134; 247; 13; 1; 1; 11; 5; 0]
  | sha256_rsa_absent =>
      [48; 11; 6; 9; 42; 134; 72; 134; 247; 13; 1; 1; 11]
  | sha1_rsa_null =>
      [48; 13; 6; 9; 42; 134; 72; 134; 247; 13; 1; 1; 5; 5; 0]
  end.

Definition rsa_native (a : rsa_identifier) : string * option (list Z) :=
  match a with
  | sha256_rsa_null | sha256_rsa_absent => ("sha256_rsa"%string, None)
  | sha1_rsa_null => ("sha1_rsa"%string, None)
  end.

Definition rsa_hash_algo (a : rsa_identifier) : string :=
  match a with
  | sha256_rsa_null | sha256_rsa_absent => "sha256"%string
  | sha1_rsa_null => "sha1"%string
  end.

(** ** Notions used in the properties, and example data *)

(** The counter the specification asks for: the caller's flag and the
    anchor's flag combined by a conjunction. *)
Definition spec_initial_counter (caller_flag anchor_flag : bool)
  (path_length : Z) : Z :=
  if caller_flag && anchor_flag then 0 else path_length + 1.

(** Did the OCSP call return a good status; did it raise an exception the
    combinator does not handle. *)
Definition ocsp_is_good (o : ocsp_outcome) : bool :=
  match o with OCSPGood => true | _ => false end.

Definition ocsp_propagates (o : ocsp_outcome) : bool :=
  match o with OCSPOtherError _ => true | _ => false end.

(** The caller sets the three initial flags, the anchor sets none; policy
    sets, subtrees, keys and names carry no information here. *)
Definition caller_inhibits : @PKIXValidationParams unit unit :=
  mkPKIXValidationParams tt true true true None None.

Definition anchor_permits : @PKIXValidationParams unit unit :=
  mkPKIXValidationParams tt false false false None None.

Definition permissive_anchor : @TrustAnchor unit unit unit unit :=
  mkTrustAnchor (mkTrustQualifiers (Some anchor_permits) None None) tt tt.

Definition init_at_failing_input
  : @_PathValidationState unit unit unit unit :=
  fst (init_pkix_validation_state (fun _ _ => tt) (fun _ => true) tt tt
         (fun _ _ => tt) (fun _ _ => tt) tt anchor_permits 3
         permissive_anchor (Some caller_inhibits)).

(** A path state over trivial policy trees, keys, names and subtrees, and
    a loop whose other steps do nothing. *)
Definition plain_state : @_PathValidationState unit unit unit unit :=
  mkState None 0 0 0 5 (Some 5) tt tt tt tt false.

Definition no_other_steps (index : Z) (cert : option AAControls)
  (state : @_PathValidationState unit unit unit unit)
  : PyResult exn (@_PathValidationState unit unit unit unit) :=
  Return state.

(** The rule of a policy that requires both a CRL and an OCSP response. *)
Definition both_required : RevocationCheckingRule :=
  mkRule CRL_AND_OCSP_REQUIRED true true true true false true.

End Validate.

(* ===================================================================== *)
(** * revinfo/validate_crl.py                                             *)
(* ===================================================================== *)

Module ValidateCrl.

(** ** Names (asn1crypto.x509) *)

(** A relative distinguished name: attribute type and value pairs. *)
Abbreviation RelativeDistinguishedName := (list (string * string)).

(** [x509.Name] is a choice whose [.chosen] is the [RDNSequence]. *)
Abbreviation RDNSequence := (list RelativeDistinguishedName).
Abbreviation Name := RDNSequence.

Inductive GeneralName :=
| directory_name (n : Name)
| other_general_name (kind value : string).

#[global] Instance GeneralName_eq_dec : EqDecision GeneralName.
Proof. solve_decision. Defined.

Inductive DistributionPointName :=
| full_name (names : list GeneralName)
| name_relative_to_crl_issuer (rdn : RelativeDistinguishedName).

Record IssuingDistributionPoint := mkIDP {
  distribution_point : option DistributionPointName;
  only_contains_user_certs : bool;
  only_contains_ca_certs : bool;
  only_some_reasons : option (gset string);
  indirect_crl : bool;
  only_contains_attribute_certs : bool
}.

(** A CRL distribution point of a certificate; an absent [crl_issuer] is the
    empty list (both are falsy). *)
Record DistributionPoint := mkDP {
  dp_distribution_point : option DistributionPointName;
  dp_crl_issuer : list GeneralName
}.

Record Certificate := mkCertificate {
  subject : Name;
  issuer : Name;
  serial_number : Z;
  crl_distribution_points_value : option (list DistributionPoint)
}.

(** An entry of [tbs_cert_list.revoked_certificates]: the names of its
    critical extensions, the issuer named by its [certificate_issuer]
    extension, the serial number, the reason of its [crl_reason] extension
    and the revocation date. *)
Record RevokedCertificate := mkRevoked {
  critical_extensions : gset string;
  issuer_name : option Name;
  user_certificate : Z;
  crl_reason_value : option string;
  revocation_date : Z
}.

(** The fields of a [CertificateList] read by the functions below. *)
Record CertificateList := mkCRL {
  crl_issuer_name : Name;
  issuing_distribution_point_value : option IssuingDistributionPoint;
  authority_key_identifier : option (list Z);
  revoked_certificates : list RevokedCertificate
}.

(** What a Python variable holding a name can hold here. *)
Inductive PyValue :=
| PyNone
| PyName (n : Name)
| PyChosen (kind value : string).

Inductive exn :=
| LookupError
| IndexError
| AttributeError
| NotImplementedError
| ValueError
| RevokedError (reason : string) (revocation_dt : Z)
| CRLNoMatchesError
| CRLValidationIndeterminateError (failures : list string).

(** [_CRLErrs]; a failure is recorded by its message. *)
Record _CRLErrs := mkErrs {
  failures : list string;
  issuer_failures : Z
}.

Definition add_failure (errs : _CRLErrs) (msg : string) : _CRLErrs :=
  mkErrs (failures errs ++ [msg]) (issuer_failures errs).

Definition add_issuer_failure (errs : _CRLErrs) : _CRLErrs :=
  mkErrs (failures errs) (issuer_failures errs + 1).

(** ** Lifting a relative name *)

(** [Asn1Value.copy]: a deep copy. *)
Definition copy (n : Name) : Name := n.

(** [SequenceOf.append]: adds the value to the end of the sequence, in
    place, and returns [None].  The result is the sequence after the call
    and the value returned. *)
Definition RDNSequence_append (self : RDNSequence)
  (value : RelativeDistinguishedName) : RDNSequence * PyValue :=
  (self ++ [value], PyNone).

(** The three statements used twice in [_match_dps_idp_names]:
    [inner = crl_issuer.subject.copy()];
    [inner.chosen.append(name.chosen.untag())];
    [x509.GeneralName(name='directory_name', value=inner)]. *)
Definition extended_issuer_name (crl_issuer_subject : Name)
  (rdn : RelativeDistinguishedName) : GeneralName :=
  let inner_extended_issuer_name := copy crl_issuer_subject in
  let '(inner_extended_issuer_name, _) :=
    RDNSequence_append inner_extended_issuer_name rdn in
  directory_name inner_extended_issuer_name.

(** [general_name.chosen] *)
Definition chosen (g : GeneralName) : PyValue :=
  match g with
  | directory_name n => PyName n
  | other_general_name k v => PyChosen k v
  end.

(** ** [_get_crl_authority_name] *)

(** [retrieve_by_key_identifier] is the method of the certificate registry. *)
Definition _get_crl_authority_name (certificate_list : CertificateList)
  (cert_issuer_name : Name)
  (retrieve_by_key_identifier : list Z -> option Certificate)
  (errs : _CRLErrs) : _CRLErrs * PyResult exn (bool * PyValue) :=
  let crl_idp := issuing_distribution_point_value certificate_list in
  match crl_idp with
  | Some idp =>
      if negb (indirect_crl idp)
      then (errs, Return (false, PyName (crl_issuer_name certificate_list)))
      else
        match distribution_point idp with
        | Some (full_name names) =>
            match names with
            | g :: _ => (errs, Return (true, chosen g))
            | [] => (errs, Raise IndexError)
            end
        | Some (name_relative_to_crl_issuer rdn) =>
            let '(_, crl_authority_name) :=
              RDNSequence_append (copy cert_issuer_name) rdn in
            (errs, Return (true, crl_authority_name))
        | None =>
            match authority_key_identifier certificate_list with
            | Some (b :: bs) =>
                match retrieve_by_key_identifier (b :: bs) with
                | Some tmp_crl_issuer =>
                    (errs, Return (true, PyName (subject tmp_crl_issuer)))
                | None => (errs, Raise AttributeError)
                end
            | _ =>
                (add_failure errs
                   "CRL is marked as an indirect CRL, but provides no mechanism for locating the CRL issuer certificate",
                 Raise LookupError)
            end
        end
  | None => (errs, Return (false, PyName (crl_issuer_name certificate_list)))
  end.

(** ** [_match_dps_idp_names] *)

(** The names of the issuing distribution point, as general names. *)
Definition idp_general_names_of (crl_idp : IssuingDistributionPoint)
  (crl_issuer : Certificate) : list GeneralName :=
  match distribution_point crl_idp with
  | Some (full_name names) => names
  | Some (name_relative_to_crl_issuer rdn) =>
      [extended_issuer_name (subject crl_issuer) rdn]
  | None => []
  end.

(** [GeneralName.__eq__]: asn1crypto does not compare names of the kinds
    other_name, x400_address and edi_party_name, and raises [ValueError]
    when one of the two names is of such a kind. *)
Definition comparable (g : GeneralName) : bool :=
  match g with
  | directory_name _ => true
  | other_general_name kind _ =>
      negb (bool_decide
              (kind ∈ ["other_name"; "x400_address"; "edi_party_name"]%string))
  end.

Definition GeneralName_eq (self other : GeneralName) : PyResult exn bool :=
  if comparable self && comparable other
  then Return (bool_decide (self = other))
  else Raise ValueError.

(** [general_name in names], for a list or a sequence of general names: the
    elements are compared with [general_name] in order, up to the first
    that is equal. *)
Fixpoint name_in (general_name : GeneralName) (names : list GeneralName)
  : PyResult exn bool :=
  match names with
  | [] => Return false
  | n :: rest =>
      match GeneralName_eq n general_name with
      | Raise e => Raise e
      | Return true => Return true
      | Return false => name_in general_name rest
      end
  end.

(** [for general_name in xs: if general_name in ys: ...; break]: has the
    loop found a name? *)
Fixpoint any_in (xs ys : list GeneralName) : PyResult exn bool :=
  match xs with
  | [] => Return false
  | x :: rest =>
      match name_in x ys with
      | Raise e => Raise e
      | Return true => Return true
      | Return false => any_in rest ys
      end
  end.

(** The loop over the distribution points of the certificate: the values of
    [has_dp_name] and [idp_dp_match] after it. *)
Fixpoint dps_loop (crl_issuer : Certificate) (idp_general_names : list GeneralName)
  (crl_dps : list DistributionPoint) (has_dp_name idp_dp_match : bool)
  : PyResult exn (bool * bool) :=
  match crl_dps with
  | [] => Return (has_dp_name, idp_dp_match)
  | dp :: rest =>
      if idp_dp_match then Return (has_dp_name, idp_dp_match)
      else
        match dp_distribution_point dp with
        | Some (full_name names) =>
            match any_in names idp_general_names with
            | Raise e => Raise e
            | Return found =>
                dps_loop crl_issuer idp_general_names rest true found
            end
        | Some (name_relative_to_crl_issuer rdn) =>
            match name_in (extended_issuer_name (subject crl_issuer) rdn)
                    idp_general_names with
            | Raise e => Raise e
            | Return found =>
                dps_loop crl_issuer idp_general_names rest true found
            end
        | None =>
            match dp_crl_issuer dp with
            | [] => dps_loop crl_issuer idp_general_names rest
                      has_dp_name idp_dp_match
            | names =>
                match any_in names idp_general_names with
                | Raise e => Raise e
                | Return found =>
                    dps_loop crl_issuer idp_general_names rest true found
                end
            end
        end
  end.

Definition _match_dps_idp_names (crl_idp : IssuingDistributionPoint)
  (crl_dps : option (list DistributionPoint)) (crl_issuer : Certificate)
  (crl_authority_name : Name) : PyResult exn bool :=
  let has_idp_name :=
    match distribution_point crl_idp with Some _ => true | None => false end in
  let idp_general_names := idp_general_names_of crl_idp crl_issuer in
  let names_matched :=
    match crl_dps with
    | Some (dp :: dps) =>
        dps_loop crl_issuer idp_general_names (dp :: dps) false false
    | _ =>
        (* If there is no DP, we consider the CRL issuer name to be it *)
        match name_in (directory_name crl_authority_name)
                idp_general_names with
        | Raise e => Raise e
        | Return found => Return (true, found)
        end
    end in
  match names_matched with
  | Raise e => Raise e
  | Return (has_dp_name, idp_dp_match) =>
      Return (idp_dp_match || negb has_idp_name || negb has_dp_name)
  end.

(** ** Revocation reasons *)

(** Modelled from the spec: revinfo/constants.py is not part of this slice.
    "the complete set {key_compromise, ca_compromise, affiliation_changed,
    superseded, cessation_of_operation, certificate_hold,
    privilege_withdrawn, aa_compromise}". *)
Definition VALID_REVOCATION_REASONS : gset string :=
  list_to_set
    ["key_compromise"; "ca_compromise"; "affiliation_changed"; "superseded";
     "cessation_of_operation"; "certificate_hold"; "privilege_withdrawn";
     "aa_compromise"]%string.

Section Lookup.

(** [KNOWN_CRL_ENTRY_EXTENSIONS] of revinfo/constants.py. *)
Variable KNOWN_CRL_ENTRY_EXTENSIONS : gset string.

(** ** [_find_cert_in_list] *)

(** The loop over the revoked entries, with the issuer name carried forward
    in [last_issuer_name].  The result is [(date, reason)], or [None] for the
    tuple [(None, None)]. *)
Fixpoint find_loop (cert_serial : Z) (cert_issuer_name : Name)
  (last_issuer_name : Name) (entries : list RevokedCertificate)
  : PyResult exn (option (Z * string)) :=
  match entries with
  | [] => Return None
  | revoked_cert :: rest =>
      if bool_decide (critical_extensions revoked_cert
                        ∖ KNOWN_CRL_ENTRY_EXTENSIONS <> ∅)
      then Raise NotImplementedError
      else
        let last_issuer_name :=
          match issuer_name revoked_cert with
          | Some n =>
              if bool_decide (n <> last_issuer_name) then n
              else last_issuer_name
          | None => last_issuer_name
          end in
        if bool_decide (last_issuer_name <> cert_issuer_name)
        then find_loop cert_serial cert_issuer_name last_issuer_name rest
        else if bool_decide (user_certificate revoked_cert <> cert_serial)
        then find_loop cert_serial cert_issuer_name last_issuer_name rest
        else
          let crl_reason :=
            match crl_reason_value revoked_cert with
            | None => "unspecified"%string
            | Some r => r
            end in
          Return (Some (revocation_date revoked_cert, crl_reason))
  end.

Definition _find_cert_in_list (cert_serial : Z) (cert_issuer_name : Name)
  (certificate_list : list RevokedCertificate) (crl_issuer : Certificate)
  : PyResult exn (option (Z * string)) :=
  find_loop cert_serial cert_issuer_name (subject crl_issuer) certificate_list.

(** ** [_check_cert_on_crl_and_delta] *)

Definition entry_failure : string :=
  "One or more unrecognized critical extensions are present in the CRL entry for the certificate".

Definition _check_cert_on_crl_and_delta (crl_issuer : Certificate)
  (cert_serial : Z) (cert_issuer_name : Name)
  (certificate_list : list RevokedCertificate)
  (delta_certificate_list : option (list RevokedCertificate))
  (errs : _CRLErrs) : _CRLErrs * PyResult exn (option (Z * string)) :=
  let in_delta :=
    match delta_certificate_list with
    | Some delta => _find_cert_in_list cert_serial cert_issuer_name delta crl_issuer
    | None => Return None
    end in
  match in_delta with
  | Raise e => (add_failure errs entry_failure, Raise e)
  | Return found_in_delta =>
      let in_either :=
        match found_in_delta with
        | Some found => Return (Some found)
        | None =>
            _find_cert_in_list cert_serial cert_issuer_name certificate_list
              crl_issuer
        end in
      match in_either with
      | Raise e => (add_failure errs entry_failure, Raise e)
      | Return (Some (revoked_date, revoked_reason)) =>
          if bool_decide (revoked_reason = "remove_from_crl"%string)
          then (errs, Return None)
          else (errs, Return (Some (revoked_date, revoked_reason)))
      | Return None => (errs, Return None)
      end
  end.

(** ** [_handle_single_crl] *)

(** The part of [_handle_single_crl] before the entry lookup (authority
    name, CRL issuer, scope, freshness, delta CRL), by what it does: it makes
    the function return [None], after recording failures and at most one
    issuer failure; or it raises [ValueError]; or it raises another
    exception that [_handle_single_crl] does not handle, such as the
    [AttributeError] of [_get_crl_authority_name] when the registry has no
    certificate for the key identifier of an indirect CRL; or it reaches the
    entry lookup with the CRL issuer, the interim reasons, the delta CRL if
    one is used, and the failures recorded on the way. *)
Inductive before_lookup :=
| ReturnsNone (issuer_failure : bool) (new_failures : list string)
| RaisesValueError
| RaisesUnhandled (e : exn)
| ReachesLookup (crl_issuer : Certificate) (interim_reasons : gset string)
    (delta : option (list RevokedCertificate)) (new_failures : list string).

(** A complete CRL of the to-do list of [verify_crl]. *)
Record CRLToProcess := mkToProcess {
  crl_data : CertificateList;
  before : before_lookup
}.

Definition add_failures (errs : _CRLErrs) (msgs : list string) : _CRLErrs :=
  mkErrs (failures errs ++ msgs) (issuer_failures errs).

Definition _handle_single_crl (cert_serial : Z) (cert_issuer_name : Name)
  (certificate_list_with_poe : CRLToProcess) (errs : _CRLErrs)
  : _CRLErrs * PyResult exn (option (gset string)) :=
  match before certificate_list_with_poe with
  | ReturnsNone issuer_failure new_failures =>
      let errs := add_failures errs new_failures in
      (if issuer_failure then add_issuer_failure errs else errs, Return None)
  | RaisesValueError => (errs, Raise ValueError)
  | RaisesUnhandled e => (errs, Raise e)
  | ReachesLookup crl_issuer interim_reasons delta new_failures =>
      let errs := add_failures errs new_failures in
      match _check_cert_on_crl_and_delta crl_issuer cert_serial
              cert_issuer_name
              (revoked_certificates (crl_data certificate_list_with_poe))
              delta errs with
      | (errs, Raise NotImplementedError) => (errs, Return None)
      | (errs, Raise e) => (errs, Raise e)
      | (errs, Return (Some (revoked_date, revoked_reason))) =>
          (errs, Raise (RevokedError revoked_reason revoked_date))
      | (errs, Return None) => (errs, Return (Some interim_reasons))
      end
  end.

(** ** [_process_crl_completeness] *)

Definition _process_crl_completeness (checked_reasons : gset string)
  (total_crls : Z) (errs : _CRLErrs) : option exn :=
  let checked_reasons := checked_reasons ∖ {["unused"%string]} in
  if bool_decide (checked_reasons <> VALID_REVOCATION_REASONS) then
    if bool_decide (total_crls = issuer_failures errs)
    then Some CRLNoMatchesError
    else
      let errs :=
        match failures errs with
        | [] => add_failure errs
                  "The available CRLs do not cover all revocation reasons"
        | _ => errs
        end in
      Some (CRLValidationIndeterminateError (failures errs))
  else None.

(** ** [verify_crl] *)

(** The [while] loop over [crls_to_process]. *)
Fixpoint crl_loop (cert_serial : Z) (cert_issuer_name : Name)
  (crls_to_process : list CRLToProcess) (checked_reasons : gset string)
  (errs : _CRLErrs) : PyResult exn (gset string * _CRLErrs) :=
  match crls_to_process with
  | [] => Return (checked_reasons, errs)
  | certificate_list_with_poe :: rest =>
      match _handle_single_crl cert_serial cert_issuer_name
              certificate_list_with_poe errs with
      | (errs, Return (Some interim_reasons)) =>
          crl_loop cert_serial cert_issuer_name rest
            (checked_reasons ∪ interim_reasons) errs
      | (errs, Return None) =>
          crl_loop cert_serial cert_issuer_name rest checked_reasons errs
      | (errs, Raise ValueError) =>
          crl_loop cert_serial cert_issuer_name rest checked_reasons
            (add_failure errs "Generic processing error while validating CRL.")
      | (_, Raise e) => Raise e
      end
  end.

(** [classification_failures] are the failures recorded by
    [_classify_relevant_crls]; [issuing_authority] is the name of the
    authority [path.find_issuing_authority(cert)] finds, if it finds one;
    [complete_lists] are the complete CRLs, in processing order. *)
Definition verify_crl (cert_serial : Z) (cert_issuer_name : Name)
  (classification_failures : list string) (issuing_authority : option Name)
  (complete_lists : list CRLToProcess) : PyResult exn unit :=
  let errs := mkErrs classification_failures 0 in
  match issuing_authority with
  | None => Raise CRLNoMatchesError
  | Some _ =>
      let total_crls := Z.of_nat (length complete_lists) in
      match crl_loop cert_serial cert_issuer_name complete_lists ∅ errs with
      | Raise e => Raise e
      | Return (checked_reasons, errs) =>
          match _process_crl_completeness checked_reasons total_crls errs with
          | Some exc => Raise exc
          | None => Return tt
          end
      end
  end.

(** ** Notions used in the properties *)

(** The issuer in effect after a run of entries: the last
    [certificate_issuer] seen, or the name the run started with. *)
Definition carried_issuer (last_issuer_name : Name)
  (entries : list RevokedCertificate) : Name :=
  fold_left (fun l e => default l (issuer_name e)) entries last_issuer_name.

Section PerCertificate.
Variable cert_serial : Z.
Variable cert_issuer_name : Name.

(** How [_handle_single_crl] ends on a CRL; this does not depend on the
    errors recorded so far. *)
Definition crl_result (c : CRLToProcess)
  : PyResult exn (option (gset string)) :=
  snd (_handle_single_crl cert_serial cert_issuer_name c (mkErrs [] 0)).

(** The interim reasons of a CRL that was processed successfully. *)
Definition covered_reasons (c : CRLToProcess) : gset string :=
  match crl_result c with
  | Return (Some interim_reasons) => interim_reasons
  | _ => ∅
  end.

(** The CRL lists the certificate as revoked. *)
Definition reports_revoked (c : CRLToProcess) : bool :=
  match crl_result c with
  | Raise (RevokedError _ _) => true
  | _ => false
  end.

(** The exception with which the CRL ends the loop of [verify_crl], if it
    does: any exception of [_handle_single_crl] but [ValueError]. *)
Definition propagated (c : CRLToProcess) : option exn :=
  match crl_result c with
  | Raise ValueError => None
  | Raise e => Some e
  | Return _ => None
  end.

(** The CRL failed issuer matching. *)
Definition issuer_failed (c : CRLToProcess) : bool :=
  match before c with
  | ReturnsNone true _ => true
  | _ => false
  end.

(** The failure diagnostics recorded for the CRL, by [_handle_single_crl]
    and by the handler of [ValueError] in [verify_crl]. *)
Definition diagnostics (c : CRLToProcess) : list string :=
  failures (fst (_handle_single_crl cert_serial cert_issuer_name c (mkErrs [] 0)))
  ++ match crl_result c with
     | Raise ValueError => ["Generic processing error while validating CRL."%string]
     | _ => []
     end.

End PerCertificate.

End Lookup.

(** ** Example data *)

(** An instance of [KNOWN_CRL_ENTRY_EXTENSIONS]: the CRL entry extensions of
    RFC 5280, section 5.3. *)
Definition rfc5280_entry_extensions : gset string :=
  list_to_set ["crl_reason"; "hold_instruction_code"; "invalidity_date";
               "certificate_issuer"]%string.

Definition example_ca : Name :=
  [[("country_name", "US")]; [("organization_name", "Example CA")]]%string.

Definition example_ca_cert : Certificate :=
  mkCertificate example_ca example_ca 1 None.

(** Entries: another certificate revoked for key compromise; certificate 42
    revoked with no reason given; another certificate, in an entry with a
    critical extension that is not recognised. *)
Definition entry_other : RevokedCertificate :=
  mkRevoked ∅ None 7 (Some "key_compromise"%string) 50.

Definition entry_42_no_reason : RevokedCertificate :=
  mkRevoked ∅ None 42 None 100.

Definition entry_42_key_compromise : RevokedCertificate :=
  mkRevoked ∅ None 42 (Some "key_compromise"%string) 100.

Definition entry_unrecognised_critical : RevokedCertificate :=
  mkRevoked {["vendor_extension"%string]} None 7 None 50.

(** A complete CRL of the example CA that reaches the entry lookup with the
    given reasons in scope and no delta CRL. *)
Definition example_crl (interim_reasons : gset string)
  (entries : list RevokedCertificate) : CRLToProcess :=
  mkToProcess (mkCRL example_ca None None entries)
    (ReachesLookup example_ca_cert interim_reasons None []).

(** Two CRLs that cover the reasons between them, a CRL of another
    issuer, and a CRL restricted to one reason. *)
Definition crl_first_half : CRLToProcess :=
  example_crl
    (list_to_set ["key_compromise"; "ca_compromise"; "affiliation_changed";
                  "superseded"; "unused"]%string)
    [entry_other].

Definition crl_second_half : CRLToProcess :=
  example_crl
    (list_to_set ["cessation_of_operation"; "certificate_hold";
                  "privilege_withdrawn"; "aa_compromise"]%string)
    [].

Definition crl_of_other_issuer : CRLToProcess :=
  mkToProcess (mkCRL example_ca None None []) (ReturnsNone true []).

Definition crl_one_reason : CRLToProcess :=
  example_crl {["key_compromise"%string]} [entry_other].

(** An indirect CRL without a distribution point name, whose authority key
    identifier is not known to the registry: [_get_crl_authority_name]
    raises [AttributeError]. *)
Definition indirect_crl_of_unknown_key : CertificateList :=
  mkCRL example_ca (Some (mkIDP None false false None true false))
    (Some [1; 2; 3]) [].

Definition crl_of_unknown_key : CRLToProcess :=
  mkToProcess indirect_crl_of_unknown_key
    (match snd (_get_crl_authority_name indirect_crl_of_unknown_key
                  example_ca (fun _ => None) (mkErrs [] 0)) with
     | Raise LookupError => ReturnsNone false []
     | Raise e => RaisesUnhandled e
     | Return _ => ReturnsNone true []
     end).

End ValidateCrl.

(* ===================================================================== *)
(** * ltv/poe.py: registering data and reading a POE                      *)
(* ===================================================================== *)

Module PoeReads.
Import Poe.

Section Digest.

(** [digest_for_poe]: the SHA-256 digest of the data. *)
Variable digest_for_poe : list Z -> N.

(** [POEManager.register]; [data] is the byte string, after [dump()] for an
    ASN.1 value. *)
Definition register (now : Z) (self : POEManager) (data : list Z)
  (dt : option Z) : POEManager * KnownPOE :=
  let d := digest_for_poe data in
  register_by_digest now self d dt.

(** [POEManager.__getitem__]: the manager after the call and the time
    returned. *)
Definition __getitem__ (now : Z) (self : POEManager) (item : list Z)
  : POEManager * Z :=
  let '(self', poe) := register now self item None in
  (self', poe_time poe).

End Digest.

(** The older of two optional times. *)
Definition older (a b : option Z) : option Z :=
  match a, b with
  | Some x, Some y => Some (Z.min x y)
  | Some x, None => Some x
  | None, b => b
  end.

(** The value kept when [p] is registered over what is stored. *)
Definition kept (cur : option KnownPOE) (p : KnownPOE) : KnownPOE :=
  match cur with
  | Some c => if poe_time c <=? poe_time p then c else p
  | None => p
  end.

End PoeReads.

(* ===================================================================== *)
(** * validate.py: the steps of the path loop                             *)
(* ===================================================================== *)

Module ValidatePath.
Import Validate.

(** [SUPPORTED_EXTENSIONS] *)
Definition SUPPORTED_EXTENSIONS : gset string :=
  list_to_set
    ["authority_information_access"; "authority_key_identifier";
     "basic_constraints"; "crl_distribution_points"; "extended_key_usage";
     "freshest_crl"; "key_identifier"; "key_usage"; "ocsp_no_check";
     "certificate_policies"; "policy_mappings"; "policy_constraints";
     "inhibit_any_policy"; "name_constraints"; "subject_alt_name";
     "aa_controls"]%string.

Section Path.

(** The classes of the modules that are not part of this slice, as in
    [Validate.PathState], and the values the steps read from a certificate
    through asn1crypto. *)
Context {PolicySet SubtreeMap PolicyTreeRoot PublicKeyInfo Name : Type}.
Context `{EqDecision Name}.
Context {PolicyInformation PolicyMapping PolicyMap GeneralSubtrees
         DSAParams QualifiedPolicies : Type}.

Local Abbreviation State :=
  (@_PathValidationState SubtreeMap PolicyTreeRoot PublicKeyInfo Name).

Record PolicyConstraints := mkPolicyConstraints {
  require_explicit_policy : option Z;
  inhibit_policy_mapping : option Z
}.

Record NameConstraints := mkNameConstraints {
  nc_permitted_subtrees : option GeneralSubtrees;
  nc_excluded_subtrees : option GeneralSubtrees
}.

(** What the loop reads from an [x509.Certificate].  A sequence-valued
    extension ([certificate_policies_value], [policy_mappings_value]) is
    falsy when absent or empty; the other extension values are truthy when
    present. *)
Record Certificate := mkCert {
  issuer : Name;
  subject : Name;
  self_issued : bool;
  ca : bool;
  cert_max_path_length : option Z;
  public_key : PublicKeyInfo;
  signature_hash_algo : string;
  validity : Validity;
  key_usage_value : option (gset string);
  certificate_policies_value : option (list PolicyInformation);
  policy_mappings_value : option (list PolicyMapping);
  policy_constraints_value : option PolicyConstraints;
  inhibit_any_policy_value : option Z;
  name_constraints_value : option NameConstraints;
  aa_controls_value : option AAControls;
  critical_extensions : gset string
}.

(** The operations of the modules that are not part of this slice
    (policy_tree, name_trees, policy_decl, the public keys of asn1crypto,
    [validate_sig]) and of the validation context, as an interface. *)
Class PathOracles := {
  (* policy_tree *)
  update_policy_tree :
    list PolicyInformation -> PolicyTreeRoot -> Z -> bool ->
    option PolicyTreeRoot;
  enumerate_policy_mappings : list PolicyMapping -> PyResult exn PolicyMap;
  apply_policy_mapping :
    PolicyMap -> PolicyTreeRoot -> Z -> bool -> option PolicyTreeRoot;
  prune_unacceptable_policies :
    Z -> PolicyTreeRoot -> PolicySet -> option PolicyTreeRoot;
  is_any_policy_only : PolicySet -> bool;
  enum_policies : PolicyTreeRoot -> Z -> QualifiedPolicies;
  no_policies : QualifiedPolicies;
  init_policy_tree : PolicyTreeRoot;
  (* policy_decl *)
  intersect_policy_sets : PolicySet -> PolicySet -> PolicySet;
  default_params : @PKIXValidationParams PolicySet SubtreeMap;
  (* name_trees *)
  process_general_subtrees : GeneralSubtrees -> SubtreeMap;
  intersect_with : SubtreeMap -> SubtreeMap -> SubtreeMap;
  union_with : SubtreeMap -> SubtreeMap -> SubtreeMap;
  permitted_accept_cert : SubtreeMap -> Certificate -> bool;
  excluded_accept_cert : SubtreeMap -> Certificate -> bool;
  subtree_map_truthy : SubtreeMap -> bool;
  default_permitted_subtrees : SubtreeMap;
  default_excluded_subtrees : SubtreeMap;
  (* Public keys: the algorithm name, [hash_algo], the algorithm parameters
     ([None] when absent, which is falsy) and a copy of a key with other
     parameters. *)
  pk_algorithm : PublicKeyInfo -> string;
  pk_hash_algo : PublicKeyInfo -> option string;
  pk_parameters : PublicKeyInfo -> option DSAParams;
  pk_with_parameters : PublicKeyInfo -> DSAParams -> PublicKeyInfo;
  (* [validate_sig] for the signature of a certificate under a key. *)
  validate_sig : Certificate -> PublicKeyInfo -> validate_sig_outcome;
  (* The validation context: the whitelist, and how [_check_revocation] ends
     for the certificate at an index. *)
  is_whitelisted : Certificate -> bool;
  check_revocation : Z -> Certificate -> PyResult exn unit
}.

Context {oracles : PathOracles}.

Definition with_tree (s : State) (t : option PolicyTreeRoot) : State :=
  mkState t (explicit_policy s) (inhibit_any_policy s) (policy_mapping s)
    (st_max_path_length s) (st_max_aa_path_length s) (working_public_key s)
    (working_issuer_name s) (permitted_subtrees s) (excluded_subtrees s)
    (aa_controls_used s).

Definition with_counters (s : State) (ep iap pm : Z) : State :=
  mkState (valid_policy_tree s) ep iap pm
    (st_max_path_length s) (st_max_aa_path_length s) (working_public_key s)
    (working_issuer_name s) (permitted_subtrees s) (excluded_subtrees s)
    (aa_controls_used s).

Definition with_path_lengths (s : State) (mpl : Z) (maa : option Z) : State :=
  mkState (valid_policy_tree s) (explicit_policy s) (inhibit_any_policy s)
    (policy_mapping s) mpl maa (working_public_key s)
    (working_issuer_name s) (permitted_subtrees s) (excluded_subtrees s)
    (aa_controls_used s).

Definition with_working (s : State) (key : PublicKeyInfo) (name : Name)
  : State :=
  mkState (valid_policy_tree s) (explicit_policy s) (inhibit_any_policy s)
    (policy_mapping s) (st_max_path_length s) (st_max_aa_path_length s)
    key name (permitted_subtrees s) (excluded_subtrees s)
    (aa_controls_used s).

Definition with_subtrees (s : State) (p e : SubtreeMap) : State :=
  mkState (valid_policy_tree s) (explicit_policy s) (inhibit_any_policy s)
    (policy_mapping s) (st_max_path_length s) (st_max_aa_path_length s)
    (working_public_key s) (working_issuer_name s) p e
    (aa_controls_used s).

(** ** [_PathValidationState.update_policy_restrictions] *)

Definition decrement (x : Z) : Z := if bool_decide (x <> 0) then x - 1 else x.

Definition update_policy_restrictions (self : State) (cert : Certificate)
  : State :=
  (* Step 3 h *)
  let '(ep, pm, iap) :=
    if negb (self_issued cert)
    then (decrement (explicit_policy self), decrement (policy_mapping self),
          decrement (inhibit_any_policy self))
    else (explicit_policy self, policy_mapping self, inhibit_any_policy self) in
  (* Step 3 i *)
  let '(ep, pm) :=
    match policy_constraints_value cert with
    | Some policy_constraints =>
        (match require_explicit_policy policy_constraints with
         | Some r => Z.min ep r
         | None => ep
         end,
         match inhibit_policy_mapping policy_constraints with
         | Some i => Z.min pm i
         | None => pm
         end)
    | None => (ep, pm)
    end in
  (* Step 3 j *)
  let iap :=
    match inhibit_any_policy_value cert with
    | Some v => Z.min v iap
    | None => iap
    end in
  with_counters self ep iap pm.

(** ** [_PathValidationState.process_policies] *)

Definition process_policies (self : State) (index : Z)
  (certificate_policies : option (list PolicyInformation))
  (any_policy_uninhibited : bool) : PyResult exn State :=
  let tree :=
    match certificate_policies, valid_policy_tree self with
    | Some (p :: ps), Some t =>
        update_policy_tree (p :: ps) t index any_policy_uninhibited
    | None, _ => None
    | _, t => t
    end in
  match tree with
  | None =>
      if explicit_policy self <=? 0
      then Raise (PathValidationError
                    (OtherPathError "there is no valid set of policies"))
      else Return (with_tree self None)
  | Some t => Return (with_tree self (Some t))
  end.

(** ** [_PathValidationState.check_name_constraints] *)

Definition check_name_constraints (self : State) (cert : Certificate)
  : PyResult exn unit :=
  if negb (permitted_accept_cert (permitted_subtrees self) cert)
  then Raise (PathValidationError
                (OtherPathError "not all names are in the permitted namespace"))
  else if negb (excluded_accept_cert (excluded_subtrees self) cert)
  then Raise (PathValidationError
                (OtherPathError "some names are excluded from the namespace"))
  else Return tt.

(** ** [_PathValidationState.check_certificate_signature] *)

Definition check_certificate_signature (self : State) (cert : Certificate)
  (weak_hash_algos : gset string) : PyResult exn unit :=
  let hash_algo := signature_hash_algo cert in
  if bool_decide (hash_algo ∈ weak_hash_algos)
  then Raise (WeakAlgorithmError hash_algo)
  else
    match validate_sig cert (working_public_key self) with
    | SignatureValid => Return tt
    | PSSParameterMismatch =>
        Raise (PathValidationError
                 (OtherPathError "signature parameters do not match the key"))
    | InvalidSignature =>
        Raise (PathValidationError
                 (OtherPathError "signature could not be verified"))
    end.

(** ** [_prepare_next_step] *)

(** Step 3 b: the policy mappings of the certificate. *)
Definition map_policies (index : Z) (cert : Certificate) (state : State)
  : PyResult exn State :=
  match policy_mappings_value cert with
  | Some (m :: ms) =>
      match enumerate_policy_mappings (m :: ms) with
      | Raise e => Raise e
      | Return policy_map =>
          match valid_policy_tree state with
          | Some t =>
              Return (with_tree state
                        (apply_policy_mapping policy_map t index
                           (policy_mapping state >? 0)))
          | None => Return state
          end
      end
  | _ => Return state
  end.

(** Steps 3 c-f: the working issuer name and the working public key, which
    inherits the DSA parameters of the previous key when the certificate's
    key has none. *)
Definition next_working_key (cert : Certificate) (state : State)
  : PublicKeyInfo :=
  let copy_params :=
    if bool_decide (pk_algorithm (public_key cert) = "dsa"%string)
       && bool_decide (pk_hash_algo (public_key cert) = None)
    then
      if bool_decide (pk_algorithm (working_public_key state) = "dsa"%string)
      then pk_parameters (working_public_key state)
      else None
    else None in
  match copy_params with
  | Some params => pk_with_parameters (public_key cert) params
  | None => public_key cert
  end.

(** Step 3 g: the name constraints of the certificate. *)
Definition constrain_names (cert : Certificate) (state : State) : State :=
  match name_constraints_value cert with
  | Some nc_value =>
      let p :=
        match nc_permitted_subtrees nc_value with
        | Some g =>
            intersect_with (permitted_subtrees state)
              (process_general_subtrees g)
        | None => permitted_subtrees state
        end in
      let e :=
        match nc_excluded_subtrees nc_value with
        | Some g =>
            union_with (excluded_subtrees state) (process_general_subtrees g)
        | None => excluded_subtrees state
        end in
      with_subtrees state p e
  | None => state
  end.

(** Step 3 l: the path length counters; decrementing [None] raises
    [TypeError]. *)
Definition count_down (cert : Certificate) (state : State)
  : PyResult exn State :=
  if negb (self_issued cert) then
    if st_max_path_length state =? 0
    then Raise (PathValidationError
                  (OtherPathError "exceeds the maximum path length"))
    else
      match st_max_aa_path_length state with
      | Some max_aa =>
          if max_aa =? 0
          then Raise (PathValidationError
                        (OtherPathError
                           "exceeds the maximum path length for an AA certificate"))
          else Return (with_path_lengths state (st_max_path_length state - 1)
                         (Some (max_aa - 1)))
      | None => Raise TypeError
      end
  else Return state.

Definition _prepare_next_step (index : Z) (cert : Certificate) (state : State)
  : PyResult exn State :=
  match map_policies index cert state with
  | Raise e => Raise e
  | Return state =>
      let state :=
        with_working state (next_working_key cert state) (subject cert) in
      let state := constrain_names cert state in
      (* Steps 3 h-j *)
      let state := update_policy_restrictions state cert in
      (* Step 3 k *)
      if negb (ca cert)
      then Raise (PathValidationError (OtherPathError "is not a CA"))
      else
        match count_down cert state with
        | Raise e => Raise e
        | Return state =>
            (* Step 3 m *)
            let state :=
              match cert_max_path_length cert with
              | Some m =>
                  if m <? st_max_path_length state
                  then with_path_lengths state m (st_max_aa_path_length state)
                  else state
              | None => state
              end in
            (* Step 3 n *)
            match key_usage_value cert with
            | Some key_usage =>
                if bool_decide ("key_cert_sign"%string ∉ key_usage)
                then Raise (PathValidationError
                              (OtherPathError
                                 "is not allowed to sign certificates"))
                else Return state
            | None => Return state
            end
        end
  end.

(** ** [_finish_policy_processing]: the state after the call and the
    qualified policies returned. *)

Definition _finish_policy_processing (state : State) (cert : Certificate)
  (acceptable_policies : PolicySet) (path_length : Z)
  : State * PyResult exn QualifiedPolicies :=
  (* Step 4 a *)
  let ep := decrement (explicit_policy state) in
  (* Step 4 b *)
  let ep :=
    match policy_constraints_value cert with
    | Some pc =>
        if bool_decide (require_explicit_policy pc = Some 0) then 0 else ep
    | None => ep
    end in
  let state :=
    with_counters state ep (inhibit_any_policy state) (policy_mapping state) in
  (* Step 4 g *)
  let intersection :=
    match valid_policy_tree state with
    | None => None
    | Some t =>
        if is_any_policy_only acceptable_policies then Some t
        else prune_unacceptable_policies path_length t acceptable_policies
    end in
  match intersection with
  | Some i => (state, Return (enum_policies i path_length))
  | None =>
      if ep =? 0
      then (state,
            Raise (PathValidationError
                     (OtherPathError "there is no valid set of policies")))
      else (state, Return no_policies)
  end.

(** ** [intl_validate_path] *)

(** The body of the loop for the certificate at [index]. *)
Definition validate_cert (moment tolerance : Z) (weak_hash_algos : gset string)
  (path_length index : Z) (cert : Certificate) (state : State)
  : PyResult exn State :=
  (* Step 2 a 1 *)
  match check_certificate_signature state cert weak_hash_algos with
  | Raise e => Raise e
  | Return _ =>
  (* Step 2 a 2 *)
  match (if negb (is_whitelisted cert)
         then _check_validity (validity cert) moment tolerance
         else Return tt) with
  | Raise e => Raise e
  | Return _ =>
  (* Step 2 a 3 *)
  match check_revocation index cert with
  | Raise e => Raise e
  | Return _ =>
  (* Step 2 a 4 *)
  if bool_decide (issuer cert <> working_issuer_name state)
  then Raise (PathValidationError
                (OtherPathError "issuer name could not be matched"))
  else
  (* Steps 2 b-c *)
  match (if bool_decide (index = path_length) || negb (self_issued cert)
         then check_name_constraints state cert
         else Return tt) with
  | Raise e => Raise e
  | Return _ =>
  (* Steps 2 d *)
  match process_policies state index (certificate_policies_value cert)
          ((inhibit_any_policy state >? 0)
           || ((index <? path_length) && self_issued cert)) with
  | Raise e => Raise e
  | Return state =>
  (* Step 3 *)
  match (if index <? path_length
         then _prepare_next_step index cert state
         else Return state) with
  | Raise e => Raise e
  | Return state =>
  match _check_aa_controls (aa_controls_value cert) state index with
  | Raise e => Raise e
  | Return state =>
  (* Step 3 o / 4 f *)
  if bool_decide (critical_extensions cert ∖ SUPPORTED_EXTENSIONS <> ∅)
  then Raise (PathValidationError
                (OtherPathError "unsupported critical extension"))
  else Return state
  end end end end end end end.

(** The loop over [path[index]], [path[index + 1]], ...: the certificates
    recorded as validated in the context, in order, and the state at the
    end. *)
Fixpoint path_loop (moment tolerance : Z) (weak_hash_algos : gset string)
  (path_length index : Z) (certs : list Certificate) (state : State)
  : list Certificate * PyResult exn State :=
  match certs with
  | [] => ([], Return state)
  | cert :: rest =>
      match validate_cert moment tolerance weak_hash_algos path_length index
              cert state with
      | Raise e => ([], Raise e)
      | Return state =>
          let '(recorded, r) :=
            path_loop moment tolerance weak_hash_algos path_length (index + 1)
              rest state in
          (cert :: recorded, r)
      end
  end.

(** [anchor_cert] is the certificate of a [CertTrustAnchor]; [certs] are
    [path[1]], ..., [path[path_length]].  The result is the list of
    certificates recorded as validated, and the certificate returned with
    the qualified policies set on the path. *)
Definition intl_validate_path (moment tolerance : Z)
  (weak_hash_algos : gset string) (trust_anchor : TrustAnchor)
  (anchor_cert : option Certificate) (certs : list Certificate)
  (parameters : option PKIXValidationParams)
  : list Certificate
    * PyResult exn (option Certificate * option QualifiedPolicies) :=
  let path_length := Z.of_nat (length certs) in
  let '(state, acceptable_policies) :=
    init_pkix_validation_state intersect_policy_sets subtree_map_truthy
      default_permitted_subtrees default_excluded_subtrees intersect_with
      union_with init_policy_tree default_params path_length trust_anchor
      parameters in
  let '(recorded, r) :=
    path_loop moment tolerance weak_hash_algos path_length 1 certs state in
  let recorded := option_list anchor_cert ++ recorded in
  match r with
  | Raise e => (recorded, Raise e)
  | Return state =>
      match last (option_list anchor_cert ++ certs) with
      | Some cert =>
          match snd (_finish_policy_processing state cert acceptable_policies
                       path_length) with
          | Raise e => (recorded, Raise e)
          | Return qualified_policies =>
              (recorded, Return (Some cert, Some qualified_policies))
          end
      | None => (recorded, Return (None, None))
      end
  end.

(** ** Notions used in the properties of the loop *)

(** The issuer of each certificate is the subject of the one before, the
    first one being issued by [name]. *)
Fixpoint chained (name : Name) (certs : list Certificate) : Prop :=
  match certs with
  | [] => True
  | cert :: rest => issuer cert = name /\ chained (subject cert) rest
  end.

(** The certificates before the last one: those the loop runs
    [_prepare_next_step] for. *)
Definition intermediates (certs : list Certificate) : list Certificate :=
  removelast certs.

(** The number of certificates that are not self-issued. *)
Definition not_self_issued_count (certs : list Certificate) : Z :=
  Z.of_nat (length (filter (fun c => self_issued c = false) certs)).

(** The path length constraints of the certificates are not negative. *)
Definition path_lengths_sane (certs : list Certificate) : Prop :=
  Forall (fun c => forall m, cert_max_path_length c = Some m -> 0 <= m) certs.

(** What the path counter is after step 3 l-m. *)
Definition next_max_path_length (cert : Certificate) (max_path_length : Z) : Z :=
  let x := if self_issued cert then max_path_length else max_path_length - 1 in
  match cert_max_path_length cert with
  | Some m => Z.min m x
  | None => x
  end.

(** What a step of the loop that returns has checked on the certificate. *)
Definition checked (moment tolerance : Z) (weak_hash_algos : gset string)
  (index : Z) (cert : Certificate) : Prop :=
  (signature_hash_algo cert ∉ weak_hash_algos)
  /\ (is_whitelisted cert = false ->
      not_before (validity cert) - tolerance <= moment
      /\ moment <= not_after (validity cert) + tolerance)
  /\ check_revocation index cert = Return tt
  /\ critical_extensions cert ⊆ SUPPORTED_EXTENSIONS.

(** A run of the loop from [index] up to the last certificate of the path. *)
Definition complete_run (path_length index : Z) (certs : list Certificate)
  : Prop :=
  index + Z.of_nat (length certs) = path_length + 1.

(** The state and the acceptable policies after step 1. *)
Definition initial (path_length : Z) (trust_anchor : TrustAnchor)
  (parameters : option PKIXValidationParams) : State * PolicySet :=
  init_pkix_validation_state intersect_policy_sets subtree_map_truthy
    default_permitted_subtrees default_excluded_subtrees intersect_with
    union_with init_policy_tree default_params path_length trust_anchor
    parameters.

End Path.

(** ** Example data *)

(** An instance of the interface: policy sets, policy trees and name trees
    are lists of names and accept every certificate, a key is named by a
    string, and a signature is valid under the key named after the issuer of
    the certificate. *)
Definition example_oracles :
  @PathOracles (list string) (list string) (list string) string string string
    (string * string) (list (string * string)) (list string) Z (list string) :=
  {| update_policy_tree := fun policies _ _ _ => Some policies;
     enumerate_policy_mappings := fun mappings => Return mappings;
     apply_policy_mapping := fun _ tree _ _ => Some tree;
     prune_unacceptable_policies :=
       fun _ tree acceptable =>
         Some (filter (fun p => p ∈ acceptable) tree);
     is_any_policy_only :=
       fun acceptable => bool_decide (acceptable = ["any_policy"%string]);
     enum_policies := fun tree _ => tree;
     no_policies := [];
     init_policy_tree := ["any_policy"%string];
     intersect_policy_sets :=
       fun a b => filter (fun p => p ∈ b) a;
     default_params :=
       mkPKIXValidationParams ["any_policy"%string] false false false None None;
     process_general_subtrees := fun g => g;
     intersect_with := fun a b => filter (fun n => n ∈ b) a;
     union_with := fun a b => a ++ b;
     permitted_accept_cert := fun _ _ => true;
     excluded_accept_cert := fun _ _ => true;
     subtree_map_truthy :=
       fun m => match m with [] => false | _ => true end;
     default_permitted_subtrees := [];
     default_excluded_subtrees := [];
     pk_algorithm := fun _ => "rsa"%string;
     pk_hash_algo := fun _ => None;
     pk_parameters := fun _ => None;
     pk_with_parameters := fun key _ => key;
     validate_sig :=
       fun cert key =>
         if bool_decide (key = String.append (issuer cert) "-key")
         then SignatureValid else InvalidSignature;
     is_whitelisted := fun _ => false;
     check_revocation := fun _ _ => Return tt |}.

(** A trust anchor that allows one intermediate CA, a CA certificate it
    issued, and two end-entity certificates of that CA, one of them without
    a certificate policies extension. *)
Definition example_anchor : @TrustAnchor (list string) (list string) string string :=
  mkTrustAnchor (mkTrustQualifiers None (Some 1) (Some 1)) "Root-key" "Root".

Definition example_intermediate : @Certificate string string string (string * string) (list string) :=
  mkCert "Root" "CA 1" false true (Some 0) "CA 1-key" "sha256"
    (mkValidity 0 1000)
    (Some (list_to_set ["key_cert_sign"; "crl_sign"]%string))
    (Some ["policy-a"%string]) None None None None None
    (list_to_set ["basic_constraints"; "key_usage"]%string).

Definition example_leaf : @Certificate string string string (string * string) (list string) :=
  mkCert "CA 1" "leaf" false false None "leaf-key" "sha256"
    (mkValidity 0 1000)
    (Some (list_to_set ["digital_signature"%string]))
    (Some ["policy-a"%string]) None None None None None ∅.

Definition example_leaf_without_policies
  : @Certificate string string string (string * string) (list string) :=
  mkCert "CA 1" "leaf" false false None "leaf-key" "sha256"
    (mkValidity 0 1000)
    (Some (list_to_set ["digital_signature"%string]))
    None None None None None None ∅.

Definition example_weak_hash_algos : gset string :=
  list_to_set ["md2"; "md5"; "sha1"]%string.

(** Parameters of a caller that requires an explicit policy. *)
Definition example_explicit_params
  : @PKIXValidationParams (list string) (list string) :=
  mkPKIXValidationParams ["any_policy"%string] false true false None None.

End ValidatePath.

(* ===================================================================== *)
(** * validate.py: key usage and attribute certificate checks             *)
(* ===================================================================== *)

Module ValidateUsage.

(** What the usage checks read from an [x509.Certificate].  A key usage
    extension value is truthy when present; the extended key usage value is a
    sequence, falsy when absent or empty; [basic_constraints_ca] is
    [bool(bc['ca'])] when the basic constraints extension is present. *)
Record Certificate := mkCertificate {
  key_usage_value : option (gset string);
  extended_key_usage_value : option (list string);
  basic_constraints_ca : option bool
}.

Inductive usage_error :=
| NotValidForPurposes (purposes : gset string)
| NotValidForHostname
| NotValidForTLS
| IsCACertificate.

Inductive exn :=
| InvalidCertificateError (why : usage_error).

(** ** [validate_tls_hostname] *)

(** [is_whitelisted] is [validation_context.is_whitelisted(cert)] and
    [is_valid_domain_ip] is [cert.is_valid_domain_ip(hostname)]. *)
Definition validate_tls_hostname (is_whitelisted is_valid_domain_ip : bool)
  (cert : Certificate) : PyResult exn unit :=
  if is_whitelisted then Return tt
  else if negb is_valid_domain_ip
  then Raise (InvalidCertificateError NotValidForHostname)
  else
    let bad_key_usage :=
      match key_usage_value cert with
      | Some ku => bool_decide ("digital_signature"%string ∉ ku)
      | None => false
      end in
    let bad_ext_key_usage :=
      match extended_key_usage_value cert with
      | Some (u :: us) => bool_decide ("server_auth"%string ∉ u :: us)
      | _ => false
      end in
    if bad_key_usage || bad_ext_key_usage
    then Raise (InvalidCertificateError NotValidForTLS)
    else Return tt.

(** ** [validate_usage] *)

Definition validate_usage (is_whitelisted : bool) (cert : Certificate)
  (key_usage extended_key_usage : option (gset string))
  (extended_optional : bool) : PyResult exn unit :=
  if is_whitelisted then Return tt
  else
    let key_usage := default ∅ key_usage in
    let extended_key_usage := default ∅ extended_key_usage in
    let missing_key_usage :=
      match key_usage_value cert with
      | Some ku => key_usage ∖ ku
      | None => key_usage
      end in
    let missing_extended_key_usage :=
      match extended_optional, extended_key_usage_value cert with
      | false, None | false, Some [] => extended_key_usage
      | _, Some eku => extended_key_usage ∖ list_to_set eku
      | _, None => ∅
      end in
    if bool_decide (missing_key_usage <> ∅)
       || bool_decide (missing_extended_key_usage <> ∅)
    then Raise (InvalidCertificateError
                  (NotValidForPurposes
                     (missing_key_usage ∪ missing_extended_key_usage)))
    else Return tt.

(** ** [validate_aa_usage] *)

Definition validate_aa_usage (is_whitelisted : bool) (cert : Certificate)
  (extended_key_usage : option (gset string)) : PyResult exn unit :=
  if is_whitelisted then Return tt
  else
    (* Check key usage requirements *)
    match validate_usage is_whitelisted cert
            (Some {["digital_signature"%string]})
            (Some (default ∅ extended_key_usage))
            (match extended_key_usage with Some _ => true | None => false end)
    with
    | Raise e => Raise e
    | Return _ =>
        (* Check basic constraints: AA must not be a CA *)
        match basic_constraints_ca cert with
        | Some true => Raise (InvalidCertificateError IsCACertificate)
        | _ => Return tt
        end
    end.

(** ** Example data *)

Definition example_aa_cert : Certificate :=
  mkCertificate (Some (list_to_set ["digital_signature"; "crl_sign"]%string))
    (Some ["client_auth"; "email_protection"]%string) (Some false).

Definition example_tls_cert : Certificate :=
  mkCertificate (Some {["digital_signature"%string]})
    (Some ["server_auth"; "client_auth"]%string) None.

End ValidateUsage.

(* ===================================================================== *)
(** * validate.py: attribute certificates                                 *)
(* ===================================================================== *)

Module ValidateAC.

Inductive exn :=
| InvalidAttrCertificateError (msg : string)
| NotImplementedError
| AttributeError
| PathBuildingError (msg : string)
| OtherError (e : string).

(** ** [_validate_ac_targeting] *)

Section Targeting.

(** [x509.GeneralName] with its comparison, which raises [ValueError] for
    the name types asn1crypto cannot compare ([None] here), and its
    encoding. *)
Context {GeneralName : Type}.
Variable general_name_eq : GeneralName -> GeneralName -> option bool.
Variable dump : GeneralName -> list Z.

(** [Target]: a choice of [target_name], [target_group] and
    [target_cert]. *)
Inductive Target :=
| target_name (chosen : GeneralName)
| target_group (chosen : GeneralName)
| target_cert.

(** Modelled from the spec: context.ACTargetDescription is not part of this
    slice.  "the context must supply acceptable targets (validator names and
    group memberships)"; both are lists of general names. *)
Record ACTargetDescription := mkTargetDescription {
  validator_names : list GeneralName;
  group_memberships : list GeneralName
}.

(** [gen_name in valid_names] for a list: the elements are compared with
    [gen_name] in order, up to the first that is equal; [None] when a
    comparison raises [ValueError]. *)
Fixpoint contains (valid_names : list GeneralName) (gen_name : GeneralName)
  : option bool :=
  match valid_names with
  | [] => Some false
  | n :: rest =>
      match general_name_eq n gen_name with
      | None => None
      | Some true => Some true
      | Some false => contains rest gen_name
      end
  end.

(** The [try] statement that computes [target_ok]. *)
Definition target_ok (gen_name : GeneralName)
  (valid_names : list GeneralName) : bool :=
  match contains valid_names gen_name with
  | Some b => b
  | None => bool_decide (dump gen_name ∈ map dump valid_names)
  end.

(** The body of the inner loop: [target_ok] for a target of a supported
    kind, [false] for a target that is skipped. *)
Definition target_accepted (acceptable_targets : ACTargetDescription)
  (target : Target) : bool :=
  match target with
  | target_name gen_name =>
      target_ok gen_name (validator_names acceptable_targets)
  | target_group gen_name =>
      target_ok gen_name (group_memberships acceptable_targets)
  | target_cert => false
  end.

(** [for target in targets]: has the function returned? *)
Fixpoint targets_loop (acceptable_targets : ACTargetDescription)
  (targets : list Target) : bool :=
  match targets with
  | [] => false
  | target :: rest =>
      if target_accepted acceptable_targets target then true
      else targets_loop acceptable_targets rest
  end.

(** [for targets in target_info] *)
Fixpoint target_info_loop (acceptable_targets : ACTargetDescription)
  (target_info : list (list Target)) : bool :=
  match target_info with
  | [] => false
  | targets :: rest =>
      if targets_loop acceptable_targets targets then true
      else target_info_loop acceptable_targets rest
  end.

(** [target_info] is
    [get_ac_extension_value(attr_cert, 'target_information')]. *)
Definition _validate_ac_targeting (target_info : option (list (list Target)))
  (acceptable_targets : ACTargetDescription) : PyResult exn unit :=
  match target_info with
  | None => Return tt
  | Some target_info =>
      if target_info_loop acceptable_targets target_info then Return tt
      else Raise (InvalidAttrCertificateError "AC targeting check failed")
  end.

End Targeting.

(** ** [_process_aki_ext] *)

Section Names.

(** [x509.GeneralNames] and [x509.Name], with [extract_dir_name] of util,
    which raises when it finds no directory name. *)
Context {GeneralNames Name : Type} `{EqDecision Name}.
Variable extract_dir_name : GeneralNames -> PyResult exn Name.

(** [x509.AuthorityKeyIdentifier]; an absent field is [Void], and its
    [.native] is [None]. *)
Record AuthorityKeyIdentifier := mkAKI {
  key_identifier : option (list Z);
  authority_cert_issuer : option GeneralNames;
  authority_cert_serial_number : option Z
}.

(** [auth_ser] is a Python [int]; reading [auth_ser.sha256] raises
    [AttributeError]. *)
Definition _process_aki_ext (aki_ext : AuthorityKeyIdentifier)
  : PyResult exn (option (list Z) * option Name * option (list Z)) :=
  let aki := key_identifier aki_ext in
  match authority_cert_issuer aki_ext with
  | Some names =>
      match extract_dir_name names with
      | Raise e => Raise e
      | Return auth_iss_dirname =>
          match authority_cert_serial_number aki_ext with
          | Some auth_ser => Raise AttributeError
          | None => Return (aki, Some auth_iss_dirname, None)
          end
      end
  | None => Return (aki, None, None)
  end.

(** ** [check_ac_holder_match] *)

(** [cms.IssuerSerial], and [_parse_iss_serial]: the byte string
    [b'%s:%d' % (issuer_dirname.sha256, serial)]. *)
Record IssuerSerial := mkIssuerSerial {
  is_issuer : GeneralNames;
  is_serial : Z
}.

Variable name_sha256 : Name -> list Z.
Variable format_iss_serial : list Z -> Z -> list Z.

Definition _parse_iss_serial (iss_serial : IssuerSerial)
  : PyResult exn (list Z) :=
  match extract_dir_name (is_issuer iss_serial) with
  | Raise e => Raise e
  | Return issuer_dirname =>
      Return (format_iss_serial (name_sha256 issuer_dirname)
                (is_serial iss_serial))
  end.

Context {ObjectDigestInfo : Type}.

(** [cms.Holder] *)
Record Holder := mkHolder {
  base_certificate_id : option IssuerSerial;
  entity_name : option GeneralNames;
  object_digest_info : option ObjectDigestInfo
}.

(** What is read from the candidate holder certificate. *)
Record HolderCert := mkHolderCert {
  issuer_serial : list Z;
  subject : Name
}.

Definition check_ac_holder_match (holder_cert : HolderCert) (holder : Holder)
  : PyResult exn (gset string) :=
  let mismatches : gset string := ∅ in
  let after_id :=
    match base_certificate_id holder with
    | Some base_cert_id =>
        match _parse_iss_serial base_cert_id with
        | Raise e => Raise e
        | Return designated_iss_serial =>
            if bool_decide (designated_iss_serial <> issuer_serial holder_cert)
            then Return (mismatches ∪ {["base_certificate_id"%string]})
            else Return mismatches
        end
    | None => Return mismatches
    end in
  match after_id with
  | Raise e => Raise e
  | Return mismatches =>
      let after_name :=
        match entity_name holder with
        | Some entity_name =>
            match extract_dir_name entity_name with
            | Raise e => Raise e
            | Return holder_dn =>
                if bool_decide (holder_dn <> subject holder_cert)
                then Return (mismatches ∪ {["entity_name"%string]})
                else Return mismatches
            end
        | None => Return mismatches
        end in
      match after_name with
      | Raise e => Raise e
      | Return mismatches =>
          match object_digest_info holder with
          | Some _ => Raise NotImplementedError
          | None => Return mismatches
          end
      end
  end.

End Names.

(** ** [async_validate_ac]: the search for the path of the issuing AA *)

(** What a call inside a [try] statement of the loop does: it returns, or
    raises an exception of the class the [except] clause names, or raises
    another exception, which leaves the function. *)
Inductive call_outcome (A : Type) :=
| Returns (a : A)
| RaisesHandled (e : exn)
| RaisesOther (e : exn).
Arguments Returns {A} a.
Arguments RaisesHandled {A} e.
Arguments RaisesOther {A} e.

Section AASearch.

(** Candidate AA certificates and validation paths, with the calls of
    [validate_aa_usage] (handled: [InvalidAttrCertificateError]),
    [registry.async_build_paths] (handled: [PathBuildingError]) and
    [intl_validate_path] (handled: [ValidationError]). *)
Context {Certificate ValidationPath : Type}.
Variable validate_aa_usage : Certificate -> call_outcome unit.
Variable async_build_paths : Certificate -> call_outcome (list ValidationPath).
Variable intl_validate_path : ValidationPath -> call_outcome unit.

(** [for candidate_path in paths]: the path that validated, if one did, and
    the exceptions recorded, or the exception that leaves the loop. *)
Fixpoint paths_loop (paths : list ValidationPath) (exceptions : list exn)
  : PyResult exn (option ValidationPath * list exn) :=
  match paths with
  | [] => Return (None, exceptions)
  | candidate_path :: rest =>
      match intl_validate_path candidate_path with
      | Returns _ => Return (Some candidate_path, exceptions)
      | RaisesHandled e => paths_loop rest (exceptions ++ [e])
      | RaisesOther e => Raise e
      end
  end.

(** [for aa_candidate in aa_candidates]: the values of [aa_path] and
    [exceptions] after the loop, or the exception that leaves it. *)
Fixpoint candidates_loop (aa_candidates : list Certificate)
  (aa_path : option ValidationPath) (exceptions : list exn)
  : PyResult exn (option ValidationPath * list exn) :=
  match aa_candidates with
  | [] => Return (aa_path, exceptions)
  | aa_candidate :: rest =>
      match validate_aa_usage aa_candidate with
      | RaisesOther e => Raise e
      | RaisesHandled e => candidates_loop rest aa_path (exceptions ++ [e])
      | Returns _ =>
          match async_build_paths aa_candidate with
          | RaisesOther e => Raise e
          | RaisesHandled e =>
              candidates_loop rest aa_path (exceptions ++ [e])
          | Returns paths =>
              match paths_loop paths exceptions with
              | Raise e => Raise e
              | Return (Some candidate_path, exceptions) =>
                  candidates_loop rest (Some candidate_path) exceptions
              | Return (None, exceptions) =>
                  candidates_loop rest aa_path exceptions
              end
          end
      end
  end.

(** The loop and the statement after it: the path of the AA, or the
    exception raised. *)
Definition find_aa_path (aa_candidates : list Certificate)
  : PyResult exn ValidationPath :=
  match candidates_loop aa_candidates None [] with
  | Raise e => Raise e
  | Return (Some aa_path, _) => Return aa_path
  | Return (None, []) =>
      Raise (PathBuildingError
               "Could not find a suitable AA for the attribute certificate")
  | Return (None, e :: _) => Raise e
  end.

(** The first path of a candidate that validates, when the candidate passes
    the usage check and its paths can be built. *)
Definition first_valid_path (aa_candidate : Certificate)
  : option ValidationPath :=
  match validate_aa_usage aa_candidate, async_build_paths aa_candidate with
  | Returns _, Returns paths =>
      find (fun p => match intl_validate_path p with
                     | Returns _ => true
                     | _ => false
                     end) paths
  | _, _ => None
  end.

(** No call made for the candidates raises an exception that the loop does
    not handle. *)
Definition all_handled (aa_candidates : list Certificate) : Prop :=
  forall e, candidates_loop aa_candidates None [] <> Raise e.

End AASearch.

End ValidateAC.

(* ===================================================================== *)
(** * revinfo/validate_crl.py: the scope and the issuer of a CRL          *)
(* ===================================================================== *)

Module ValidateCrlScope.
Import ValidateCrl.

(** The decoded ([.native]) value of an issuing distribution point is
    modelled by the record itself. *)
#[global] Instance DistributionPointName_eq_dec :
  EqDecision DistributionPointName.
Proof. solve_decision. Defined.

#[global] Instance IssuingDistributionPoint_eq_dec :
  EqDecision IssuingDistributionPoint.
Proof. solve_decision. Defined.

(** ** [_find_matching_delta_crl] *)

(** The result is [None] when the loop ends without a [return]. *)
Fixpoint _find_matching_delta_crl (delta_lists : list CertificateList)
  (crl_authority_name : Name) (crl_idp : option IssuingDistributionPoint)
  (parent_crl_aki : option (list Z)) : option CertificateList :=
  match delta_lists with
  | [] => None
  | candidate_delta_cl :: rest =>
      let next :=
        _find_matching_delta_crl rest crl_authority_name crl_idp
          parent_crl_aki in
      (* Step c 1 *)
      if bool_decide (crl_issuer_name candidate_delta_cl <> crl_authority_name)
      then next
      else
        (* Step c 2 *)
        let delta_crl_idp :=
          issuing_distribution_point_value candidate_delta_cl in
        match crl_idp, delta_crl_idp with
        | None, Some _ | Some _, None => next
        | _, _ =>
            let differs :=
              match crl_idp, delta_crl_idp with
              | Some idp, Some delta_idp => bool_decide (idp <> delta_idp)
              | _, _ => false
              end in
            if differs then next
            (* Step c 3 *)
            else if bool_decide
                      (parent_crl_aki
                       <> authority_key_identifier candidate_delta_cl)
            then next
            else Some candidate_delta_cl
        end
  end.

(** ** [_handle_crl_idp_ext_constraints] and
       [_handle_attr_cert_crl_idp_ext_constraints] *)

(** What the scope checks read from the certificate that is checked: whether
    it is a public-key certificate, its CRL distribution points, the name of
    its issuer ([get_issuer_dn]) and, for a public-key certificate, the [ca]
    flag of its basic constraints when it has them. *)
Record CheckedCert := mkCheckedCert {
  is_pkc : bool;
  crl_dps : option (list DistributionPoint);
  issuer_dn : Name;
  basic_constraints_ca : option bool
}.

Definition _handle_crl_idp_ext_constraints (cert : CheckedCert)
  (crl_issuer : Certificate) (crl_idp : IssuingDistributionPoint)
  (crl_authority_name : Name) (errs : _CRLErrs)
  : _CRLErrs * PyResult exn bool :=
  match _match_dps_idp_names crl_idp (crl_dps cert) crl_issuer
          crl_authority_name with
  | Raise e => (errs, Raise e)
  | Return match_ =>
      if negb match_ then
        (add_issuer_failure
           (add_failure errs
              "The CRL issuing distribution point extension does not share any names with the certificate CRL distribution point extension"),
         Return false)
      (* Step b 2 ii *)
      else if only_contains_user_certs crl_idp
              && match basic_constraints_ca cert with
                 | Some ca => ca
                 | None => false
                 end
      then (add_failure errs
              "CRL only contains end-entity certificates and certificate is a CA certificate",
            Return false)
      (* Step b 2 iii *)
      else if only_contains_ca_certs crl_idp
              && match basic_constraints_ca cert with
                 | Some ca => negb ca
                 | None => true
                 end
      then (add_failure errs
              "CRL only contains CA certificates and certificate is an end-entity certificate",
            Return false)
      (* Step b 2 iv *)
      else if only_contains_attribute_certs crl_idp
      then (add_failure errs "CRL only contains attribute certificates",
            Return false)
      else (errs, Return true)
  end.

Definition _handle_attr_cert_crl_idp_ext_constraints
  (crl_dps : option (list DistributionPoint)) (crl_issuer : Certificate)
  (crl_idp : IssuingDistributionPoint) (crl_authority_name : Name)
  (errs : _CRLErrs) : _CRLErrs * PyResult exn bool :=
  match _match_dps_idp_names crl_idp crl_dps crl_issuer
          crl_authority_name with
  | Raise e => (errs, Raise e)
  | Return match_ =>
      if negb match_ then
        (add_issuer_failure
           (add_failure errs
              "The CRL issuing distribution point extension does not share any names with the attribute certificate's CRL distribution point extension"),
         Return false)
      (* Step b 2 ii *)
      else if only_contains_user_certs crl_idp || only_contains_ca_certs crl_idp
      then (add_failure errs
              "CRL only contains public-key certificates, but certificate is an attribute certificate",
            Return false)
      else (errs, Return true)
  end.

(** ** [_get_crl_scope_assuming_authority] *)

(** The loop over the distribution points of the certificate: the values of
    [has_dp_crl_issuer] and [dp_match] after it. *)
Fixpoint dp_crl_issuer_loop (crl_issuer_general_name : GeneralName)
  (dps : list DistributionPoint) (has_dp_crl_issuer dp_match : bool)
  : PyResult exn (bool * bool) :=
  match dps with
  | [] => Return (has_dp_crl_issuer, dp_match)
  | dp :: rest =>
      match dp_crl_issuer dp with
      | [] =>
          dp_crl_issuer_loop crl_issuer_general_name rest has_dp_crl_issuer
            dp_match
      | names =>
          match name_in crl_issuer_general_name names with
          | Raise e => Raise e
          | Return found =>
              dp_crl_issuer_loop crl_issuer_general_name rest true
                (if found then true else dp_match)
          end
      end
  end.

Section Scope.

(** [KNOWN_CRL_EXTENSIONS] of revinfo/constants.py. *)
Variable KNOWN_CRL_EXTENSIONS : gset string.

(** [crl_critical_extensions] is [certificate_list.critical_extensions]. *)
Definition _get_crl_scope_assuming_authority (crl_issuer : Certificate)
  (cert : CheckedCert) (certificate_list : CertificateList)
  (crl_critical_extensions : gset string) (is_indirect : bool)
  (errs : _CRLErrs) : _CRLErrs * PyResult exn (option (gset string)) :=
  let crl_idp := issuing_distribution_point_value certificate_list in
  (* Step b 1 *)
  match (match crl_dps cert with
         | Some (dp :: dps) =>
             dp_crl_issuer_loop (directory_name (subject crl_issuer))
               (dp :: dps) false false
         | _ => Return (false, false)
         end) with
  | Raise e => (errs, Raise e)
  | Return (has_dp_crl_issuer, dp_match) =>
  let crl_authority_name := subject crl_issuer in
  let cert_issuer_name := issuer_dn cert in
  let same_issuer := bool_decide (crl_authority_name = cert_issuer_name) in
  let indirect_match := has_dp_crl_issuer && dp_match && is_indirect in
  let missing_idp :=
    has_dp_crl_issuer && (negb dp_match || negb is_indirect) in
  let indirect_crl_issuer :=
    bool_decide (issuer crl_issuer = cert_issuer_name) in
  if (negb same_issuer && negb indirect_match && negb indirect_crl_issuer)
     || missing_idp
  then (add_issuer_failure errs, Return None)
  else
    (* Step b 2 *)
    match (match crl_idp with
           | Some idp =>
               if is_pkc cert
               then _handle_crl_idp_ext_constraints cert crl_issuer idp
                      crl_authority_name errs
               else _handle_attr_cert_crl_idp_ext_constraints (crl_dps cert)
                      crl_issuer idp crl_authority_name errs
           | None => (errs, Return true)
           end) with
    | (errs, Raise e) => (errs, Raise e)
    | (errs, Return crl_idp_match) =>
    if negb crl_idp_match then (errs, Return None)
    else
      (* Step d *)
      let idp_reasons :=
        match crl_idp with
        | Some idp => only_some_reasons idp
        | None => None
        end in
      let reason_keys :=
        match idp_reasons with
        | Some reasons => if bool_decide (reasons <> ∅) then Some reasons
                          else None
        | None => None
        end in
      let interim_reasons :=
        match reason_keys with
        | None => VALID_REVOCATION_REASONS
        | Some keys => keys
        end in
      (* Step e *)
      if bool_decide (crl_critical_extensions ∖ KNOWN_CRL_EXTENSIONS <> ∅)
      then (add_failure errs
              "One or more unrecognized critical extensions are present in the CRL",
            Return None)
      else (errs, Return (Some interim_reasons))
    end
  end.

End Scope.

(** ** [_find_candidate_crl_paths] *)

(** [_CRLIssuerSearchErrs]; an explicit error is recorded by its message. *)
Record _CRLIssuerSearchErrs := mkSearchErrs {
  candidate_issuers : Z;
  candidates_skipped : Z;
  signatures_failed : Z;
  unauthorized_certs : Z;
  path_building_failures : Z;
  explicit_errors : list string
}.

(** The exceptions of the search: [CRLNoMatchesError],
    [CRLValidationError], and those that [_find_crl_issuer] lets through. *)
Inductive search_exc :=
| SearchNoMatches
| SearchValidationError (msg : string)
| SearchLookupError
| SearchOtherError (e : string).

Definition get_exc (self : _CRLIssuerSearchErrs) : search_exc :=
  let plural := candidate_issuers self >? 1 in
  if (candidate_issuers self =? 0)
     || (candidates_skipped self =? candidate_issuers self)
  then SearchNoMatches
  else if signatures_failed self =? candidate_issuers self
  then SearchValidationError "CRL signature could not be verified"
  else if unauthorized_certs self =? candidate_issuers self
  then SearchValidationError
         (if plural
          then "The CRL issuers that were identified are not authorized to sign CRLs"
          else "The CRL issuer that was identified is not authorized to sign CRLs")
  else if path_building_failures self =? candidate_issuers self
  then SearchValidationError
         (if plural
          then "The chain of trust for the CRL issuers that were identified could not be determined"
          else "The chain of trust for the CRL issuer that was identified could not be determined")
  else
    match explicit_errors self with
    | [e] => SearchValidationError e
    | es =>
        SearchValidationError
          (String.append "Unable to determine CRL trust status. "
             (String.concat "; " es))
    end.

Section CandidatePaths.

(** A candidate CRL issuer certificate, and validation paths. *)
Context {ValidationPath : Type}.

Record Candidate := mkCandidate {
  cand_subject : Name;
  cand_issuer : Name;
  cand_sha256 : list Z;
  cand_key_usage_value : option (gset string);
  cand_public_key : list Z
}.

(** [_verify_crl_signature] for the CRL under a key: does it return, or
    raise [CRLValidationError]? *)
Variable crl_signature_verifies : list Z -> bool.
(** [proc_state.check_path_verif_recursion]: a path, or [None]. *)
Variable check_path_verif_recursion : Candidate -> option ValidationPath.
(** [cert_path.truncate_to_issuer_and_append]: a path, or [None] when it
    raises [LookupError]. *)
Variable truncate_to_issuer_and_append : Candidate -> option ValidationPath.

Definition skipped (errs : _CRLIssuerSearchErrs) : _CRLIssuerSearchErrs :=
  mkSearchErrs (candidate_issuers errs) (candidates_skipped errs + 1)
    (signatures_failed errs) (unauthorized_certs errs)
    (path_building_failures errs) (explicit_errors errs).

Definition unauthorized (errs : _CRLIssuerSearchErrs)
  : _CRLIssuerSearchErrs :=
  mkSearchErrs (candidate_issuers errs) (candidates_skipped errs)
    (signatures_failed errs) (unauthorized_certs errs + 1)
    (path_building_failures errs) (explicit_errors errs).

Definition signature_failed (errs : _CRLIssuerSearchErrs)
  : _CRLIssuerSearchErrs :=
  mkSearchErrs (candidate_issuers errs) (candidates_skipped errs)
    (signatures_failed errs + 1) (unauthorized_certs errs)
    (path_building_failures errs) (explicit_errors errs).

Definition path_building_failed (errs : _CRLIssuerSearchErrs)
  : _CRLIssuerSearchErrs :=
  mkSearchErrs (candidate_issuers errs) (candidates_skipped errs)
    (signatures_failed errs) (unauthorized_certs errs)
    (path_building_failures errs + 1) (explicit_errors errs).

(** The loop over the candidate CRL issuers. *)
Fixpoint candidate_paths_loop (cert_issuer_name : Name)
  (cert_sha256 : list Z) (is_indirect : bool)
  (candidate_crl_issuers : list Candidate)
  (candidate_paths : list ValidationPath) (errs : _CRLIssuerSearchErrs)
  : list ValidationPath * _CRLIssuerSearchErrs :=
  match candidate_crl_issuers with
  | [] => (candidate_paths, errs)
  | candidate_crl_issuer :: rest =>
      let continue_ :=
        candidate_paths_loop cert_issuer_name cert_sha256 is_indirect rest in
      let direct_issuer :=
        bool_decide (cand_subject candidate_crl_issuer = cert_issuer_name) in
      let indirect_issuer :=
        bool_decide (cand_issuer candidate_crl_issuer = cert_issuer_name)
        && bool_decide (cand_sha256 candidate_crl_issuer <> cert_sha256) in
      if negb direct_issuer && negb indirect_issuer && negb is_indirect
      then continue_ candidate_paths (skipped errs)
      else
        let bad_key_usage :=
          match cand_key_usage_value candidate_crl_issuer with
          | Some key_usage => bool_decide ("crl_sign"%string ∉ key_usage)
          | None => false
          end in
        if bad_key_usage
        then continue_ candidate_paths (unauthorized errs)
        else if negb (crl_signature_verifies
                        (cand_public_key candidate_crl_issuer))
        then continue_ candidate_paths (signature_failed errs)
        else
          match check_path_verif_recursion candidate_crl_issuer with
          | Some cand_path =>
              continue_ (candidate_paths ++ [cand_path]) errs
          | None =>
              match truncate_to_issuer_and_append candidate_crl_issuer with
              | Some cand_path =>
                  continue_ (candidate_paths ++ [cand_path]) errs
              | None => continue_ candidate_paths (path_building_failed errs)
              end
          end
  end.

(** [candidate_crl_issuers] is what [_find_candidate_crl_issuer_certs]
    returns. *)
Definition _find_candidate_crl_paths (cert_issuer_name : Name)
  (cert_sha256 : list Z) (is_indirect : bool)
  (candidate_crl_issuers : list Candidate)
  : list ValidationPath * _CRLIssuerSearchErrs :=
  let errs :=
    mkSearchErrs (Z.of_nat (length candidate_crl_issuers)) 0 0 0 0 [] in
  candidate_paths_loop cert_issuer_name cert_sha256 is_indirect
    candidate_crl_issuers [] errs.

(** ** [_find_crl_issuer] *)

(** [path.last], and [_validate_crl_issuer_path] for a path: it returns, or
    raises [CRLValidationError], or raises another exception. *)
Variable path_last : ValidationPath -> Candidate.

Inductive path_validation :=
| PathValid
| PathInvalid (msg : string)
| PathOtherError (e : string).

Variable _validate_crl_issuer_path : ValidationPath -> path_validation.

Definition with_explicit_error (errs : _CRLIssuerSearchErrs) (e : string)
  : _CRLIssuerSearchErrs :=
  mkSearchErrs (candidate_issuers errs) (candidates_skipped errs)
    (signatures_failed errs) (unauthorized_certs errs)
    (path_building_failures errs) (explicit_errors errs ++ [e]).

(** The loop over the candidate paths, and the [raise] after it. *)
Fixpoint crl_issuer_loop (candidate_paths : list ValidationPath)
  (errs : _CRLIssuerSearchErrs) : PyResult search_exc ValidationPath :=
  match candidate_paths with
  | [] => Raise (get_exc errs)
  | candidate_crl_issuer_path :: rest =>
      let candidate_crl_issuer := path_last candidate_crl_issuer_path in
      match check_path_verif_recursion candidate_crl_issuer with
      | Some _ => Return candidate_crl_issuer_path
      | None =>
          (* Step f *)
          match truncate_to_issuer_and_append candidate_crl_issuer with
          | None => Raise SearchLookupError
          | Some candidate_crl_issuer_path =>
              match _validate_crl_issuer_path candidate_crl_issuer_path with
              | PathValid => Return candidate_crl_issuer_path
              | PathInvalid e => crl_issuer_loop rest (with_explicit_error errs e)
              | PathOtherError e => Raise (SearchOtherError e)
              end
          end
      end
  end.

Definition _find_crl_issuer (cert_issuer_name : Name) (cert_sha256 : list Z)
  (is_indirect : bool) (candidate_crl_issuers : list Candidate)
  : PyResult search_exc ValidationPath :=
  let '(candidate_paths, errs) :=
    _find_candidate_crl_paths cert_issuer_name cert_sha256 is_indirect
      candidate_crl_issuers in
  crl_issuer_loop candidate_paths errs.

(** A candidate that has nothing to do with the issuer of the
    certificate. *)
Definition unrelated (cert_issuer_name : Name) (cert_sha256 : list Z)
  (c : Candidate) : Prop :=
  cand_subject c <> cert_issuer_name
  /\ ~ (cand_issuer c = cert_issuer_name /\ cand_sha256 c <> cert_sha256).

(** A candidate the loop can use, and the path it gets. *)
Definition usable (cert_issuer_name : Name) (cert_sha256 : list Z)
  (is_indirect : bool) (c : Candidate) : Prop :=
  (cand_subject c = cert_issuer_name
   \/ (cand_issuer c = cert_issuer_name /\ cand_sha256 c <> cert_sha256)
   \/ is_indirect = true)
  /\ (forall key_usage, cand_key_usage_value c = Some key_usage ->
        "crl_sign"%string ∈ key_usage)
  /\ crl_signature_verifies (cand_public_key c) = true.

Definition path_of (c : Candidate) : option ValidationPath :=
  match check_path_verif_recursion c with
  | Some p => Some p
  | None => truncate_to_issuer_and_append c
  end.

End CandidatePaths.

(** ** Notions used in the properties *)

(** The names a distribution point of a certificate offers for matching,
    and whether it has any. *)
Definition dp_names (crl_issuer : Certificate) (dp : DistributionPoint)
  : list GeneralName :=
  match dp_distribution_point dp with
  | Some (full_name names) => names
  | Some (name_relative_to_crl_issuer rdn) =>
      [extended_issuer_name (subject crl_issuer) rdn]
  | None => dp_crl_issuer dp
  end.

Definition dp_is_named (dp : DistributionPoint) : Prop :=
  dp_distribution_point dp <> None \/ dp_crl_issuer dp <> [].

(** A delta CRL that matches a complete CRL. *)
Definition delta_matches (crl_authority_name : Name)
  (crl_idp : option IssuingDistributionPoint)
  (parent_crl_aki : option (list Z)) (delta : CertificateList) : Prop :=
  crl_issuer_name delta = crl_authority_name
  /\ issuing_distribution_point_value delta = crl_idp
  /\ authority_key_identifier delta = parent_crl_aki.

End ValidateCrlScope.

(* ===================================================================== *)
(** * Properties of ltv/poe.py                                            *)
(* ===================================================================== *)

Module PoeFacts.
Import Poe.

Lemma min_times_snoc (ts : list Z) (t : Z) :
  min_times (ts ++ [t]) =
  Some (match min_times ts with Some m => Z.min m t | None => t end).
Proof.
  destruct ts as [|t0 ts]; [reflexivity|].
  simpl. by rewrite fold_left_app.
Qed.

Lemma register_known_poe_returns (self : POEManager) (p : KnownPOE) :
  poe_time (snd (register_known_poe self p)) =
  oldest (stored_time self (digest p)) (poe_time p).
Proof.
  unfold register_known_poe, stored_time, oldest.
  destruct (_poes self !! digest p) as [cur|] eqn:E; simpl; [|done].
  destruct (Z.leb_spec (poe_time cur) (poe_time p)); simpl; lia.
Qed.

Lemma register_known_poe_stores_same (self : POEManager) (p : KnownPOE) :
  stored_time (fst (register_known_poe self p)) (digest p) =
  Some (oldest (stored_time self (digest p)) (poe_time p)).
Proof.
  unfold register_known_poe, stored_time, oldest.
  destruct (_poes self !! digest p) as [cur|] eqn:E; simpl.
  - destruct (Z.leb_spec (poe_time cur) (poe_time p)); simpl.
    + rewrite E. simpl. f_equal. lia.
    + rewrite lookup_insert_eq. simpl. f_equal. lia.
  - by rewrite lookup_insert_eq.
Qed.

Lemma register_known_poe_stores_other (self : POEManager) (p : KnownPOE) (d : N) :
  digest p <> d ->
  stored_time (fst (register_known_poe self p)) d = stored_time self d.
Proof.
  intros Hne. unfold register_known_poe, stored_time.
  destruct (_poes self !! digest p) as [cur|] eqn:E; simpl.
  - destruct (poe_time cur <=? poe_time p); simpl; [done|].
    by rewrite lookup_insert_ne.
  - by rewrite lookup_insert_ne.
Qed.

Lemma register_all_cons (self : POEManager) (p : KnownPOE) (ps : list KnownPOE) :
  register_all self (p :: ps) =
  (fst (register_all (fst (register_known_poe self p)) ps),
   snd (register_known_poe self p)
     :: snd (register_all (fst (register_known_poe self p)) ps)).
Proof.
  simpl. destruct (register_known_poe self p) as [s1 r]. simpl.
  by destruct (register_all s1 ps).
Qed.

Lemma register_all_app_fst (self : POEManager) (ps qs : list KnownPOE) :
  fst (register_all self (ps ++ qs)) =
  fst (register_all (fst (register_all self ps)) qs).
Proof.
  revert self. induction ps as [|p ps IH]; intros self; [done|].
  rewrite <- app_comm_cons, !register_all_cons. simpl. apply IH.
Qed.

Lemma register_all_returns_at (self : POEManager) (pre post : list KnownPOE)
  (p : KnownPOE) :
  snd (register_all self (pre ++ p :: post)) !! length pre =
  Some (snd (register_known_poe (fst (register_all self pre)) p)).
Proof.
  revert self. induction pre as [|q pre IH]; intros self.
  - simpl app. by rewrite register_all_cons.
  - rewrite <- app_comm_cons, !register_all_cons. simpl. apply IH.
Qed.

Lemma register_all_stored (self : POEManager) (ps : list KnownPOE) (d : N) :
  stored_time (fst (register_all self ps)) d =
  min_times (prior_times self d ++ supplied_times d ps).
Proof.
  revert self. induction ps as [|p ps IH]; intros self.
  - unfold prior_times, supplied_times. simpl.
    by destruct (stored_time self d).
  - rewrite register_all_cons. simpl fst. rewrite IH.
    unfold prior_times, supplied_times.
    destruct (decide (digest p = d)) as [<-|Hne].
    + rewrite register_known_poe_stores_same, filter_cons_True by done.
      unfold oldest. by destruct (stored_time self (digest p)).
    + by rewrite register_known_poe_stores_other, filter_cons_False.
Qed.

Lemma supplied_times_snoc (d : N) (ps : list KnownPOE) (p : KnownPOE) :
  digest p = d ->
  supplied_times d (ps ++ [p]) = supplied_times d ps ++ [poe_time p].
Proof.
  intros Hd. unfold supplied_times.
  rewrite filter_app, filter_cons_True, filter_nil by done.
  by rewrite map_app.
Qed.

(** C6.  For every run of [register_known_poe] calls on a manager and every
    digest [d]: the time stored for [d] after the run is the minimum of the
    times supplied for [d] (together with the time the manager held for [d]
    before the run, if any; for a fresh manager there is none), and each call
    returns a POE whose time is the oldest one available for its digest at
    that point, which is also the time stored right after the call. *)
Theorem register_known_poe_keeps_minimum
  (self : POEManager) (pre post : list KnownPOE) (p : KnownPOE) (d : N)
  (override : option Z) :
  stored_time (fst (register_all self pre)) d =
    min_times (prior_times self d ++ supplied_times d pre)
  /\ stored_time (fst (register_all (init override) pre)) d =
    min_times (supplied_times d pre)
  /\ exists r,
      snd (register_all self (pre ++ p :: post)) !! length pre = Some r
      /\ Some (poe_time r) =
           min_times (prior_times self (digest p)
                        ++ supplied_times (digest p) (pre ++ [p]))
      /\ Some (poe_time r) =
           stored_time (fst (register_all self (pre ++ [p]))) (digest p).
Proof.
  split; [apply register_all_stored|]. split.
  { rewrite register_all_stored. unfold prior_times, stored_time, init.
    simpl. by rewrite lookup_empty. }
  exists (snd (register_known_poe (fst (register_all self pre)) p)).
  split; [apply register_all_returns_at|].
  rewrite register_known_poe_returns, register_all_stored.
  split.
  - rewrite supplied_times_snoc, app_assoc, min_times_snoc by done.
    reflexivity.
  - rewrite register_all_app_fst.
    change (register_all (fst (register_all self pre)) [p])
      with (let '(s1, r) := register_known_poe (fst (register_all self pre)) p in
            (s1, [r])).
    destruct (register_known_poe (fst (register_all self pre)) p) as [s1 r] eqn:E.
    simpl fst.
    replace s1 with (fst (register_known_poe (fst (register_all self pre)) p))
      by (by rewrite E).
    by rewrite register_known_poe_stores_same, register_all_stored.
Qed.

(** *** Merging a manager into itself *)

Lemma poes_wf_register (self : POEManager) (p : KnownPOE) :
  poes_wf (_poes self) -> poes_wf (_poes (fst (register_known_poe self p))).
Proof.
  intros Hwf. unfold register_known_poe.
  destruct (_poes self !! digest p) as [cur|] eqn:E.
  - destruct (poe_time cur <=? poe_time p); simpl; [done|].
    intros d q. rewrite lookup_insert. case_decide; [congruence|]. apply Hwf.
  - simpl. intros d q. rewrite lookup_insert. case_decide; [congruence|].
    apply Hwf.
Qed.

Lemma poes_wf_register_all (self : POEManager) (ps : list KnownPOE) :
  poes_wf (_poes self) -> poes_wf (_poes (fst (register_all self ps))).
Proof.
  revert self. induction ps as [|p ps IH]; intros self Hwf; [done|].
  rewrite register_all_cons. simpl. by apply IH, poes_wf_register.
Qed.

Lemma poes_wf_init (o : option Z) : poes_wf (_poes (init o)).
Proof. intros d p. simpl. by rewrite lookup_empty. Qed.

Lemma values_lookup_wf (m : POEManager) (pos : nat) (poe : KnownPOE) :
  poes_wf (_poes m) ->
  values m !! pos = Some poe -> _poes m !! digest poe = Some poe.
Proof.
  intros Hwf Hv. unfold values in Hv.
  apply list_lookup_fmap_Some_1 in Hv as ([k v] & -> & Hl).
  apply list_elem_of_lookup_2, elem_of_map_to_list in Hl.
  simpl. by rewrite (Hwf _ _ Hl).
Qed.

Lemma register_known_poe_present (self : POEManager) (p : KnownPOE) :
  _poes self !! digest p = Some p -> register_known_poe self p = (self, p).
Proof.
  intros E. unfold register_known_poe. rewrite E.
  by rewrite Z.leb_refl.
Qed.

Lemma ior_loop_self (k used pos r : nat) (h : store) (m : POEManager) :
  h !! r = Some m -> poes_wf (_poes m) -> size (_poes m) = used ->
  ior_loop k used pos r r h = (h, Return tt).
Proof.
  intros Hr Hwf Hsz. revert pos.
  induction k as [|k IH]; intros pos; simpl; rewrite Hr, Hsz, Nat.eqb_refl;
    simpl; [done|].
  destruct (values m !! pos) as [poe|] eqn:Hv; [|done].
  rewrite (register_known_poe_present m poe)
    by (by apply (values_lookup_wf m pos)).
  simpl. rewrite insert_id by done. apply IH.
Qed.

(** C5.  What [pm |= pm] does, for every manager object [pm] of the store
    whose values are stored under their digests: the loop of [__ior__]
    leaves the store as it was, the method returns [None], and the statement
    binds the merged-into variable to [None]; the variable referred to the
    mapping of the manager before, and refers to no mapping afterwards. *)
Theorem ior_self_rebinds_variable_to_None (h : store) (r : nat) (m : POEManager) :
  h !! r = Some m -> poes_wf (_poes m) ->
  mapping_of (PyManager r) h = Some (_poes m)
  /\ ior_stmt (PyManager r) (PyManager r) h = (h, Return PyNone)
  /\ mapping_of PyNone h <> mapping_of (PyManager r) h.
Proof.
  intros Hr Hwf. split; [|split].
  - simpl. by rewrite Hr.
  - simpl. rewrite Hr. by rewrite (ior_loop_self _ _ _ _ _ m).
  - simpl. by rewrite Hr.
Qed.

Lemma ior_self_rebinds_variable_to_None_witness :
  mapping_of (PyManager 0) {[0%nat := two_poes]} = Some (_poes two_poes)
  /\ ior_stmt (PyManager 0) (PyManager 0) {[0%nat := two_poes]}
     = ({[0%nat := two_poes]}, Return PyNone)
  /\ mapping_of PyNone {[0%nat := two_poes]}
     <> mapping_of (PyManager 0) {[0%nat := two_poes]}.
Proof.
  apply (ior_self_rebinds_variable_to_None {[0%nat := two_poes]} 0 two_poes).
  - apply lookup_singleton_eq.
  - apply poes_wf_register_all, poes_wf_init.
Defined.

End PoeFacts.

(* ===================================================================== *)
(** * Properties of validate.py                                           *)
(* ===================================================================== *)

Module ValidateFacts.
Import Validate.

(** ** Step 1 *)

Section Init.
Context {PolicySet SubtreeMap PolicyTreeRoot PublicKeyInfo Name : Type}.
Variable intersect_policy_sets : PolicySet -> PolicySet -> PolicySet.
Variable subtree_map_truthy : SubtreeMap -> bool.
Variable default_permitted_subtrees default_excluded_subtrees : SubtreeMap.
Variable intersect_with union_with : SubtreeMap -> SubtreeMap -> SubtreeMap.
Variable init_policy_tree : PolicyTreeRoot.
Variable default_params : @PKIXValidationParams PolicySet SubtreeMap.

Let init := init_pkix_validation_state (PublicKeyInfo := PublicKeyInfo)
  (Name := Name) intersect_policy_sets subtree_map_truthy
  default_permitted_subtrees default_excluded_subtrees intersect_with
  union_with init_policy_tree default_params.

(** When the caller and the anchor both supply parameters, the three
    counters depend on the caller's flags alone. *)
Lemma init_counters_follow_caller (path_length : Z)
  (quals_max quals_max_aa : option Z) (key : PublicKeyInfo) (name : Name)
  (parameters trust_anchor_params : PKIXValidationParams) :
  let anchor :=
    mkTrustAnchor (mkTrustQualifiers (Some trust_anchor_params) quals_max
                     quals_max_aa) key name in
  let state := fst (init path_length anchor (Some parameters)) in
  explicit_policy state
    = (if initial_explicit_policy parameters then 0 else path_length + 1)
  /\ inhibit_any_policy state
    = (if initial_any_policy_inhibit parameters then 0 else path_length + 1)
  /\ policy_mapping state
    = (if initial_policy_mapping_inhibit parameters then 0
       else path_length + 1).
Proof.
  simpl. unfold init, init_pkix_validation_state. simpl.
  by destruct (initial_explicit_policy parameters),
    (initial_any_policy_inhibit parameters),
    (initial_policy_mapping_inhibit parameters).
Qed.

(** The initialisation leaves [aa_controls_used] clear. *)
Lemma init_aa_controls_unused (path_length : Z) (anchor : TrustAnchor)
  (parameters : option PKIXValidationParams) :
  aa_controls_used (fst (init path_length anchor parameters)) = false.
Proof.
  unfold init, init_pkix_validation_state.
  destruct parameters, (standard_parameters (trust_qualifiers anchor));
    reflexivity.
Qed.

End Init.

(** C1.  On a path of length 3, with the caller's three initial flags set
    and the anchor's three flags clear, the initialisation starts the three
    counters at 0, where the conjunction of the two flags is clear and asks
    for path_length + 1 = 4. *)
Theorem init_pkix_ignores_anchor_flags :
  explicit_policy init_at_failing_input = 0
  /\ inhibit_any_policy init_at_failing_input = 0
  /\ policy_mapping init_at_failing_input = 0
  /\ spec_initial_counter (initial_explicit_policy caller_inhibits)
       (initial_explicit_policy anchor_permits) 3 = 4
  /\ spec_initial_counter (initial_any_policy_inhibit caller_inhibits)
       (initial_any_policy_inhibit anchor_permits) 3 = 4
  /\ spec_initial_counter (initial_policy_mapping_inhibit caller_inhibits)
       (initial_policy_mapping_inhibit anchor_permits) 3 = 4.
Proof. repeat split. Qed.

(** ** Validity *)

Lemma check_validity_cases (validity : Validity) (moment tolerance : Z) :
  let earliest := not_before validity - tolerance in
  let latest := not_after validity + tolerance in
  (is_datetime earliest = false
   /\ _check_validity validity moment tolerance = Raise OverflowError)
  \/ (is_datetime earliest = true /\ moment < earliest
      /\ _check_validity validity moment tolerance = Raise NotYetValidError)
  \/ (is_datetime earliest = true /\ earliest <= moment
      /\ is_datetime latest = false
      /\ _check_validity validity moment tolerance = Raise OverflowError)
  \/ (is_datetime earliest = true /\ earliest <= moment
      /\ is_datetime latest = true /\ moment > latest
      /\ _check_validity validity moment tolerance = Raise ExpiredError)
  \/ (is_datetime earliest = true /\ is_datetime latest = true
      /\ earliest <= moment <= latest
      /\ _check_validity validity moment tolerance = Return tt).
Proof.
  cbv zeta. unfold _check_validity, datetime_sub, datetime_add.
  destruct (is_datetime (not_before validity - tolerance)); [|by left].
  right.
  destruct (Z.ltb_spec moment (not_before validity - tolerance)); [by left|].
  right.
  destruct (is_datetime (not_after validity + tolerance)); [|by left].
  right. rewrite Z.gtb_ltb.
  destruct (Z.ltb_spec (not_after validity + tolerance) moment).
  - left. repeat split; [done|lia].
  - right. repeat split; done.
Qed.

Lemma check_validity_returns (validity : Validity) (moment tolerance : Z) :
  _check_validity validity moment tolerance = Return tt ->
  not_before validity - tolerance <= moment <= not_after validity + tolerance.
Proof.
  destruct (check_validity_cases validity moment tolerance)
    as [[_ E]|[(_ & _ & E)|[(_ & _ & _ & E)|[(_ & _ & _ & _ & E)
       |(_ & _ & H & _)]]]]; congruence.
Qed.

(** C2, as amended.  The bounds [not_before - tolerance] and
    [not_after + tolerance] are computed with the arithmetic of [datetime],
    which raises OverflowError for a result outside the years 1 to 9999, and
    the not-before test comes first.  The check fails with NotYetValid
    exactly when the first bound is a datetime and moment is before it; it
    fails with Expired exactly when both bounds are datetimes, the
    not-before test passes and moment is after the second bound; it
    succeeds exactly when both bounds are datetimes and moment lies between
    them, bounds included; it raises OverflowError exactly when the first
    bound is no datetime, or the not-before test passes and the second
    bound is none.  At moment = not_before - tolerance it succeeds unless a
    bound overflows or that moment is past not_after + tolerance (then
    Expired); at moment = not_after + tolerance it succeeds unless a bound
    overflows or that moment is before not_before - tolerance (then
    NotYetValid). *)
Theorem check_validity_boundaries (validity : Validity) (moment tolerance : Z) :
  let earliest := not_before validity - tolerance in
  let latest := not_after validity + tolerance in
  (_check_validity validity moment tolerance = Raise NotYetValidError
   <-> is_datetime earliest = true /\ moment < earliest)
  /\ (_check_validity validity moment tolerance = Raise ExpiredError
      <-> is_datetime earliest = true /\ is_datetime latest = true
          /\ earliest <= moment /\ moment > latest)
  /\ (_check_validity validity moment tolerance = Return tt
      <-> is_datetime earliest = true /\ is_datetime latest = true
          /\ earliest <= moment <= latest)
  /\ (_check_validity validity moment tolerance = Raise OverflowError
      <-> is_datetime earliest = false
          \/ (earliest <= moment /\ is_datetime latest = false))
  /\ _check_validity validity earliest tolerance
     = (if negb (is_datetime earliest) || negb (is_datetime latest)
        then Raise OverflowError
        else if latest <? earliest then Raise ExpiredError else Return tt)
  /\ _check_validity validity latest tolerance
     = (if negb (is_datetime earliest) then Raise OverflowError
        else if latest <? earliest then Raise NotYetValidError
        else if negb (is_datetime latest) then Raise OverflowError
        else Return tt).
Proof.
  cbv zeta. split; [|split; [|split; [|split; [|split]]]].
  1-4: destruct (check_validity_cases validity moment tolerance)
    as [[? E]|[(? & ? & E)|[(? & ? & ? & E)|[(? & ? & ? & ? & E)
       |(? & ? & ? & E)]]]]; rewrite E; split; intros;
    try congruence; try lia; try (intuition (congruence || lia)).
  - unfold _check_validity, datetime_sub, datetime_add.
    destruct (is_datetime (not_before validity - tolerance)); [|done].
    rewrite Z.ltb_irrefl.
    destruct (is_datetime (not_after validity + tolerance)); [|done].
    by rewrite Z.gtb_ltb.
  - unfold _check_validity, datetime_sub, datetime_add.
    destruct (is_datetime (not_before validity - tolerance)); [|done].
    cbn [negb]. destruct (_ <? _); [done|].
    destruct (is_datetime (not_after validity + tolerance)); [|done].
    by rewrite Z.gtb_ltb, Z.ltb_irrefl.
Qed.

(** C2, as stated, fails on a period that ends before it starts: with
    not_before = 10, not_after = 0 and no tolerance, the moment 10 equals
    not_before - tolerance and the check raises Expired; the moment 5 is
    past not_after + tolerance and the check raises NotYetValid. *)
Lemma check_validity_inverted_period :
  let validity := mkValidity 10 0 in
  10 = not_before validity - 0
  /\ _check_validity validity 10 0 = Raise ExpiredError
  /\ 5 > not_after validity + 0
  /\ _check_validity validity 5 0 = Raise NotYetValidError.
Proof. repeat split. Qed.

(** The arithmetic overflows at the end of the range of [datetime]: for a
    certificate valid until 9999-12-31T23:59:59 and a tolerance of one
    second, the check raises OverflowError at a moment within the
    period. *)
Lemma check_validity_overflows_at_9999 :
  _check_validity (mkValidity 0 253402300799000000) 1000000 1000000
  = Raise OverflowError.
Proof. reflexivity. Qed.

(** ** AA controls *)

Section AAControlsFacts.
Context {SubtreeMap PolicyTreeRoot PublicKeyInfo Name Cert : Type}.
Let State : Type :=
  @_PathValidationState SubtreeMap PolicyTreeRoot PublicKeyInfo Name.
Variable read_aa_controls : Cert -> option AAControls.
Variables steps_before steps_after : Z -> Cert -> State -> PyResult exn State.

(** The other steps of the loop never assign [aa_controls_used]. *)
Hypothesis steps_before_keep : forall i c (s s' : State),
  steps_before i c s = Return s' -> aa_controls_used s' = aa_controls_used s.
Hypothesis steps_after_keep : forall i c (s s' : State),
  steps_after i c s = Return s' -> aa_controls_used s' = aa_controls_used s.

Let loop := validate_loop read_aa_controls steps_before steps_after.

Lemma check_aa_present_sets_used (aa : AAControls) (s s' : State) (index : Z) :
  _check_aa_controls (Some aa) s index = Return s' ->
  aa_controls_used s' = true.
Proof.
  unfold _check_aa_controls.
  destruct (negb (aa_controls_used s) && (index >? 1)); [done|].
  destruct (path_len_constraint aa) as [n|]; [|by intros [= <-]].
  destruct (st_max_aa_path_length s) as [m|]; [|done].
  by destruct (n <? m); intros [= <-].
Qed.

Lemma check_aa_absent (s : State) (index : Z) :
  _check_aa_controls None s index =
  if aa_controls_used s then Raise (PathValidationError AAControlsMissing)
  else Return s.
Proof. reflexivity. Qed.

Lemma validate_loop_app (pre rest : list Cert) (index : Z) (s : State) :
  loop index (pre ++ rest) s =
  match loop index pre s with
  | Raise e => Raise e
  | Return s' => loop (index + Z.of_nat (length pre)) rest s'
  end.
Proof.
  revert index s. induction pre as [|c pre IH]; intros index s.
  - simpl. by rewrite Z.add_0_r.
  - change (loop index ((c :: pre) ++ rest) s)
      with (validate_loop read_aa_controls steps_before steps_after index
              (c :: pre ++ rest) s).
    simpl. destruct (steps_before index c s) as [s1|]; [|done].
    destruct (_check_aa_controls (read_aa_controls c) s1 index) as [s2|];
      [|done].
    destruct (steps_after index c s2) as [s3|]; [|done].
    fold loop. rewrite IH. destruct (loop (index + 1) pre s3); [|done].
    f_equal. lia.
Qed.

(** Once the flag is set, a later certificate without the extension stops
    the loop. *)
Lemma loop_used_needs_aa (mid post : list Cert) (c : Cert) (index : Z)
  (s : State) :
  aa_controls_used s = true -> read_aa_controls c = None ->
  is_raise (loop index (mid ++ c :: post) s).
Proof.
  intros Hused Hc. revert index s Hused.
  induction mid as [|x mid IH]; intros index s Hused; simpl.
  - destruct (steps_before index c s) as [s1|] eqn:E1; [|done].
    rewrite Hc, check_aa_absent.
    by rewrite (steps_before_keep _ _ _ _ E1), Hused.
  - destruct (steps_before index x s) as [s1|] eqn:E1; [|done].
    destruct (read_aa_controls x) as [aa|] eqn:Ex.
    + destruct (_check_aa_controls (Some aa) s1 index) as [s2|] eqn:E2;
        [|done].
      destruct (steps_after index x s2) as [s3|] eqn:E3; [|done].
      apply IH. rewrite (steps_after_keep _ _ _ _ E3).
      by apply (check_aa_present_sets_used aa s1 s2 index).
    + rewrite check_aa_absent.
      by rewrite (steps_before_keep _ _ _ _ E1), Hused.
Qed.

(** While no certificate carries the extension, the flag stays clear. *)
Lemma loop_unused_prefix (pre : list Cert) (index : Z) (s : State) :
  aa_controls_used s = false ->
  Forall (fun c => read_aa_controls c = None) pre ->
  match loop index pre s with
  | Raise _ => True
  | Return s' => aa_controls_used s' = false
  end.
Proof.
  intros Hs Hpre. revert index s Hs.
  induction Hpre as [|x pre Hx _ IH]; intros index s Hs; simpl; [done|].
  destruct (steps_before index x s) as [s1|] eqn:E1; [|done].
  rewrite Hx, check_aa_absent.
  rewrite (steps_before_keep _ _ _ _ E1), Hs.
  destruct (steps_after index x s1) as [s3|] eqn:E3; [|done].
  apply IH. rewrite (steps_after_keep _ _ _ _ E3).
  by rewrite (steps_before_keep _ _ _ _ E1).
Qed.

(** C9.  In [_check_aa_controls]: a certificate with the extension at an
    index above 1 is refused when the flag is clear; a certificate without
    the extension is refused when the flag is set; otherwise a certificate
    with the extension and a path length constraint below the current
    [max_aa_path_length] sets the flag and lowers [max_aa_path_length] to
    the constraint.  Along a path, validated from index 1 with the flag
    clear as the initialisation leaves it: validation fails when a
    certificate after the first carries the extension and none before it
    does, and it fails when a certificate carries the extension and a later
    one does not. *)
Theorem aa_controls_all_or_nothing :
  (forall (aa : AAControls) (s : State) (index : Z),
      aa_controls_used s = false -> index > 1 ->
      _check_aa_controls (Some aa) s index
      = Raise (PathValidationError AAControlsNotOnPreceding))
  /\ (forall (s : State) (index : Z),
      aa_controls_used s = true ->
      _check_aa_controls None s index
      = Raise (PathValidationError AAControlsMissing))
  /\ (forall (n cur : Z) (s : State) (index : Z),
      aa_controls_used s = true \/ index <= 1 ->
      st_max_aa_path_length s = Some cur -> n < cur ->
      exists s',
        _check_aa_controls (Some (mkAAControls (Some n))) s index = Return s'
        /\ st_max_aa_path_length s' = Some n
        /\ aa_controls_used s' = true)
  /\ (forall (pre post : list Cert) (c : Cert) (s : State),
      aa_controls_used s = false -> pre <> [] ->
      Forall (fun x => read_aa_controls x = None) pre ->
      read_aa_controls c <> None ->
      is_raise (loop 1 (pre ++ c :: post) s))
  /\ (forall (pre mid post : list Cert) (c c' : Cert) (s : State),
      read_aa_controls c <> None -> read_aa_controls c' = None ->
      is_raise (loop 1 (pre ++ c :: mid ++ c' :: post) s)).
Proof.
  split; [|split; [|split; [|split]]].
  - intros aa s index Hs Hi. unfold _check_aa_controls. rewrite Hs.
    by destruct (Z.gtb_spec index 1); [|lia].
  - intros s index Hs. by rewrite check_aa_absent, Hs.
  - intros n cur s index Hguard Hcur Hlt. eexists.
    unfold _check_aa_controls. simpl path_len_constraint.
    replace (negb (aa_controls_used s) && (index >? 1)) with false.
    + rewrite Hcur. destruct (Z.ltb_spec n cur); [|lia]. done.
    + destruct Hguard as [->|Hi]; [done|].
      destruct (Z.gtb_spec index 1); [lia|]. by rewrite andb_false_r.
  - intros pre post c s Hs Hne Hpre Hc. rewrite validate_loop_app.
    pose proof (loop_unused_prefix pre 1 s Hs Hpre) as Hloop.
    destruct (loop 1 pre s) as [s'|]; [|done]. simpl.
    destruct (steps_before _ c s') as [s1|] eqn:E1; [|done].
    destruct (read_aa_controls c) as [aa|]; [|done].
    unfold _check_aa_controls.
    rewrite (steps_before_keep _ _ _ _ E1), Hloop.
    destruct pre as [|x pre]; [done|].
    destruct (Z.gtb_spec (1 + Z.of_nat (length (x :: pre))) 1) as [|Hle];
      [done|].
    simpl length in Hle. lia.
  - intros pre mid post c c' s Hc Hc'. rewrite validate_loop_app.
    destruct (loop 1 pre s) as [s'|]; [|done]. simpl.
    destruct (steps_before _ c s') as [s1|] eqn:E1; [|done].
    destruct (read_aa_controls c) as [aa|]; [|done].
    destruct (_check_aa_controls (Some aa) s1 _) as [s2|] eqn:E2; [|done].
    destruct (steps_after _ c s2) as [s3|] eqn:E3; [|done].
    apply loop_used_needs_aa; [|done].
    rewrite (steps_after_keep _ _ _ _ E3).
    by apply (check_aa_present_sets_used aa s1 s2 _ E2).
Qed.

End AAControlsFacts.

Lemma aa_controls_all_or_nothing_witness :
  _check_aa_controls (Some (mkAAControls None)) plain_state 2
    = Raise (PathValidationError AAControlsNotOnPreceding)
  /\ _check_aa_controls None (set_aa plain_state true (Some 5)) 2
    = Raise (PathValidationError AAControlsMissing)
  /\ (exists s',
        _check_aa_controls (Some (mkAAControls (Some 2))) plain_state 1
          = Return s'
        /\ st_max_aa_path_length s' = Some 2
        /\ aa_controls_used s' = true)
  /\ is_raise (validate_loop id no_other_steps no_other_steps 1
                 ([None] ++ Some (mkAAControls None) :: []) plain_state)
  /\ is_raise (validate_loop id no_other_steps no_other_steps 1
                 ([] ++ Some (mkAAControls None) :: [] ++ None :: [])
                 plain_state).
Proof.
  destruct (aa_controls_all_or_nothing (Cert := option AAControls) id
              no_other_steps no_other_steps
              (fun i c s s' (E : Return s = Return s') =>
                 match E in _ = r
                   return match r with
                          | Return x => aa_controls_used x = aa_controls_used s
                          | Raise _ => True
                          end
                 with eq_refl => eq_refl end)
              (fun i c s s' (E : Return s = Return s') =>
                 match E in _ = r
                   return match r with
                          | Return x => aa_controls_used x = aa_controls_used s
                          | Raise _ => True
                          end
                 with eq_refl => eq_refl end))
    as (H1 & H2 & H3 & H4 & H5).
  split; [|split; [|split; [|split]]].
  - apply H1; [reflexivity | lia].
  - apply H2. reflexivity.
  - apply (H3 2 5); [right; lia | reflexivity | lia].
  - apply H4; [reflexivity | discriminate | | discriminate].
    constructor; [reflexivity | constructor].
  - apply H5; [discriminate | reflexivity].
Defined.

(** ** The revocation combinator *)

(** C4, as amended.  The combinator stops before [status_good] is computed,
    without calling [verify_crl], when the OCSP call raises an exception the
    combinator does not handle, or when OCSP is mandatory and produced no
    good status (the mandatory-OCSP gate).  In every other run,
    [status_good] is true exactly when the OCSP check produced a good status
    and the rule is not CRL_AND_OCSP_REQUIRED, and [verify_crl] is called
    exactly when crl_mandatory holds, or the rule is CRL_OR_OCSP_REQUIRED
    and status_good is false, or CRL is relevant and the certificate
    declares CRL distribution points and status_good is false. *)
Theorem check_revocation_crl_decision (cert_has_crl cert_has_ocsp : bool)
  (rev_rule : RevocationCheckingRule) (ocsp : ocsp_outcome)
  (crl : crl_outcome) :
  let run := _check_revocation cert_has_crl cert_has_ocsp rev_rule ocsp crl in
  let ocsp_called := ocsp_relevant rev_rule && cert_has_ocsp in
  let ocsp_good := ocsp_called && ocsp_is_good ocsp in
  if (ocsp_called && ocsp_propagates ocsp)
     || (negb ocsp_good && ocsp_mandatory rev_rule)
  then status_good run = None
       /\ crl_invoked run = false
       /\ is_raise (outcome run)
  else exists sg,
      status_good run = Some sg
      /\ sg = ocsp_good
              && negb (bool_decide (mode rev_rule = CRL_AND_OCSP_REQUIRED))
      /\ crl_invoked run
         = crl_mandatory rev_rule
           || (bool_decide (mode rev_rule = CRL_OR_OCSP_REQUIRED) && negb sg)
           || (crl_relevant rev_rule && cert_has_crl && negb sg).
Proof.
  destruct rev_rule as [m r1 m1 r2 m2 tol str].
  destruct r1, cert_has_ocsp, ocsp, tol, m1;
    try (vm_compute; done);
    destruct m, m2, r2, cert_has_crl, crl;
    vm_compute; eexists; repeat split; reflexivity.
Qed.

(** C4, as stated, fails when OCSP is mandatory and yields no good status:
    for a certificate that declares CRL distribution points and no OCSP
    responder, under a rule that requires both checks, crl_mandatory holds
    and yet [verify_crl] is not called; the combinator raises the
    mandatory-OCSP error first. *)
Lemma check_revocation_ocsp_gate_first :
  let run := _check_revocation true false both_required OCSPGood CRLGood in
  crl_mandatory both_required = true
  /\ crl_invoked run = false
  /\ outcome run
     = Raise (PathValidationError
                (MandatoryOCSPFailed
                   ["an applicable OCSP response could not be found"%string])).
Proof. vm_compute. done. Qed.

(** ** The signature of an attribute certificate *)

Section ACSignatureFacts.
Context {SignedDigestAlgorithm Native : Type} `{EqDecision Native}.
Variable native : SignedDigestAlgorithm -> Native.
Variable dump : SignedDigestAlgorithm -> list Z.
Variable hash_algo : SignedDigestAlgorithm -> string.

(** The decoded form of a value is determined by its encoding. *)
Hypothesis native_of_dump : forall a b, dump a = dump b -> native a = native b.

(** C7, as amended.  The two declarations are compared by their decoded
    ([.native]) values: when these differ, the check raises the
    invalid-attribute-certificate error for a mismatch, whatever the hash
    algorithm and the signature are, and [validate_sig] is not called; when
    they are equal the mismatch error is not raised.  Declarations with
    equal DER encodings have equal decoded values, so they pass. *)
Theorem ac_signature_algorithm_by_native
  (sd_algo embedded_sd_algo : SignedDigestAlgorithm)
  (weak_hash_algos : gset string) (validate_sig : validate_sig_outcome) :
  let run := _check_ac_signature native hash_algo sd_algo embedded_sd_algo
               weak_hash_algos validate_sig in
  (native sd_algo <> native embedded_sd_algo ->
   run = ([], Raise (InvalidAttrCertificateError SignatureAlgorithmMismatch)))
  /\ (native sd_algo = native embedded_sd_algo ->
      snd run <> Raise (InvalidAttrCertificateError SignatureAlgorithmMismatch))
  /\ (dump sd_algo = dump embedded_sd_algo ->
      snd run <> Raise (InvalidAttrCertificateError SignatureAlgorithmMismatch)).
Proof.
  simpl. unfold _check_ac_signature.
  assert (Heq : native sd_algo = native embedded_sd_algo ->
    snd (if bool_decide (native sd_algo <> native embedded_sd_algo)
         then ([], Raise (InvalidAttrCertificateError SignatureAlgorithmMismatch))
         else
           if bool_decide (hash_algo sd_algo ∈ weak_hash_algos)
           then ([], Raise (WeakAlgorithmError (hash_algo sd_algo)))
           else
             match validate_sig with
             | SignatureValid => ([CallValidateSig], Return tt)
             | PSSParameterMismatch =>
                 ([CallValidateSig],
                  Raise (InvalidAttrCertificateError SignatureParametersMismatch))
             | InvalidSignature =>
                 ([CallValidateSig],
                  Raise (InvalidAttrCertificateError SignatureNotVerified))
             end)
    <> Raise (InvalidAttrCertificateError SignatureAlgorithmMismatch)).
  { intros E. rewrite bool_decide_eq_false_2 by (intros Hne; by apply Hne).
    case_bool_decide; [done|]. by destruct validate_sig. }
  split; [|split].
  - intros Hne. by rewrite bool_decide_eq_true_2.
  - exact Heq.
  - intros Hd. by apply Heq, native_of_dump.
Qed.

End ACSignatureFacts.

Lemma rsa_native_of_dump (a b : rsa_identifier) :
  rsa_dump a = rsa_dump b -> rsa_native a = rsa_native b.
Proof. destruct a, b; (reflexivity || discriminate). Defined.

Lemma ac_signature_algorithm_by_native_witness :
  _check_ac_signature rsa_native rsa_hash_algo sha256_rsa_null sha1_rsa_null
    ∅ SignatureValid
  = ([], Raise (InvalidAttrCertificateError SignatureAlgorithmMismatch))
  /\ snd (_check_ac_signature rsa_native rsa_hash_algo sha256_rsa_null
            sha256_rsa_absent ∅ SignatureValid)
     <> Raise (InvalidAttrCertificateError SignatureAlgorithmMismatch)
  /\ snd (_check_ac_signature rsa_native rsa_hash_algo sha1_rsa_null
            sha1_rsa_null ∅ InvalidSignature)
     <> Raise (InvalidAttrCertificateError SignatureAlgorithmMismatch).
Proof.
  split; [|split].
  - destruct (ac_signature_algorithm_by_native rsa_native rsa_dump
                rsa_hash_algo rsa_native_of_dump sha256_rsa_null sha1_rsa_null
                ∅ SignatureValid) as (Hdiffer & _ & _).
    apply Hdiffer. discriminate.
  - destruct (ac_signature_algorithm_by_native rsa_native rsa_dump
                rsa_hash_algo rsa_native_of_dump sha256_rsa_null
                sha256_rsa_absent ∅ SignatureValid) as (_ & Hsame & _).
    apply Hsame. reflexivity.
  - destruct (ac_signature_algorithm_by_native rsa_native rsa_dump
                rsa_hash_algo rsa_native_of_dump sha1_rsa_null sha1_rsa_null
                ∅ InvalidSignature) as (_ & _ & Hbytes).
    apply Hbytes. reflexivity.
Defined.

(** C7, as stated, fails for two encodings of one algorithm identifier: the
    envelope declares sha256_rsa with NULL parameters, the signed portion
    declares it with the parameters absent.  The DER encodings differ, the
    decoded values are equal, and the check goes on to the signature
    verification and returns. *)
Lemma ac_signature_der_differs_but_passes :
  rsa_dump sha256_rsa_null <> rsa_dump sha256_rsa_absent
  /\ _check_ac_signature rsa_native rsa_hash_algo sha256_rsa_null
       sha256_rsa_absent ∅ SignatureValid
     = ([CallValidateSig], Return tt).
Proof. split; [discriminate|]. vm_compute. done. Qed.

End ValidateFacts.

(* ===================================================================== *)
(** * Properties of revinfo/validate_crl.py                               *)
(* ===================================================================== *)

Module ValidateCrlFacts.
Import ValidateCrl.

(** ** The authority name of an indirect CRL *)

(** C8.  For an indirect CRL whose issuing distribution point names the
    distribution point relative to the CRL issuer, [_get_crl_authority_name]
    returns [None] as the authority name (the value returned by [append]),
    not the certificate issuer's name extended with the relative name; the
    lifting in [_match_dps_idp_names] does build the extended name. *)
Theorem crl_authority_name_relative_is_None
  (crl_issuer cert_issuer_name : Name) (rdn : RelativeDistinguishedName)
  (user_certs ca_certs attribute_certs : bool) (reasons : option (gset string))
  (aki : option (list Z)) (entries : list RevokedCertificate)
  (retrieve_by_key_identifier : list Z -> option Certificate)
  (errs : _CRLErrs) :
  let crl_idp :=
    mkIDP (Some (name_relative_to_crl_issuer rdn)) user_certs ca_certs
      reasons true attribute_certs in
  let certificate_list := mkCRL crl_issuer (Some crl_idp) aki entries in
  _get_crl_authority_name certificate_list cert_issuer_name
    retrieve_by_key_identifier errs
  = (errs, Return (true, PyNone))
  /\ PyNone <> PyName (cert_issuer_name ++ [rdn])
  /\ extended_issuer_name cert_issuer_name rdn
     = directory_name (cert_issuer_name ++ [rdn]).
Proof. repeat split. discriminate. Qed.

(** ** Looking a certificate up in a list of revoked entries *)

Section LookupFacts.
Variable KNOWN_CRL_ENTRY_EXTENSIONS : gset string.
Variable cert_serial : Z.
Variable cert_issuer_name : Name.

Let find := find_loop KNOWN_CRL_ENTRY_EXTENSIONS cert_serial cert_issuer_name.
Let check := _check_cert_on_crl_and_delta KNOWN_CRL_ENTRY_EXTENSIONS.
Let handle :=
  _handle_single_crl KNOWN_CRL_ENTRY_EXTENSIONS cert_serial cert_issuer_name.
Let loop := crl_loop KNOWN_CRL_ENTRY_EXTENSIONS cert_serial cert_issuer_name.
Let crl_result :=
  crl_result KNOWN_CRL_ENTRY_EXTENSIONS cert_serial cert_issuer_name.
Let covered_reasons :=
  covered_reasons KNOWN_CRL_ENTRY_EXTENSIONS cert_serial cert_issuer_name.
Let reports_revoked :=
  reports_revoked KNOWN_CRL_ENTRY_EXTENSIONS cert_serial cert_issuer_name.
Let propagated :=
  propagated KNOWN_CRL_ENTRY_EXTENSIONS cert_serial cert_issuer_name.
Let diagnostics :=
  diagnostics KNOWN_CRL_ENTRY_EXTENSIONS cert_serial cert_issuer_name.

Lemma carried_step (last_issuer_name : Name) (e : RevokedCertificate) :
  match issuer_name e with
  | Some n => if bool_decide (n <> last_issuer_name) then n else last_issuer_name
  | None => last_issuer_name
  end = default last_issuer_name (issuer_name e).
Proof.
  destruct (issuer_name e) as [n|]; [|done]. simpl.
  case_bool_decide as Hn; [done|]. congruence.
Qed.

Lemma find_unfold (last_issuer_name : Name) (e : RevokedCertificate)
  (rest : list RevokedCertificate) :
  find last_issuer_name (e :: rest) =
  if bool_decide (critical_extensions e ∖ KNOWN_CRL_ENTRY_EXTENSIONS <> ∅)
  then Raise NotImplementedError
  else if bool_decide (default last_issuer_name (issuer_name e)
                       <> cert_issuer_name)
  then find (default last_issuer_name (issuer_name e)) rest
  else if bool_decide (user_certificate e <> cert_serial)
  then find (default last_issuer_name (issuer_name e)) rest
  else Return (Some (revocation_date e,
                     default "unspecified"%string (crl_reason_value e))).
Proof.
  unfold find. simpl. rewrite carried_step.
  by destruct (crl_reason_value e).
Qed.

Lemma find_raises_only (last_issuer_name : Name)
  (entries : list RevokedCertificate) (e : exn) :
  find last_issuer_name entries = Raise e -> e = NotImplementedError.
Proof.
  revert last_issuer_name.
  induction entries as [|x entries IH]; intros last_issuer_name; [done|].
  rewrite find_unfold. repeat case_bool_decide; try done; try apply IH.
  by intros [= <-].
Qed.

Lemma find_passes_over (last_issuer_name : Name)
  (pre rest : list RevokedCertificate) :
  find last_issuer_name pre = Return None ->
  find last_issuer_name (pre ++ rest)
  = find (carried_issuer last_issuer_name pre) rest.
Proof.
  revert last_issuer_name.
  induction pre as [|x pre IH]; intros last_issuer_name; [done|].
  rewrite <- app_comm_cons, !find_unfold.
  repeat case_bool_decide; try done; apply IH.
Qed.

Lemma find_first_match (last_issuer_name : Name)
  (pre post : list RevokedCertificate) (e : RevokedCertificate) :
  find last_issuer_name pre = Return None ->
  critical_extensions e ∖ KNOWN_CRL_ENTRY_EXTENSIONS = ∅ ->
  carried_issuer last_issuer_name (pre ++ [e]) = cert_issuer_name ->
  user_certificate e = cert_serial ->
  find last_issuer_name (pre ++ e :: post)
  = Return (Some (revocation_date e,
                  default "unspecified"%string (crl_reason_value e))).
Proof.
  intros Hpre Hcrit Hiss Hser.
  rewrite find_passes_over, find_unfold by done.
  unfold carried_issuer in Hiss. rewrite fold_left_app in Hiss. simpl in Hiss.
  fold (carried_issuer last_issuer_name pre) in Hiss.
  rewrite bool_decide_eq_false_2 by (intros Hne; by apply Hne).
  rewrite bool_decide_eq_false_2 by (intros Hne; by apply Hne).
  by rewrite bool_decide_eq_false_2 by (intros Hne; by apply Hne).
Qed.

Lemma crl_loop_app (done_before rest : list CRLToProcess)
  (checked_reasons : gset string) (errs : _CRLErrs) :
  loop (done_before ++ rest) checked_reasons errs =
  match loop done_before checked_reasons errs with
  | Raise e => Raise e
  | Return (checked_reasons', errs') => loop rest checked_reasons' errs'
  end.
Proof.
  revert checked_reasons errs.
  induction done_before as [|c done_before IH]; intros checked_reasons errs;
    [done|].
  unfold loop. simpl. fold loop.
  destruct (_handle_single_crl _ _ _ c errs) as [errs' [[rs|]|e]];
    rewrite ?IH; try done.
  by destruct e.
Qed.

(** C10, as amended.  Let a complete CRL reach the entry lookup of
    [_handle_single_crl], after the CRLs processed before it left the loop
    running.  Let [searched] be the list in which the certificate is looked
    up and found: the delta CRL when one is used, or else the CRL itself,
    when no delta CRL is used or the lookup in the delta CRL finds nothing.
    If the lookup passes over the entries before [e] (none of them matches
    the certificate, none has an unrecognised critical extension), [e] has
    no unrecognised critical extension, the issuer in effect at [e] is the
    certificate's issuer, the serial number of [e] is the certificate's, and
    [e] carries no crl_reason, then [verify_crl] raises RevokedError with
    the reason unspecified and the revocation date of [e]. *)
Theorem revoked_without_reason_is_unspecified
  (c : CRLToProcess) (crl_issuer : Certificate) (reasons : gset string)
  (delta : option (list RevokedCertificate)) (new_failures : list string)
  (searched pre post : list RevokedCertificate) (e : RevokedCertificate)
  (done_before rest : list CRLToProcess) (classification_failures : list string)
  (authority : Name) (checked_reasons : gset string) (errs1 : _CRLErrs) :
  before c = ReachesLookup crl_issuer reasons delta new_failures ->
  (delta = Some searched
   \/ (searched = revoked_certificates (crl_data c)
       /\ forall dl, delta = Some dl ->
                     find (subject crl_issuer) dl = Return None)) ->
  searched = pre ++ e :: post ->
  find (subject crl_issuer) pre = Return None ->
  critical_extensions e ∖ KNOWN_CRL_ENTRY_EXTENSIONS = ∅ ->
  carried_issuer (subject crl_issuer) (pre ++ [e]) = cert_issuer_name ->
  user_certificate e = cert_serial ->
  crl_reason_value e = None ->
  loop done_before ∅ (mkErrs classification_failures 0)
  = Return (checked_reasons, errs1) ->
  verify_crl KNOWN_CRL_ENTRY_EXTENSIONS cert_serial cert_issuer_name
    classification_failures (Some authority) (done_before ++ c :: rest)
  = Raise (RevokedError "unspecified" (revocation_date e)).
Proof.
  intros Hbefore Hwhere -> Hpre Hcrit Hiss Hser Hreason Hdone.
  pose proof (find_first_match _ pre post e Hpre Hcrit Hiss Hser) as Hfound.
  rewrite Hreason in Hfound. simpl in Hfound.
  unfold verify_crl. fold loop. rewrite crl_loop_app, Hdone.
  unfold loop. simpl. unfold _handle_single_crl. rewrite Hbefore.
  unfold _check_cert_on_crl_and_delta, _find_cert_in_list. fold find.
  destruct Hwhere as [->|[<- Hdelta]].
  - by rewrite Hfound.
  - destruct delta as [dl|].
    + rewrite (Hdelta dl eq_refl), Hfound. done.
    + by rewrite Hfound.
Qed.

Lemma check_frame (crl_issuer : Certificate)
  (certificate_list : list RevokedCertificate)
  (delta : option (list RevokedCertificate)) (errs : _CRLErrs) :
  check crl_issuer cert_serial cert_issuer_name certificate_list delta errs =
  (mkErrs
     (failures errs
      ++ failures (fst (check crl_issuer cert_serial cert_issuer_name
                          certificate_list delta (mkErrs [] 0))))
     (issuer_failures errs),
   snd (check crl_issuer cert_serial cert_issuer_name certificate_list delta
          (mkErrs [] 0))).
Proof.
  unfold check, _check_cert_on_crl_and_delta, _find_cert_in_list.
  destruct errs as [fl n].
  destruct delta as [dl|];
    repeat (first [ progress simpl
                  | rewrite app_nil_r
                  | match goal with
                    | |- context [find_loop ?k ?s ?i ?l ?es] =>
                        destruct (find_loop k s i l es) as [[[? ?]|]|]
                    end
                  | case_bool_decide ]); done.
Qed.

Lemma check_raises_only (crl_issuer : Certificate)
  (certificate_list : list RevokedCertificate)
  (delta : option (list RevokedCertificate)) (errs : _CRLErrs) (e : exn) :
  snd (check crl_issuer cert_serial cert_issuer_name certificate_list delta
         errs) = Raise e ->
  e = NotImplementedError.
Proof.
  unfold check, _check_cert_on_crl_and_delta, _find_cert_in_list. fold find.
  destruct delta as [dl|].
  - destruct (find (subject crl_issuer) dl) as [[[d r]|]|e1] eqn:E1; simpl.
    + case_bool_decide; done.
    + destruct (find (subject crl_issuer) certificate_list)
        as [[[d r]|]|e2] eqn:E2; simpl; [case_bool_decide; done|done|].
      intros [= <-]. by apply find_raises_only in E2.
    + intros [= <-]. by apply find_raises_only in E1.
  - destruct (find (subject crl_issuer) certificate_list)
      as [[[d r]|]|e2] eqn:E2; simpl; [case_bool_decide; done|done|].
    intros [= <-]. by apply find_raises_only in E2.
Qed.

Lemma handle_frame (c : CRLToProcess) (errs : _CRLErrs) :
  handle c errs =
  (mkErrs (failures errs ++ failures (fst (handle c (mkErrs [] 0))))
     (issuer_failures errs + (if issuer_failed c then 1 else 0)),
   crl_result c).
Proof.
  unfold crl_result, ValidateCrl.crl_result, issuer_failed, handle,
    _handle_single_crl.
  destruct errs as [fl n].
  destruct (before c) as [b nf| |e|ci rs delta nf]; simpl.
  - destruct b; unfold add_issuer_failure, add_failures; simpl;
      by rewrite ?Z.add_0_r.
  - by rewrite app_nil_r, Z.add_0_r.
  - by rewrite app_nil_r, Z.add_0_r.
  - fold check. rewrite check_frame.
    rewrite (check_frame _ _ _ (add_failures _ _)). simpl.
    destruct (snd (check ci cert_serial cert_issuer_name
                     (revoked_certificates (crl_data c)) delta (mkErrs [] 0)))
      as [[[d r]|]|e] eqn:E; simpl;
      rewrite ?Z.add_0_r, <- ?app_assoc; try done.
    apply check_raises_only in E as ->. done.
Qed.

Lemma crl_result_cases (c : CRLToProcess) :
  (exists o, crl_result c = Return o /\ propagated c = None)
  \/ (crl_result c = Raise ValueError /\ propagated c = None)
  \/ exists e, crl_result c = Raise e /\ propagated c = Some e.
Proof.
  unfold propagated, ValidateCrl.propagated. fold crl_result.
  destruct (crl_result c) as [o|e]; [left; eauto|].
  destruct e; eauto.
Qed.

Lemma loop_cons (c : CRLToProcess) (crls : list CRLToProcess)
  (checked_reasons : gset string) (errs : _CRLErrs) :
  loop (c :: crls) checked_reasons errs =
  match handle c errs with
  | (errs, Return (Some interim_reasons)) =>
      loop crls (checked_reasons ∪ interim_reasons) errs
  | (errs, Return None) => loop crls checked_reasons errs
  | (errs, Raise ValueError) =>
      loop crls checked_reasons
        (add_failure errs "Generic processing error while validating CRL.")
  | (_, Raise e) => Raise e
  end.
Proof. reflexivity. Qed.

Lemma issuer_failed_count_cons (c : CRLToProcess) (crls : list CRLToProcess) :
  Z.of_nat (length (filter (fun c => issuer_failed c = true) (c :: crls)))
  = (if issuer_failed c then 1 else 0)
    + Z.of_nat (length (filter (fun c => issuer_failed c = true) crls)).
Proof.
  rewrite filter_cons.
  destruct (issuer_failed c); case_decide; simpl length; try done; lia.
Qed.

(** When no CRL ends the loop with an exception, the loop runs to its end:
    it unions the interim reasons, appends the diagnostics and counts the
    issuer failures. *)
Lemma loop_runs (crls : list CRLToProcess) (checked_reasons : gset string)
  (errs : _CRLErrs) :
  Forall (fun c => propagated c = None) crls ->
  loop crls checked_reasons errs =
  Return (checked_reasons ∪ ⋃ (covered_reasons <$> crls),
          mkErrs (failures errs ++ concat (diagnostics <$> crls))
            (issuer_failures errs
             + Z.of_nat (length (filter (fun c => issuer_failed c = true) crls)))).
Proof.
  intros Hno. revert checked_reasons errs.
  induction Hno as [|c crls Hc _ IH]; intros checked_reasons errs.
  - simpl. rewrite app_nil_r, Z.add_0_r, (right_id_L ∅ (∪)).
    by destruct errs.
  - rewrite loop_cons, handle_frame, issuer_failed_count_cons.
    rewrite !fmap_cons, union_list_cons, concat_cons.
    unfold covered_reasons at 1, diagnostics at 1.
    unfold ValidateCrl.covered_reasons, ValidateCrl.diagnostics.
    fold handle. fold crl_result.
    destruct (crl_result_cases c) as [(o & Ho & _)|[[Hv _]|(e & _ & He)]].
    + rewrite Ho, app_nil_r.
      destruct o as [rs|]; rewrite IH; simpl; do 2 f_equal.
      * by rewrite (assoc_L (∪)).
      * f_equal; [by rewrite app_assoc | lia].
      * by rewrite (left_id_L ∅ (∪)).
      * f_equal; [by rewrite app_assoc | lia].
    + rewrite Hv, IH. simpl. do 2 f_equal.
      * by rewrite (left_id_L ∅ (∪)).
      * f_equal; [by rewrite <- !app_assoc | lia].
    + congruence.
Qed.

(** The first CRL that ends the loop with an exception decides how the loop
    ends. *)
Lemma loop_propagates (pre post : list CRLToProcess) (c : CRLToProcess)
  (e : exn) (checked_reasons : gset string) (errs : _CRLErrs) :
  Forall (fun c => propagated c = None) pre ->
  propagated c = Some e ->
  loop (pre ++ c :: post) checked_reasons errs = Raise e.
Proof.
  intros Hpre Hc. rewrite crl_loop_app, (loop_runs pre _ _ Hpre).
  rewrite loop_cons, handle_frame.
  destruct (crl_result_cases c) as [(o & _ & Ho)|[[_ Hv]|(e' & He' & Hp)]];
    try congruence.
  rewrite He'. assert (e' = e) as -> by congruence.
  unfold propagated, ValidateCrl.propagated in Hc. fold crl_result in Hc.
  rewrite He' in Hc. by destruct e.
Qed.

Lemma all_issuer_failed_count (crls : list CRLToProcess) :
  Z.of_nat (length crls)
  = 0 + Z.of_nat (length (filter (fun c => issuer_failed c = true) crls))
  <-> Forall (fun c => issuer_failed c = true) crls.
Proof.
  split.
  - intros Hlen. assert (length (filter (fun c => issuer_failed c = true) crls)
                         = length crls) as Hl by lia.
    clear Hlen. induction crls as [|c crls IH]; [constructor|].
    rewrite filter_cons in Hl. pose proof (length_filter
      (fun c => issuer_failed c = true) crls) as Hle.
    case_decide; simpl in Hl; [|lia].
    constructor; [done|]. apply IH. lia.
  - intros Hall. f_equal. induction Hall as [|c crls Hc _ IH]; [done|].
    rewrite filter_cons_True by done. simpl length. lia.
Qed.


End LookupFacts.

Lemma revoked_without_reason_is_unspecified_witness :
  verify_crl rfc5280_entry_extensions 42 example_ca [] (Some example_ca)
    ([] ++ example_crl VALID_REVOCATION_REASONS
             ([entry_other] ++ entry_42_no_reason :: []) :: [])
  = Raise (RevokedError "unspecified" (revocation_date entry_42_no_reason)).
Proof.
  apply (revoked_without_reason_is_unspecified rfc5280_entry_extensions 42
           example_ca
           (example_crl VALID_REVOCATION_REASONS
              ([entry_other] ++ entry_42_no_reason :: []))
           example_ca_cert VALID_REVOCATION_REASONS None []
           ([entry_other] ++ entry_42_no_reason :: []) [entry_other] []
           entry_42_no_reason [] [] [] example_ca ∅ (mkErrs [] 0)).
  - reflexivity.
  - right. split; [reflexivity | discriminate].
  - reflexivity.
  - vm_compute. reflexivity.
  - vm_compute. reflexivity.
  - reflexivity.
  - reflexivity.
  - reflexivity.
  - reflexivity.
Defined.

(** C10, as stated, fails when an entry before the matching one carries a
    critical extension that is not recognised: certificate 42 matches an
    entry without crl_reason in a CRL of its issuer, and [verify_crl] raises
    no RevokedError; the lookup stops at the earlier entry and the CRL is
    reported as a failure. *)
Lemma revoked_entry_after_unrecognised_critical :
  let entries := [entry_unrecognised_critical; entry_42_no_reason] in
  entry_42_no_reason ∈ entries
  /\ user_certificate entry_42_no_reason = 42
  /\ crl_reason_value entry_42_no_reason = None
  /\ carried_issuer (subject example_ca_cert) entries = example_ca
  /\ verify_crl rfc5280_entry_extensions 42 example_ca [] (Some example_ca)
       [example_crl VALID_REVOCATION_REASONS entries]
     = Raise (CRLValidationIndeterminateError [entry_failure]).
Proof.
  simpl. split; [set_solver|].
  split; [reflexivity|]. split; [reflexivity|]. split; [reflexivity|].
  vm_compute. reflexivity.
Qed.

Lemma reasons_eq_by_computation (X Y : gset string) :
  bool_decide (X = Y) = true -> X = Y.
Proof. apply bool_decide_eq_true_1. Qed.

Lemma reasons_neq_by_computation (X Y : gset string) :
  bool_decide (X = Y) = false -> X <> Y.
Proof. apply bool_decide_eq_false_1. Qed.



End ValidateCrlFacts.

(* ===================================================================== *)
(** * Properties of ltv/poe.py: registering and reading                *)
(* ===================================================================== *)

Module PoeReadsFacts.
Import Poe PoeReads PoeFacts.

(** ** Registration *)

Lemma register_known_poe_lookup (self : POEManager) (p : KnownPOE) (d : N) :
  _poes (fst (register_known_poe self p)) !! d =
  if decide (d = digest p) then Some (kept (_poes self !! d) p)
  else _poes self !! d.
Proof.
  unfold register_known_poe, kept.
  destruct (decide (d = digest p)) as [->|Hne].
  - destruct (_poes self !! digest p) as [c|] eqn:E; simpl.
    + destruct (poe_time c <=? poe_time p); simpl; [done|].
      by rewrite lookup_insert_eq.
    + by rewrite lookup_insert_eq.
  - destruct (_poes self !! digest p) as [c|] eqn:E; simpl.
    + destruct (poe_time c <=? poe_time p); simpl; [done|].
      by rewrite lookup_insert_ne.
    + by rewrite lookup_insert_ne.
Qed.

Lemma register_known_poe_override (self : POEManager) (p : KnownPOE) :
  _current_dt_override (fst (register_known_poe self p))
  = _current_dt_override self.
Proof. unfold register_known_poe. by repeat case_match. Qed.

Lemma manager_eq (m1 m2 : POEManager) :
  _poes m1 = _poes m2 ->
  _current_dt_override m1 = _current_dt_override m2 -> m1 = m2.
Proof. destruct m1, m2. simpl. by intros -> ->. Qed.

Lemma kept_comm (cur : option KnownPOE) (a b : KnownPOE) :
  digest a = digest b ->
  kept (Some (kept cur a)) b = kept (Some (kept cur b)) a.
Proof.
  intros Hd. unfold kept. destruct a as [da ta], b as [db tb]. simpl in *.
  subst db.
  destruct cur as [[dc tc]|]; simpl;
    repeat (match goal with
            | |- context [?x <=? ?y] =>
                is_var x; is_var y; destruct (Z.leb_spec x y); simpl
            end);
    try done; try lia; f_equal; lia.
Qed.

Lemma register_known_poe_comm (self : POEManager) (a b : KnownPOE) :
  fst (register_known_poe (fst (register_known_poe self a)) b)
  = fst (register_known_poe (fst (register_known_poe self b)) a).
Proof.
  apply manager_eq; [|by rewrite !register_known_poe_override].
  apply map_eq. intros d. rewrite !register_known_poe_lookup.
  destruct (decide (d = digest a)) as [Ha|Ha],
           (decide (d = digest b)) as [Hb|Hb]; try done.
  f_equal. apply kept_comm. congruence.
Qed.

(** X1.  The POEs a manager holds after a run of [register_known_poe]
    calls do not depend on the order of the calls. *)
Theorem registration_order_is_irrelevant (self : POEManager)
  (ps qs : list KnownPOE) :
  ps ≡ₚ qs -> fst (register_all self ps) = fst (register_all self qs).
Proof.
  intros Hp. revert self.
  induction Hp as [|p ps qs _ IH|p q ps|ps qs rs _ IH1 _ IH2]; intros self.
  - done.
  - rewrite !register_all_cons. simpl. apply IH.
  - rewrite !register_all_cons. simpl. by rewrite register_known_poe_comm.
  - by rewrite IH1.
Qed.

(** ** Merging *)

Lemma values_length (m : POEManager) : length (values m) = size (_poes m).
Proof. unfold values. by rewrite length_fmap, length_map_to_list. Qed.

Lemma ior_loop_other (k pos self other : nat) (h : store)
  (s o : POEManager) :
  self <> other ->
  h !! self = Some s ->
  h !! other = Some o ->
  ior_loop k (size (_poes o)) pos self other h =
  (<[self := fst (register_all s (take k (drop pos (values o))))]> h,
   Return tt).
Proof.
  intros Hne. revert pos h s.
  induction k as [|k IH]; intros pos h s Hs Ho; simpl; rewrite Ho, Hs.
  - rewrite Nat.eqb_refl. simpl. by rewrite insert_id.
  - rewrite Nat.eqb_refl. simpl.
    destruct (values o !! pos) as [poe|] eqn:Hpos.
    + rewrite (drop_S _ _ _ Hpos). simpl take. rewrite register_all_cons.
      simpl fst.
      rewrite (IH (S pos) _ (fst (register_known_poe s poe))).
      * by rewrite insert_insert_eq.
      * by rewrite lookup_insert_eq.
      * by rewrite lookup_insert_ne.
    + rewrite drop_ge by (by apply lookup_ge_None).
      simpl. by rewrite insert_id.
Qed.

Lemma supplied_times_values (o : POEManager) (d : N) :
  poes_wf (_poes o) ->
  supplied_times d (values o) = option_list (stored_time o d).
Proof.
  intros Hwf.
  assert (Hp : supplied_times d (values o) ≡ₚ option_list (stored_time o d)).
  { unfold supplied_times, values, stored_time.
    destruct o as [m ov]. simpl in *.
    induction m as [|k p m Hk IH] using map_ind; [done|].
    assert (Hk' : digest p = k) by (apply (Hwf k p), lookup_insert_eq).
    assert (Hwf' : poes_wf m).
    { intros k' p' Hl. apply Hwf. rewrite lookup_insert_ne; [done|].
      intros <-. by rewrite Hk in Hl. }
    rewrite map_to_list_insert by done. rewrite fmap_cons. simpl.
    destruct (decide (k = d)) as [<-|Hkd].
    - rewrite filter_cons_True by done. rewrite lookup_insert_eq. simpl.
      rewrite (IH Hwf'), Hk. done.
    - rewrite filter_cons_False by congruence.
      rewrite lookup_insert_ne by done. by apply IH. }
  destruct (stored_time o d) as [t|]; simpl in *.
  - by apply Permutation_singleton_r in Hp.
  - by apply Permutation_nil_r in Hp.
Qed.

Lemma min_times_older (a b : option Z) :
  min_times (option_list a ++ option_list b) = older a b.
Proof. by destruct a, b. Qed.

(** X2.  Merging another manager into a manager keeps, for every digest,
    the older of the two times: after [a |= b] for two different managers,
    [b] is unchanged and the time [a] holds for a digest is the minimum of
    the times the two held; the call returns [None]. *)
Theorem ior_keeps_older_of_both (h : store) (self other : nat)
  (s o : POEManager) :
  self <> other ->
  h !! self = Some s ->
  h !! other = Some o ->
  poes_wf (_poes o) ->
  exists s',
    __ior__ self (PyManager other) h = (<[self := s']> h, Return PyNone)
    /\ (forall d, stored_time s' d = older (stored_time s d) (stored_time o d))
    /\ _current_dt_override s' = _current_dt_override s.
Proof.
  intros Hne Hs Ho Hwf.
  exists (fst (register_all s (values o))). repeat split.
  - unfold __ior__. rewrite Ho.
    rewrite (ior_loop_other _ 0 self other h s o Hne Hs Ho).
    rewrite drop_0, <- values_length, firstn_all. done.
  - intros d. rewrite register_all_stored, supplied_times_values by done.
    apply min_times_older.
  - clear. generalize (values o). intros ps. revert s.
    induction ps as [|p ps IH]; intros s; [done|].
    rewrite register_all_cons. simpl. by rewrite IH, register_known_poe_override.
Qed.

Section DigestFacts.
Variable digest_for_poe : list Z -> N.

(** X3.  Reading the POE time of an item twice gives the same time, when the
    clock does not run backwards between the two reads: the second
    [__getitem__] returns what the first returned and leaves the manager as
    the first left it. *)
Theorem getitem_is_stable (now1 now2 : Z) (self : POEManager)
  (item : list Z) :
  now1 <= now2 ->
  let '(self1, t1) := __getitem__ digest_for_poe now1 self item in
  __getitem__ digest_for_poe now2 self1 item = (self1, t1).
Proof.
  intros Hclock.
  unfold __getitem__, register, register_by_digest, register_known_poe.
  simpl.
  destruct self as [m ov]. simpl.
  set (d := digest_for_poe item).
  destruct ov as [t|]; simpl;
    destruct (m !! d) as [cur|] eqn:E; simpl;
    repeat (match goal with
            | |- context [?x <=? ?y] => destruct (Z.leb_spec x y); simpl
            | |- context [<[d := ?p]> m !! d] => rewrite lookup_insert_eq; simpl
            | |- context [m !! d] => rewrite E; simpl
            end);
    try done; lia.
Qed.

End DigestFacts.

Lemma ior_keeps_older_of_both_witness :
  exists s',
    __ior__ 0 (PyManager 1) {[0%nat := init None; 1%nat := two_poes]}
    = (<[0%nat := s']> {[0%nat := init None; 1%nat := two_poes]},
       Return PyNone)
    /\ (forall d, stored_time s' d
                  = older (stored_time (init None) d) (stored_time two_poes d))
    /\ _current_dt_override s' = _current_dt_override (init None).
Proof.
  apply (ior_keeps_older_of_both
           {[0%nat := init None; 1%nat := two_poes]} 0 1 (init None) two_poes).
  - lia.
  - reflexivity.
  - reflexivity.
  - apply poes_wf_register_all, poes_wf_init.
Defined.

Lemma registration_order_is_irrelevant_witness :
  fst (register_all (init None) [mkKnownPOE 1 10; mkKnownPOE 1 5])
  = fst (register_all (init None) [mkKnownPOE 1 5; mkKnownPOE 1 10]).
Proof.
  apply (registration_order_is_irrelevant (init None)
           [mkKnownPOE 1 10; mkKnownPOE 1 5] [mkKnownPOE 1 5; mkKnownPOE 1 10]).
  apply perm_swap.
Defined.

Lemma getitem_is_stable_witness :
  __getitem__ (fun _ => 7%N) 200
    (fst (__getitem__ (fun _ => 7%N) 100 (init None) [1; 2; 3])) [1; 2; 3]
  = __getitem__ (fun _ => 7%N) 100 (init None) [1; 2; 3].
Proof.
  apply (getitem_is_stable (fun _ => 7%N) 100 200 (init None) [1; 2; 3]).
  lia.
Defined.

End PoeReadsFacts.

(* ===================================================================== *)
(** * Properties of validate.py: the path loop                         *)
(* ===================================================================== *)

Module ValidatePathFacts.
Import Validate ValidatePath ValidateFacts.

Section PathFacts.

Context {PolicySet SubtreeMap PolicyTreeRoot PublicKeyInfo Name : Type}.
Context `{EqDecision Name}.
Context {PolicyInformation PolicyMapping PolicyMap GeneralSubtrees
         DSAParams QualifiedPolicies : Type}.
Context {oracles : @PathOracles PolicySet SubtreeMap PolicyTreeRoot
                     PublicKeyInfo Name PolicyInformation PolicyMapping
                     PolicyMap GeneralSubtrees DSAParams QualifiedPolicies}.

Local Abbreviation State :=
  (@_PathValidationState SubtreeMap PolicyTreeRoot PublicKeyInfo Name).
Local Abbreviation Certificate :=
  (@Certificate PublicKeyInfo Name PolicyInformation PolicyMapping
     GeneralSubtrees).
Local Abbreviation TrustAnchor :=
  (@TrustAnchor PolicySet SubtreeMap PublicKeyInfo Name).
Local Abbreviation PKIXValidationParams :=
  (@PKIXValidationParams PolicySet SubtreeMap).

Lemma decrement_le (x : Z) : decrement x <= x.
Proof. unfold decrement. case_bool_decide; lia. Qed.

Lemma update_policy_restrictions_shape (state : State) (cert : Certificate) :
  exists ep iap pm,
    update_policy_restrictions state cert = with_counters state ep iap pm
    /\ ep <= explicit_policy state
    /\ pm <= policy_mapping state
    /\ iap <= inhibit_any_policy state
    /\ (forall pc r, policy_constraints_value cert = Some pc ->
          require_explicit_policy pc = Some r -> ep <= r)
    /\ (forall pc i, policy_constraints_value cert = Some pc ->
          inhibit_policy_mapping pc = Some i -> pm <= i)
    /\ (forall v, inhibit_any_policy_value cert = Some v -> iap <= v).
Proof.
  unfold update_policy_restrictions.
  pose proof (decrement_le (explicit_policy state)).
  pose proof (decrement_le (policy_mapping state)).
  pose proof (decrement_le (inhibit_any_policy state)).
  destruct (self_issued cert); simpl;
    destruct (policy_constraints_value cert) as [[[r|] [i|]]|];
    destruct (inhibit_any_policy_value cert) as [v|]; simpl;
    do 3 eexists; (split; [reflexivity|]);
    repeat split; intros; simplify_eq/=; lia.
Qed.

(** X4.  [update_policy_restrictions] never raises a counter: after the
    call, [explicit_policy], [policy_mapping] and [inhibit_any_policy] are at
    most what they were, and at most the values of the policy-constraints
    and inhibit-any-policy extensions of the certificate when these are
    present; nothing else in the state changes. *)
Theorem policy_counters_never_increase (state : State) (cert : Certificate) :
  let state' := update_policy_restrictions state cert in
  explicit_policy state' <= explicit_policy state
  /\ policy_mapping state' <= policy_mapping state
  /\ inhibit_any_policy state' <= inhibit_any_policy state
  /\ (forall pc r, policy_constraints_value cert = Some pc ->
        require_explicit_policy pc = Some r -> explicit_policy state' <= r)
  /\ (forall pc i, policy_constraints_value cert = Some pc ->
        inhibit_policy_mapping pc = Some i -> policy_mapping state' <= i)
  /\ (forall v, inhibit_any_policy_value cert = Some v ->
        inhibit_any_policy state' <= v)
  /\ with_counters state' (explicit_policy state) (inhibit_any_policy state)
       (policy_mapping state) = state.
Proof.
  destruct (update_policy_restrictions_shape state cert)
    as (ep & iap & pm & -> & ? & ? & ? & ? & ? & ?).
  simpl. repeat split; try done. by destruct state.
Qed.

Lemma constrain_names_shape (cert : Certificate) (state : State) :
  exists p e, constrain_names cert state = with_subtrees state p e.
Proof.
  unfold constrain_names.
  destruct (name_constraints_value cert) as [nc|]; [by eauto|].
  exists (permitted_subtrees state), (excluded_subtrees state).
  by destruct state.
Qed.

Lemma process_policies_inv (s s' : State) (index : Z)
  (policies : option (list PolicyInformation)) (uninhibited : bool) :
  process_policies s index policies uninhibited = Return s' ->
  exists t, s' = with_tree s t
  /\ (valid_policy_tree s = None -> t = None)
  /\ (policies = None -> t = None)
  /\ (t = None -> 0 < explicit_policy s).
Proof.
  unfold process_policies.
  destruct policies as [[|p ps]|], (valid_policy_tree s) as [t|] eqn:Ht;
    try destruct (update_policy_tree _ _ _ _);
    try destruct (Z.leb_spec (explicit_policy s) 0);
    intros [= <-]; eexists; (split; [reflexivity|]);
    repeat split; intros; try done; lia.
Qed.

Lemma check_aa_inv (aa : option AAControls) (s s' : State) (index : Z) :
  _check_aa_controls aa s index = Return s' ->
  exists u m, s' = set_aa s u m.
Proof.
  unfold _check_aa_controls.
  destruct aa as [[[n|]]|]; simpl;
    destruct (aa_controls_used s) eqn:Hu, (index >? 1); simpl;
    try destruct (st_max_aa_path_length s) as [m|] eqn:Hm;
    try destruct (n <? m); intros [= <-]; try by eauto.
  all: exists false, (st_max_aa_path_length s); destruct s; simpl in *; by subst.
Qed.

Lemma map_policies_inv (index : Z) (cert : Certificate) (s s' : State) :
  map_policies index cert s = Return s' ->
  exists t, s' = with_tree s t
  /\ (valid_policy_tree s = None -> t = None).
Proof.
  unfold map_policies.
  destruct (policy_mappings_value cert) as [[|m ms]|];
    try destruct (enumerate_policy_mappings _);
    try destruct (valid_policy_tree s) eqn:Ht;
    intros [= <-];
    first [ by (eexists; split; [reflexivity|congruence])
          | exists (valid_policy_tree s); split; [by destruct s|done] ].
Qed.

Lemma prepare_next_step_inv (index : Z) (cert : Certificate) (s s' : State) :
  _prepare_next_step index cert s = Return s' ->
  ca cert = true
  /\ (forall ku, key_usage_value cert = Some ku -> "key_cert_sign"%string ∈ ku)
  /\ working_issuer_name s' = subject cert
  /\ (valid_policy_tree s = None -> valid_policy_tree s' = None)
  /\ explicit_policy s' <= explicit_policy s
  /\ policy_mapping s' <= policy_mapping s
  /\ inhibit_any_policy s' <= inhibit_any_policy s
  /\ (self_issued cert = false -> st_max_path_length s <> 0)
  /\ st_max_path_length s' = next_max_path_length cert (st_max_path_length s)
  /\ aa_controls_used s' = aa_controls_used s.
Proof.
  unfold _prepare_next_step.
  destruct (map_policies index cert s) as [s1|] eqn:E1; [|done].
  apply map_policies_inv in E1 as (t & -> & Htree).
  destruct (constrain_names_shape cert
              (with_working (with_tree s t)
                 (next_working_key cert (with_tree s t)) (subject cert)))
    as (p & e & ->).
  destruct (update_policy_restrictions_shape
              (with_subtrees
                 (with_working (with_tree s t)
                    (next_working_key cert (with_tree s t)) (subject cert))
                 p e) cert)
    as (ep & iap & pm & -> & Hep & Hpm & Hiap & _).
  simpl in Hep, Hpm, Hiap.
  destruct (ca cert); simpl; [|done].
  unfold count_down, next_max_path_length. simpl.
  destruct (self_issued cert) eqn:Hsi; simpl.
  - destruct (cert_max_path_length cert) as [m|];
      try destruct (Z.ltb_spec m (st_max_path_length s));
      destruct (key_usage_value cert) as [ku|];
      try case_bool_decide; intros [= <-]; simpl;
      repeat split; intros; simplify_eq; try done; try lia; auto.
  - destruct (Z.eqb_spec (st_max_path_length s) 0); [done|].
    destruct (st_max_aa_path_length s) as [maa|]; [|done].
    destruct (maa =? 0); [done|]. simpl.
    destruct (cert_max_path_length cert) as [m|];
      try destruct (Z.ltb_spec m (st_max_path_length s - 1));
      destruct (key_usage_value cert) as [ku|];
      try case_bool_decide; intros [= <-]; simpl;
      repeat split; intros; simplify_eq; try done; try lia; auto.
Qed.


Lemma difference_empty_subseteq (X Y : gset string) : X ∖ Y = ∅ -> X ⊆ Y.
Proof.
  intros HE e He. destruct (decide (e ∈ Y)) as [|Hn]; [done|]. exfalso.
  apply (not_elem_of_empty (C:=gset string) e). rewrite <- HE.
  by apply elem_of_difference.
Qed.

Lemma validate_cert_inv (moment tolerance : Z) (weak : gset string)
  (path_length index : Z) (cert : Certificate) (s s' : State) :
  validate_cert moment tolerance weak path_length index cert s = Return s' ->
  checked moment tolerance weak index cert
  /\ ValidatePath.validate_sig cert (working_public_key s) = SignatureValid
  /\ issuer cert = working_issuer_name s
  /\ (certificate_policies_value cert = None \/ valid_policy_tree s = None ->
      valid_policy_tree s' = None /\ 0 < explicit_policy s)
  /\ explicit_policy s' <= explicit_policy s
  /\ policy_mapping s' <= policy_mapping s
  /\ inhibit_any_policy s' <= inhibit_any_policy s
  /\ (index < path_length ->
      ca cert = true
      /\ (forall ku, key_usage_value cert = Some ku ->
            "key_cert_sign"%string ∈ ku)
      /\ working_issuer_name s' = subject cert
      /\ (self_issued cert = false -> st_max_path_length s <> 0)
      /\ st_max_path_length s' =
           next_max_path_length cert (st_max_path_length s))
  /\ (path_length <= index ->
      working_issuer_name s' = working_issuer_name s
      /\ st_max_path_length s' = st_max_path_length s).
Proof.
  unfold validate_cert, checked, check_certificate_signature.
  case_bool_decide as Hweak; [done|].
  destruct (ValidatePath.validate_sig cert (working_public_key s)) eqn:Hsig;
    try done.
  destruct (is_whitelisted cert) eqn:Hwl; cbn [negb].
  2: destruct (_check_validity (validity cert) moment tolerance)
       as [[]|] eqn:Hval; [|done].
  2: assert (Hv : not_before (validity cert) - tolerance <= moment
                  <= not_after (validity cert) + tolerance)
       by (by apply check_validity_returns).
  all: destruct (check_revocation index cert) as [[]|] eqn:Hrev; try done.
  all: case_bool_decide as Hiss; [done|].
  all: destruct (if bool_decide (index = path_length) || negb (self_issued cert)
                 then check_name_constraints s cert else Return ()); try done.
  all: destruct (process_policies s index _ _) as [s1|] eqn:Hpol; try done.
  all: apply process_policies_inv in Hpol as (t & -> & Ht1 & Ht2 & Ht3).
  all: destruct (Z.ltb_spec index path_length) as [Hlt|Hge]; cbv beta iota.
  all: try (destruct (_prepare_next_step index cert (with_tree s t))
              as [s2|] eqn:Hprep; try done;
            apply prepare_next_step_inv in Hprep
              as (Hca & Hku & Hname & Htree & Hep & Hpm & Hiap & Hnz & Hmpl & _);
            simpl in Htree, Hep, Hpm, Hiap, Hnz, Hmpl).
  all: destruct (_check_aa_controls _ _ index) as [s3|] eqn:Haa; [|done].
  all: apply check_aa_inv in Haa as (u & maa & ->).
  all: case_bool_decide as Hcrit; [done|]; intros [= <-]; simpl.
  all: assert (critical_extensions cert ⊆ SUPPORTED_EXTENSIONS)
         by (by apply difference_empty_subseteq).
  all: repeat split; try done; try lia; try discriminate.
  all: match goal with
       | Hor : _ \/ _ |- _ =>
           assert (t = None) by (destruct Hor; auto); auto
       end.
Qed.

Lemma path_loop_cons_inv (moment tolerance : Z) (weak : gset string)
  (path_length index : Z) (cert : Certificate) (rest recorded : list Certificate)
  (s s' : State) :
  path_loop moment tolerance weak path_length index (cert :: rest) s
    = (recorded, Return s') ->
  exists s1 recorded',
    validate_cert moment tolerance weak path_length index cert s = Return s1
    /\ path_loop moment tolerance weak path_length (index + 1) rest s1
         = (recorded', Return s')
    /\ recorded = cert :: recorded'.
Proof.
  simpl.
  destruct (validate_cert _ _ _ _ _ _ _) as [s1|]; [|done].
  destruct (path_loop _ _ _ _ _ _ _) as [recorded' r] eqn:E.
  intros [= <- ->]. by exists s1, recorded'.
Qed.


Lemma intermediates_cons (cert : Certificate) (rest : list Certificate) :
  rest <> [] -> intermediates (cert :: rest) = cert :: intermediates rest.
Proof. by destruct rest. Qed.

Lemma not_self_issued_count_cons (cert : Certificate)
  (certs : list Certificate) :
  not_self_issued_count (cert :: certs) =
    (if self_issued cert then 0 else 1) + not_self_issued_count certs.
Proof.
  unfold not_self_issued_count. rewrite filter_cons.
  destruct (self_issued cert); simpl; [done|].
  rewrite Nat2Z.inj_succ. lia.
Qed.

Section LoopFacts.

Variables (moment tolerance : Z) (weak : gset string) (path_length : Z).

Let loop := path_loop moment tolerance weak path_length.
Let step := validate_cert moment tolerance weak path_length.

Lemma path_loop_recorded (certs : list Certificate) (index : Z) (s : State) :
  fst (loop index certs s) `prefix_of` certs
  /\ match snd (loop index certs s) with
     | Return _ => fst (loop index certs s) = certs
     | Raise _ => (length (fst (loop index certs s)) < length certs)%nat
     end.
Proof.
  revert index s. induction certs as [|cert rest IH]; intros index s.
  - simpl. split; [done|done].
  - unfold loop in *. simpl.
    destruct (validate_cert _ _ _ _ _ _ _) as [s1|e]; simpl.
    + specialize (IH (index + 1) s1).
      destruct (path_loop _ _ _ _ _ _ _) as [recorded r]. simpl in *.
      destruct IH as [Hp Hr]. split; [by apply prefix_cons|].
      destruct r; [by f_equal|lia].
    + split; [apply prefix_nil|lia].
Qed.

Lemma path_loop_app_inv (pre post recorded : list Certificate) (index : Z)
  (s s' : State) :
  loop index (pre ++ post) s = (recorded, Return s') ->
  exists s1 recorded1 recorded2,
    loop index pre s = (recorded1, Return s1)
    /\ loop (index + Z.of_nat (length pre)) post s1 = (recorded2, Return s').
Proof.
  revert index s recorded.
  induction pre as [|cert pre IH]; intros index s recorded.
  - simpl. rewrite Z.add_0_r. intros Hl. by exists s, [], recorded.
  - rewrite <- app_comm_cons. intros Hl.
    apply path_loop_cons_inv in Hl as (s1 & recorded' & Hs & Hl & ->).
    apply IH in Hl as (s2 & r1 & r2 & Hl1 & Hl2).
    exists s2, (cert :: r1), r2. split.
    + unfold loop in *. simpl. by rewrite Hs, Hl1.
    + rewrite <- Hl2. f_equal. simpl length. lia.
Qed.

Lemma complete_run_cons (index : Z) (cert : Certificate)
  (rest : list Certificate) :
  complete_run path_length index (cert :: rest) ->
  complete_run path_length (index + 1) rest
  /\ (rest <> [] -> index < path_length)
  /\ (rest = [] -> path_length <= index).
Proof.
  unfold complete_run. simpl length. intros Hc. repeat split.
  - lia.
  - intros Hne. destruct rest; [done|]. simpl length in Hc. lia.
  - intros ->. simpl in Hc. lia.
Qed.

Lemma path_loop_chained (certs recorded : list Certificate) (index : Z)
  (s s' : State) :
  loop index certs s = (recorded, Return s') ->
  complete_run path_length index certs ->
  chained (working_issuer_name s) certs.
Proof.
  revert index s recorded.
  induction certs as [|cert rest IH]; intros index s recorded Hl Hc; [done|].
  apply path_loop_cons_inv in Hl as (s1 & recorded' & Hs & Hl & ->).
  apply validate_cert_inv in Hs
    as (_ & _ & Hiss & _ & _ & _ & _ & Hint & _).
  apply complete_run_cons in Hc as (Hc & Hlt & _).
  split; [done|].
  destruct rest as [|cert' rest]; [done|].
  destruct Hint as (_ & _ & <- & _); [by apply Hlt|].
  by eapply IH.
Qed.

Lemma path_loop_intermediates (certs recorded : list Certificate) (index : Z)
  (s s' : State) :
  loop index certs s = (recorded, Return s') ->
  complete_run path_length index certs ->
  Forall (fun c => ca c = true
                   /\ forall ku, key_usage_value c = Some ku ->
                        "key_cert_sign"%string ∈ ku)
    (intermediates certs).
Proof.
  revert index s recorded.
  induction certs as [|cert rest IH]; intros index s recorded Hl Hc;
    [by constructor|].
  apply path_loop_cons_inv in Hl as (s1 & recorded' & Hs & Hl & ->).
  apply validate_cert_inv in Hs
    as (_ & _ & _ & _ & _ & _ & _ & Hint & _).
  apply complete_run_cons in Hc as (Hc & Hlt & _).
  destruct rest as [|cert' rest]; [by constructor|].
  rewrite intermediates_cons by done.
  destruct Hint as (Hca & Hku & _); [by apply Hlt|].
  constructor; [done|]. by eapply IH.
Qed.

Lemma path_loop_checked (certs recorded : list Certificate) (index : Z)
  (s s' : State) (i : nat) (cert : Certificate) :
  loop index certs s = (recorded, Return s') ->
  certs !! i = Some cert ->
  checked moment tolerance weak (index + Z.of_nat i) cert.
Proof.
  revert index s recorded i.
  induction certs as [|c rest IH]; intros index s recorded i Hl Hi; [done|].
  apply path_loop_cons_inv in Hl as (s1 & recorded' & Hs & Hl & ->).
  apply validate_cert_inv in Hs as (Hchk & _).
  destruct i as [|i]; simpl in Hi.
  - injection Hi as <-. by rewrite Z.add_0_r.
  - replace (index + Z.of_nat (S i)) with (index + 1 + Z.of_nat i) by lia.
    by eapply IH.
Qed.

Lemma path_loop_policies (certs recorded : list Certificate) (index : Z)
  (s s' : State) :
  loop index certs s = (recorded, Return s') ->
  explicit_policy s' <= explicit_policy s
  /\ (valid_policy_tree s = None
      \/ Exists (fun c => certificate_policies_value c = None) certs ->
      valid_policy_tree s' = None)
  /\ (explicit_policy s <= 0 ->
      Forall (fun c => certificate_policies_value c <> None) certs).
Proof.
  revert index s recorded.
  induction certs as [|cert rest IH]; intros index s recorded Hl.
  - injection Hl as <- <-. repeat split; [lia| |by constructor].
    intros [?|Hex]; [done|]. by apply Exists_nil in Hex.
  - apply path_loop_cons_inv in Hl as (s1 & recorded' & Hs & Hl & ->).
    apply validate_cert_inv in Hs
      as (_ & _ & _ & Htree & Hep & _).
    apply IH in Hl as (Hep' & Htree' & Hall).
    repeat split; [lia| |].
    + intros [Hn|Hex].
      * apply Htree'. left. apply Htree. by right.
      * apply Exists_cons in Hex as [Hn|Hex].
        -- apply Htree'. left. apply Htree. by left.
        -- apply Htree'. by right.
    + intros Hle. constructor.
      * intros Hn. destruct Htree as [_ Hlt]; [by left|]. lia.
      * apply Hall. lia.
Qed.

Lemma path_loop_lengths (certs recorded : list Certificate) (index : Z)
  (s s' : State) :
  loop index certs s = (recorded, Return s') ->
  complete_run path_length index certs ->
  path_lengths_sane certs ->
  0 <= st_max_path_length s ->
  not_self_issued_count (intermediates certs) <= st_max_path_length s.
Proof.
  revert index s recorded.
  induction certs as [|cert rest IH]; intros index s recorded Hl Hc Hsane Hnn;
    [done|].
  apply path_loop_cons_inv in Hl as (s1 & recorded' & Hs & Hl & ->).
  apply validate_cert_inv in Hs
    as (_ & _ & _ & _ & _ & _ & _ & Hint & _).
  apply complete_run_cons in Hc as (Hc & Hlt & _).
  apply Forall_cons in Hsane as [Hm Hsane].
  destruct rest as [|cert' rest]; [done|].
  rewrite intermediates_cons by done.
  destruct Hint as (_ & _ & _ & Hnz & Hmpl); [by apply Hlt|].
  rewrite not_self_issued_count_cons.
  assert (Hnext : 0 <= st_max_path_length s1
                  /\ st_max_path_length s1 + (if self_issued cert then 0 else 1)
                     <= st_max_path_length s).
  { rewrite Hmpl. unfold next_max_path_length.
    destruct (self_issued cert);
      [|specialize (Hnz eq_refl)];
      destruct (cert_max_path_length cert) as [m|];
      try specialize (Hm m eq_refl); lia. }
  destruct Hnext as [Hnn1 Hle].
  specialize (IH (index + 1) s1 recorded' Hl Hc Hsane Hnn1). lia.
Qed.

Lemma path_loop_lengths_nonneg (certs recorded : list Certificate)
  (index : Z) (s s' : State) :
  loop index certs s = (recorded, Return s') ->
  path_lengths_sane certs ->
  0 <= st_max_path_length s ->
  0 <= st_max_path_length s'.
Proof.
  revert index s recorded.
  induction certs as [|cert rest IH]; intros index s recorded Hl Hsane Hnn.
  - by injection Hl as <- <-.
  - apply path_loop_cons_inv in Hl as (s1 & recorded' & Hs & Hl & ->).
    apply validate_cert_inv in Hs
      as (_ & _ & _ & _ & _ & _ & _ & Hint & Hlast).
    apply Forall_cons in Hsane as [Hm Hsane].
    eapply IH; [done|done|].
    destruct (Z.lt_ge_cases index path_length) as [Hlt|Hge].
    + destruct Hint as (_ & _ & _ & Hnz & ->); [done|].
      unfold next_max_path_length.
      destruct (self_issued cert);
        [|specialize (Hnz eq_refl)];
        destruct (cert_max_path_length cert) as [m|];
        try specialize (Hm m eq_refl); lia.
    + destruct Hlast as [_ ->]; done.
Qed.

End LoopFacts.


(** ** [intl_validate_path] *)

Lemma initial_facts (path_length : Z) (trust_anchor : TrustAnchor)
  (parameters : option PKIXValidationParams) :
  let s := fst (initial path_length trust_anchor parameters) in
  working_issuer_name s = authority_name trust_anchor
  /\ st_max_path_length s =
       default path_length (max_path_length (trust_qualifiers trust_anchor))
  /\ (forall p, parameters = Some p -> initial_explicit_policy p = true ->
        explicit_policy s = 0).
Proof.
  unfold initial, init_pkix_validation_state.
  destruct parameters as [p|],
    (standard_parameters (trust_qualifiers trust_anchor)) as [q|];
    simpl; repeat split; try done;
    try (by destruct (max_path_length (trust_qualifiers trust_anchor)));
    intros p' [= <-] ->; done.
Qed.

Lemma intl_validate_path_inv (moment tolerance : Z) (weak : gset string)
  (trust_anchor : TrustAnchor) (anchor_cert : option Certificate)
  (certs recorded : list Certificate)
  (parameters : option PKIXValidationParams)
  (res : option Certificate * option QualifiedPolicies) :
  intl_validate_path moment tolerance weak trust_anchor anchor_cert certs
    parameters = (recorded, Return res) ->
  let path_length := Z.of_nat (length certs) in
  let init := initial path_length trust_anchor parameters in
  exists s',
    path_loop moment tolerance weak path_length 1 certs (fst init)
      = (certs, Return s')
    /\ recorded = option_list anchor_cert ++ certs
    /\ match last (option_list anchor_cert ++ certs) with
       | Some cert =>
           exists qualified_policies,
             res = (Some cert, Some qualified_policies)
             /\ snd (_finish_policy_processing s' cert (snd init) path_length)
                = Return qualified_policies
       | None => res = (None, None)
       end.
Proof.
  unfold intl_validate_path, initial. cbv zeta.
  destruct (init_pkix_validation_state _ _ _ _ _ _ _ _ _ _ _)
    as [state acceptable_policies].
  pose proof (path_loop_recorded moment tolerance weak
                (Z.of_nat (length certs)) certs 1 state) as [_ Hrec].
  destruct (path_loop _ _ _ _ _ _ _) as [recorded' [s'|e]]; [|done].
  cbn [fst snd] in *. subst recorded'.
  destruct (last (option_list anchor_cert ++ certs)) as [cert|].
  - destruct (snd (_finish_policy_processing s' cert acceptable_policies _))
      as [qp|] eqn:Hf; [|done].
    intros [= <- <-]. exists s'. repeat split. by exists qp.
  - intros [= <- <-]. by exists s'.
Qed.

Lemma complete_run_whole (certs : list Certificate) :
  complete_run (Z.of_nat (length certs)) 1 certs.
Proof. unfold complete_run. lia. Qed.

Section Success.

Variables (moment tolerance : Z) (weak_hash_algos : gset string).
Variables (trust_anchor : TrustAnchor) (anchor_cert : option Certificate).
Variables (certs recorded : list Certificate).
Variable parameters : option PKIXValidationParams.
Variable res : option Certificate * option QualifiedPolicies.

Hypothesis validated :
  intl_validate_path moment tolerance weak_hash_algos trust_anchor anchor_cert
    certs parameters = (recorded, Return res).

(** X5.  In a path that [intl_validate_path] accepts, the issuer of the
    first certificate is the name of the trust anchor and the issuer of every
    other certificate is the subject of the certificate before it. *)
Theorem validated_path_is_chained :
  chained (authority_name trust_anchor) certs.
Proof.
  destruct (intl_validate_path_inv _ _ _ _ _ _ _ _ _ validated)
    as (s' & Hloop & _).
  destruct (initial_facts (Z.of_nat (length certs)) trust_anchor parameters)
    as (<- & _).
  eapply path_loop_chained; [exact Hloop|apply complete_run_whole].
Qed.

(** X6.  In a path that [intl_validate_path] accepts, every certificate
    before the last one is a CA certificate, and when it has a key usage
    extension, that extension allows it to sign certificates. *)
Theorem validated_intermediates_are_cas :
  Forall (fun c => ca c = true
                   /\ forall ku, key_usage_value c = Some ku ->
                        "key_cert_sign"%string ∈ ku)
    (intermediates certs).
Proof.
  destruct (intl_validate_path_inv _ _ _ _ _ _ _ _ _ validated)
    as (s' & Hloop & _).
  eapply path_loop_intermediates; [exact Hloop|apply complete_run_whole].
Qed.

(** X7.  In a path that [intl_validate_path] accepts, every certificate is
    signed with a hash algorithm that is not weak, is within its validity
    period at the moment of validation (with the tolerance) unless it is
    whitelisted, has passed the revocation check at its position, and has no
    critical extension outside [SUPPORTED_EXTENSIONS]. *)
Theorem validated_certificates_are_checked (i : nat) (cert : Certificate) :
  certs !! i = Some cert ->
  checked moment tolerance weak_hash_algos (Z.of_nat i + 1) cert.
Proof.
  destruct (intl_validate_path_inv _ _ _ _ _ _ _ _ _ validated)
    as (s' & Hloop & _).
  intros Hi. rewrite Z.add_comm. by eapply path_loop_checked.
Qed.

(** X8.  Path length constraints: when no constraint is negative, a path
    that [intl_validate_path] accepts has at most [max_path_length]
    intermediate certificates that are not self-issued, for the
    [max_path_length] of the trust anchor, and after a CA certificate with
    path length constraint [m] at most [m] of them. *)
Theorem validated_path_respects_path_lengths :
  (forall M, max_path_length (trust_qualifiers trust_anchor) = Some M ->
     0 <= M) ->
  path_lengths_sane certs ->
  (forall M, max_path_length (trust_qualifiers trust_anchor) = Some M ->
     not_self_issued_count (intermediates certs) <= M)
  /\ (forall pre cert post m,
        certs = pre ++ cert :: post -> post <> [] ->
        cert_max_path_length cert = Some m ->
        not_self_issued_count (intermediates post) <= m).
Proof.
  intros Hanchor Hsane.
  destruct (intl_validate_path_inv _ _ _ _ _ _ _ _ _ validated)
    as (s' & Hloop & _).
  destruct (initial_facts (Z.of_nat (length certs)) trust_anchor parameters)
    as (_ & Hmpl & _).
  assert (Hnn : 0 <= st_max_path_length
                       (fst (initial (Z.of_nat (length certs)) trust_anchor
                               parameters))).
  { rewrite Hmpl.
    destruct (max_path_length (trust_qualifiers trust_anchor)) as [M|] eqn:HM;
      simpl; [by apply Hanchor|lia]. }
  split.
  - intros M HM. rewrite HM in Hmpl. simpl in Hmpl. rewrite <- Hmpl.
    eapply path_loop_lengths;
      [exact Hloop|apply complete_run_whole|done|done].
  - intros pre cert post m -> Hpost Hm.
    apply Forall_app in Hsane as [Hsane_pre Hsane_post].
    apply Forall_cons in Hsane_post as [Hm' Hsane_post].
    specialize (Hm' m Hm).
    apply path_loop_app_inv in Hloop as (s1 & r1 & r2 & Hpre & Hrest).
    apply path_loop_cons_inv in Hrest as (s2 & r3 & Hstep & Hrest & _).
    pose proof (path_loop_lengths_nonneg _ _ _ _ _ _ _ _ _
                  Hpre Hsane_pre Hnn) as Hnn1.
    apply validate_cert_inv in Hstep
      as (_ & _ & _ & _ & _ & _ & _ & Hint & _).
    destruct Hint as (_ & _ & _ & Hnz & Hnext).
    { rewrite length_app. simpl length. destruct post; [done|].
      simpl length. lia. }
    assert (Hs2 : 0 <= st_max_path_length s2 <= m).
    { rewrite Hnext. unfold next_max_path_length. rewrite Hm.
      destruct (self_issued cert); [|specialize (Hnz eq_refl)]; lia. }
    etrans; [|apply Hs2].
    eapply path_loop_lengths; [exact Hrest| |done|lia].
    unfold complete_run. rewrite length_app. simpl length. lia.
Qed.

(** X9.  A certificate without a certificate policies extension empties
    the policies of the whole path: when [intl_validate_path] accepts a path
    that has such a certificate, the qualified policies it sets are the empty
    set. *)
Theorem validated_path_without_policies :
  Exists (fun c => certificate_policies_value c = None) certs ->
  intl_validate_path moment tolerance weak_hash_algos trust_anchor anchor_cert
    certs parameters = (recorded, Return (fst res, Some no_policies)).
Proof.
  intros Hex. rewrite validated. do 2 f_equal.
  rewrite (surjective_pairing res) at 1. f_equal.
  destruct (intl_validate_path_inv _ _ _ _ _ _ _ _ _ validated)
    as (s' & Hloop & _ & Hres).
  apply path_loop_policies in Hloop as (_ & Htree & _).
  specialize (Htree (or_intror Hex)).
  destruct (last (option_list anchor_cert ++ certs)) as [cert|] eqn:Hlast.
  - destruct Hres as (qp & -> & Hqp). simpl. f_equal.
    unfold _finish_policy_processing in Hqp. simpl in Hqp.
    rewrite Htree in Hqp.
    repeat case_match; simpl in Hqp; by simplify_eq.
  - apply last_None in Hlast. apply app_eq_nil in Hlast as [_ ->].
    by apply Exists_nil in Hex.
Qed.

(** X10.  When the caller requires an explicit policy
    ([initial_explicit_policy] of the parameters), [intl_validate_path]
    accepts a path only if every certificate of it has a certificate
    policies extension. *)
Theorem explicit_policy_needs_policies_everywhere
  (p : PKIXValidationParams) :
  parameters = Some p ->
  initial_explicit_policy p = true ->
  Forall (fun c => certificate_policies_value c <> None) certs.
Proof.
  intros Hp Hflag.
  destruct (intl_validate_path_inv _ _ _ _ _ _ _ _ _ validated)
    as (s' & Hloop & _).
  destruct (initial_facts (Z.of_nat (length certs)) trust_anchor parameters)
    as (_ & _ & Hep).
  apply path_loop_policies in Hloop as (_ & _ & Hall).
  apply Hall. rewrite (Hep p Hp Hflag). lia.
Qed.

End Success.

(** X11.  [intl_validate_path] records the certificate of the trust anchor
    as validated before any check, and a certificate of the path only once
    all the checks of its step have passed: the recorded certificates are
    the anchor's certificate followed by a prefix of the path, which is the
    whole path whenever the call returns and is shorter only when it
    raises. *)
Theorem recorded_validations_are_a_prefix (moment tolerance : Z)
  (weak_hash_algos : gset string) (trust_anchor : TrustAnchor)
  (anchor_cert : option Certificate) (certs : list Certificate)
  (parameters : option PKIXValidationParams) :
  let run :=
    intl_validate_path moment tolerance weak_hash_algos trust_anchor
      anchor_cert certs parameters in
  exists validated_certs,
    fst run = option_list anchor_cert ++ validated_certs
    /\ validated_certs `prefix_of` certs
    /\ (validated_certs <> certs -> is_raise (snd run))
    /\ (forall res, snd run = Return res -> validated_certs = certs).
Proof.
  unfold intl_validate_path. cbv zeta.
  destruct (init_pkix_validation_state _ _ _ _ _ _ _ _ _ _ _)
    as [state acceptable_policies].
  pose proof (path_loop_recorded moment tolerance weak_hash_algos
                (Z.of_nat (length certs)) certs 1 state) as [Hpre Hrec].
  destruct (path_loop _ _ _ _ _ _ _) as [recorded' [s'|e]]; cbn [fst snd] in *.
  - subst recorded'. exists certs.
    destruct (last (option_list anchor_cert ++ certs)) as [cert|];
      [destruct (snd (_finish_policy_processing s' cert acceptable_policies _))
      |]; by simpl.
  - exists recorded'. split; [done|]. split; [done|]. split; [done|].
    intros res [=].
Qed.

End PathFacts.

Lemma validated_path_is_chained_witness :
  chained (authority_name example_anchor) [example_intermediate; example_leaf].
Proof.
  eapply (validated_path_is_chained (oracles:=example_oracles) 500 0
            example_weak_hash_algos example_anchor None _ _ None).
  vm_compute. reflexivity.
Defined.

Lemma validated_intermediates_are_cas_witness :
  Forall (fun c => ca c = true
                   /\ forall ku, key_usage_value c = Some ku ->
                        "key_cert_sign"%string ∈ ku)
    (intermediates [example_intermediate; example_leaf]).
Proof.
  eapply (validated_intermediates_are_cas (oracles:=example_oracles) 500 0
            example_weak_hash_algos example_anchor None _ _ None).
  vm_compute. reflexivity.
Defined.

Lemma validated_certificates_are_checked_witness :
  checked (oracles:=example_oracles) 500 0 example_weak_hash_algos 2
    example_leaf.
Proof.
  apply (fun validated =>
           validated_certificates_are_checked (oracles:=example_oracles) 500 0
             example_weak_hash_algos example_anchor None
             [example_intermediate; example_leaf]
             [example_intermediate; example_leaf] None
             (Some example_leaf, Some ["policy-a"%string]) validated
             1%nat example_leaf).
  - vm_compute. reflexivity.
  - reflexivity.
Defined.

Lemma validated_path_respects_path_lengths_witness :
  not_self_issued_count (intermediates [example_intermediate; example_leaf])
  <= 1.
Proof.
  destruct (validated_path_respects_path_lengths (oracles:=example_oracles)
              500 0 example_weak_hash_algos example_anchor None
              [example_intermediate; example_leaf]
              [example_intermediate; example_leaf] None
              (Some example_leaf, Some ["policy-a"%string]))
    as [Hanchor _].
  - vm_compute. reflexivity.
  - intros M [= <-]. lia.
  - repeat constructor; intros m [= <-]; lia.
  - apply (Hanchor 1). reflexivity.
Defined.

Lemma validated_path_without_policies_witness :
  intl_validate_path (oracles:=example_oracles) 500 0 example_weak_hash_algos
    example_anchor None [example_intermediate; example_leaf_without_policies]
    None
  = ([example_intermediate; example_leaf_without_policies],
     Return (Some example_leaf_without_policies,
             Some (no_policies (PathOracles:=example_oracles)))).
Proof.
  apply (validated_path_without_policies (oracles:=example_oracles) 500 0
           example_weak_hash_algos example_anchor None
           [example_intermediate; example_leaf_without_policies]
           [example_intermediate; example_leaf_without_policies] None
           (Some example_leaf_without_policies, Some [])).
  - vm_compute. reflexivity.
  - apply Exists_cons_tl, Exists_cons_hd. reflexivity.
Defined.

Lemma explicit_policy_needs_policies_everywhere_witness :
  Forall (fun c => certificate_policies_value c <> None)
    [example_intermediate; example_leaf].
Proof.
  eapply (explicit_policy_needs_policies_everywhere (oracles:=example_oracles)
            500 0 example_weak_hash_algos example_anchor None
            [example_intermediate; example_leaf] _
            (Some example_explicit_params)).
  - vm_compute. reflexivity.
  - reflexivity.
  - reflexivity.
Defined.

End ValidatePathFacts.

(* ===================================================================== *)
(** * Properties of validate.py: revocation checks                     *)
(* ===================================================================== *)

Module CheckRevocationFacts.
Import Validate.

Lemma join_failures_messages (fl : list string) :
  join_failures (map FailureMessage fl) = Some fl.
Proof. induction fl as [|f fl IH]; simpl; [done|]. by rewrite IH. Qed.

Lemma join_failures_error (pre post : list failure_item) (e : string) :
  join_failures (pre ++ FailureError e :: post) = None.
Proof.
  induction pre as [|[s|e'] pre IH]; simpl; [done| |done]. by rewrite IH.
Qed.

(** X12.  A CRL check that succeeds settles the revocation check: in every
    run in which [verify_crl] is called and returns, [_check_revocation]
    returns, whatever the OCSP check did before. *)
Theorem good_crl_settles_revocation (cert_has_crl cert_has_ocsp : bool)
  (rev_rule : RevocationCheckingRule) (ocsp : ocsp_outcome) :
  let run :=
    _check_revocation cert_has_crl cert_has_ocsp rev_rule ocsp CRLGood in
  crl_invoked run = true -> outcome run = Return tt.
Proof.
  destruct rev_rule as [m r1 m1 r2 m2 tol str].
  destruct r1, cert_has_ocsp, ocsp, tol, m1;
    try (vm_compute; done);
    destruct m, m2, r2, cert_has_crl, str;
    vm_compute; done.
Qed.

Lemma not_in_calls (e : string) (t : list event) :
  Forall (fun ev => ev = CallVerifyOCSP \/ ev = CallVerifyCRL) t ->
  ReportSoftFail e ∉ t.
Proof.
  intros Hall Hin. rewrite Forall_forall in Hall.
  by destruct (Hall _ Hin).
Qed.

Local Ltac calls_only :=
  apply not_in_calls;
  repeat first [apply List.Forall_nil | apply List.Forall_cons; [auto|]].

Lemma ocsp_block_soft_fail (rev_rule : RevocationCheckingRule)
  (v v' : rev_vars) (ocsp : ocsp_outcome) (t : list event) (e : string) :
  ocsp_block rev_rule v ocsp = (t, Return v') ->
  ReportSoftFail e ∈ t \/ soft_fail v = true ->
  soft_fail v' = true.
Proof.
  unfold ocsp_block.
  destruct ocsp; try destruct (tolerant rev_rule);
    intros [= <- <-]; simpl; try done;
    (intros [Hin|Hs]; [|done]); exfalso; revert Hin;
    calls_only.
Qed.

Lemma crl_block_soft_fail (rev_rule : RevocationCheckingRule)
  (v v' : rev_vars) (crl : crl_outcome) (t : list event) (e : string) :
  crl_block rev_rule v crl = (t, Return v') ->
  ReportSoftFail e ∈ t \/ soft_fail v = true ->
  soft_fail v' = true.
Proof.
  unfold crl_block.
  destruct crl; try destruct (tolerant rev_rule);
    intros [= <- <-]; simpl; try done;
    (intros [Hin|Hs]; [|done]); exfalso; revert Hin;
    calls_only.
Qed.

Lemma crl_block_raises (rev_rule : RevocationCheckingRule) (v : rev_vars)
  (crl : crl_outcome) (t : list event) (e : exn) :
  crl_block rev_rule v crl = (t, Raise e) -> crl = CRLOtherError e.
Proof.
  unfold crl_block.
  destruct crl; try destruct (tolerant rev_rule); intros [= <- <-]; done.
Qed.

Lemma ocsp_block_raises (rev_rule : RevocationCheckingRule) (v : rev_vars)
  (ocsp : ocsp_outcome) (t : list event) (e : exn) :
  ocsp_block rev_rule v ocsp = (t, Raise e) -> t = [CallVerifyOCSP].
Proof.
  unfold ocsp_block.
  destruct ocsp; try destruct (tolerant rev_rule); intros [= <- <-]; done.
Qed.

(** X13.  A tolerated fetch error turns the remaining failures off: in a run
    under a rule with no mandatory check in which a fetch error was reported
    as a soft failure, [_check_revocation] returns, also when the other
    source of revocation information was indeterminate or had nothing for
    the certificate.  (An exception of [verify_crl] that the function does
    not handle still propagates.) *)
Theorem tolerated_fetch_error_masks_failures
  (cert_has_crl cert_has_ocsp : bool) (rev_rule : RevocationCheckingRule)
  (ocsp : ocsp_outcome) (crl : crl_outcome) (e : string) :
  let run := _check_revocation cert_has_crl cert_has_ocsp rev_rule ocsp crl in
  ReportSoftFail e ∈ trace run ->
  ocsp_mandatory rev_rule = false ->
  crl_mandatory rev_rule = false ->
  (forall e', crl <> CRLOtherError e') ->
  outcome run = Return tt.
Proof.
  cbv zeta. unfold _check_revocation. intros Hin Hom Hcm Hcrl. revert Hin.
  destruct (if ocsp_relevant rev_rule && cert_has_ocsp
            then ocsp_block rev_rule rev_vars_init ocsp
            else ([], Return rev_vars_init)) as [t1 [v1|e1]] eqn:E1.
  2: { simpl. intros Hin. exfalso.
       destruct (ocsp_relevant rev_rule && cert_has_ocsp); [|done].
       apply ocsp_block_raises in E1 as ->. revert Hin.
       calls_only. }
  assert (H1 : ReportSoftFail e ∈ t1 -> soft_fail v1 = true).
  { destruct (ocsp_relevant rev_rule && cert_has_ocsp).
    - intros Hin. eapply ocsp_block_soft_fail; eauto.
    - injection E1 as <- <-. intros Hin. by apply elem_of_nil in Hin. }
  rewrite Hom, Hcm, !andb_false_r. cbn [orb].
  match goal with
  | |- context [if ?c then crl_block rev_rule v1 crl else _] =>
      destruct c
  end.
  - destruct (crl_block rev_rule v1 crl) as [t2 [v2|e2]] eqn:E2;
      rewrite ?andb_false_r; simpl.
    + rewrite elem_of_app. intros Hin.
      assert (soft_fail v2 = true) as Hs.
      { eapply crl_block_soft_fail; [exact E2|]. destruct Hin; eauto. }
      unfold final_checks. by rewrite Hs.
    + apply crl_block_raises in E2. by destruct (Hcrl e2).
  - rewrite ?andb_false_r. simpl.
    rewrite elem_of_app, elem_of_nil. intros [Hin|[]].
    unfold final_checks. by rewrite (H1 Hin).
Qed.

(** X14.  A fetch error that is not tolerated is appended to [failures] as
    an exception object, and the last error message joins [failures] without
    converting them: when the OCSP check was indeterminate and the CRL check
    then fails with a fetch error under a rule that is not tolerant and has
    no mandatory check, [_check_revocation] raises [TypeError], not
    [InsufficientRevinfoError]. *)
Theorem untolerated_fetch_error_raises_TypeError
  (cert_has_crl : bool) (rev_rule : RevocationCheckingRule)
  (fl : list string) (e : string) :
  let run :=
    _check_revocation cert_has_crl true rev_rule
      (OCSPValidationIndeterminateError fl) (CRLFetchError e) in
  ocsp_relevant rev_rule = true ->
  tolerant rev_rule = false ->
  ocsp_mandatory rev_rule = false ->
  crl_mandatory rev_rule = false ->
  crl_invoked run = true ->
  outcome run = Raise TypeError.
Proof.
  destruct rev_rule as [m r1 m1 r2 m2 tol str]. simpl.
  intros -> -> -> ->.
  unfold _check_revocation, crl_invoked. simpl.
  destruct m, r2, cert_has_crl; simpl; try done; intros _;
    unfold final_checks; simpl;
    by rewrite (join_failures_error (map FailureMessage fl) [] e).
Qed.

Lemma good_crl_settles_revocation_witness :
  outcome (_check_revocation true true
             (mkRule CRL_OR_OCSP_REQUIRED true false true false false false)
             (OCSPValidationIndeterminateError ["response is too old"%string])
             CRLGood)
  = Return tt.
Proof.
  apply (good_crl_settles_revocation true true
           (mkRule CRL_OR_OCSP_REQUIRED true false true false false false)
           (OCSPValidationIndeterminateError ["response is too old"%string])).
  vm_compute. reflexivity.
Defined.

Lemma tolerated_fetch_error_masks_failures_witness :
  outcome (_check_revocation true true
             (mkRule CHECK_IF_DECLARED true false true false true false)
             (OCSPFetchError "timeout")
             (CRLValidationIndeterminateError ["CRL is not recent enough"%string]))
  = Return tt.
Proof.
  apply (tolerated_fetch_error_masks_failures true true
           (mkRule CHECK_IF_DECLARED true false true false true false)
           (OCSPFetchError "timeout")
           (CRLValidationIndeterminateError ["CRL is not recent enough"%string])
           "timeout").
  - simpl. apply elem_of_cons. right. apply elem_of_cons. left. reflexivity.
  - reflexivity.
  - reflexivity.
  - discriminate.
Defined.

Lemma untolerated_fetch_error_raises_TypeError_witness :
  outcome (_check_revocation true true
             (mkRule CHECK_IF_DECLARED true false true false false false)
             (OCSPValidationIndeterminateError ["response is too old"%string])
             (CRLFetchError "timeout"))
  = Raise TypeError.
Proof.
  apply (untolerated_fetch_error_raises_TypeError true
           (mkRule CHECK_IF_DECLARED true false true false false false)
           ["response is too old"%string] "timeout");
    vm_compute; reflexivity.
Defined.

End CheckRevocationFacts.

(* ===================================================================== *)
(** * Properties of validate.py: key usage                             *)
(* ===================================================================== *)

Module ValidateUsageFacts.
Import ValidateUsage.

Lemma difference_empty_iff (X Y : gset string) :
  X ∖ Y = ∅ <-> forall u, u ∈ X -> u ∈ Y.
Proof.
  split.
  - intros HE u Hu. destruct (decide (u ∈ Y)) as [|Hn]; [done|]. exfalso.
    apply (not_elem_of_empty (C:=gset string) u). rewrite <- HE.
    by apply elem_of_difference.
  - intros Hsub. apply set_eq. intros u. rewrite elem_of_difference.
    split; [|by intros ?%not_elem_of_empty].
    intros [Hu Hn]. destruct Hn. by apply Hsub.
Qed.

Lemma empty_iff (X : gset string) : X = ∅ <-> forall u, u ∈ X -> False.
Proof.
  split; [by intros -> u ?%not_elem_of_empty|].
  intros Hn. apply set_eq. intros u. split; [by intros ?%Hn|].
  by intros ?%not_elem_of_empty.
Qed.

Lemma missing_key_usage_empty (cert : Certificate) (ku : gset string) :
  match key_usage_value cert with
  | Some cku => ku ∖ cku
  | None => ku
  end = ∅
  <-> forall u, u ∈ ku ->
        exists cku, key_usage_value cert = Some cku /\ u ∈ cku.
Proof.
  destruct (key_usage_value cert) as [cku|].
  - rewrite difference_empty_iff. split.
    + intros Hs u Hu. exists cku. auto.
    + intros Hs u Hu. by destruct (Hs u Hu) as (? & [= <-] & ?).
  - rewrite empty_iff. split.
    + intros Hn u Hu. by destruct (Hn u Hu).
    + intros Hs u Hu. by destruct (Hs u Hu) as (? & [=] & _).
Qed.

Lemma missing_extended_key_usage_empty (cert : Certificate)
  (eku : gset string) (extended_optional : bool) :
  match extended_optional, extended_key_usage_value cert with
  | false, None | false, Some [] => eku
  | _, Some l => eku ∖ list_to_set l
  | _, None => ∅
  end = ∅
  <-> forall u, u ∈ eku ->
        (extended_optional = true /\ extended_key_usage_value cert = None)
        \/ exists l, extended_key_usage_value cert = Some l /\ u ∈ l.
Proof.
  assert (Hl : forall l : list string,
            eku ∖ list_to_set l = ∅
            <-> forall u, u ∈ eku ->
                  (extended_optional = true
                   /\ Some l = @None (list string))
                  \/ exists l', Some l = Some l' /\ u ∈ l').
  { intros l. rewrite difference_empty_iff. split.
    - intros Hs u Hu. right. exists l. split; [done|].
      pose proof (Hs u Hu) as Hx. by rewrite elem_of_list_to_set in Hx.
    - intros Hs u Hu. rewrite elem_of_list_to_set.
      by destruct (Hs u Hu) as [[_ [=]]|(l' & [= <-] & ?)]. }
  assert (Hn : eku = ∅
            <-> forall u, u ∈ eku ->
                  (false = true /\ @None (list string) = None)
                  \/ exists l', @None (list string) = Some l' /\ u ∈ l').
  { rewrite empty_iff. split.
    - intros Hs u Hu. by destruct (Hs u Hu).
    - intros Hs u Hu. by destruct (Hs u Hu) as [[[=] _]|(l' & [=] & _)]. }
  destruct extended_optional,
    (extended_key_usage_value cert) as [[|x l]|]; try apply Hl; try done.
  - split; [|done]. intros _ u _. by left.
  - rewrite empty_iff. split.
    + intros Hs u Hu. by destruct (Hs u Hu).
    + intros Hs u Hu.
      destruct (Hs u Hu) as [[[=] _]|(l' & [= <-] & Hin)].
      by apply elem_of_nil in Hin.
Qed.

Lemma validate_usage_returns (cert : Certificate)
  (key_usage extended_key_usage : option (gset string))
  (extended_optional : bool) :
  validate_usage false cert key_usage extended_key_usage extended_optional
    = Return tt
  <-> match key_usage_value cert with
      | Some cku => default ∅ key_usage ∖ cku
      | None => default ∅ key_usage
      end = ∅
      /\ match extended_optional, extended_key_usage_value cert with
         | false, None | false, Some [] => default ∅ extended_key_usage
         | _, Some l => default ∅ extended_key_usage ∖ list_to_set l
         | _, None => ∅
         end = ∅.
Proof.
  unfold validate_usage. cbv zeta. cbv beta iota.
  repeat case_bool_decide; simpl; split; try done; intros [? ?]; done.
Qed.

(** X15.  [validate_usage] accepts a certificate that is not whitelisted
    exactly when every required key usage is granted by the key usage
    extension of the certificate, which must then be present, and every
    required extended key usage is listed in its extended key usage
    extension; the latter may only be absent when [extended_optional] is
    set. *)
Theorem validate_usage_accepts_iff (cert : Certificate)
  (key_usage extended_key_usage : option (gset string))
  (extended_optional : bool) :
  validate_usage false cert key_usage extended_key_usage extended_optional
    = Return tt
  <-> (forall u, u ∈ default ∅ key_usage ->
         exists ku, key_usage_value cert = Some ku /\ u ∈ ku)
      /\ (forall u, u ∈ default ∅ extended_key_usage ->
            (extended_optional = true /\ extended_key_usage_value cert = None)
            \/ exists eku, extended_key_usage_value cert = Some eku
                           /\ u ∈ eku).
Proof.
  rewrite validate_usage_returns.
  by rewrite missing_key_usage_empty, missing_extended_key_usage_empty.
Qed.

(** X16.  [validate_aa_usage] accepts a certificate that is not whitelisted
    only if the certificate has a key usage extension that allows digital
    signatures and is not a CA certificate; when the caller names extended
    key usages, a certificate that has the extended key usage extension must
    list each of them. *)
Theorem validate_aa_usage_accepts_only (cert : Certificate)
  (extended_key_usage : option (gset string)) :
  validate_aa_usage false cert extended_key_usage = Return tt ->
  (exists ku, key_usage_value cert = Some ku
              /\ "digital_signature"%string ∈ ku)
  /\ basic_constraints_ca cert <> Some true
  /\ (forall required eku u,
        extended_key_usage = Some required ->
        extended_key_usage_value cert = Some eku ->
        u ∈ required -> u ∈ eku).
Proof.
  unfold validate_aa_usage. cbv beta iota.
  destruct (validate_usage false cert _ _ _) as [[]|] eqn:Hu; [|done].
  apply validate_usage_returns in Hu as [Hku Heku].
  pose proof (proj1 (missing_key_usage_empty _ _) Hku) as Hk.
  pose proof (proj1 (missing_extended_key_usage_empty _ _ _) Heku) as He.
  clear Hku Heku. simpl in Hk, He.
  intros Hbc. split; [|split].
  - apply Hk. by apply elem_of_singleton.
  - by destruct (basic_constraints_ca cert) as [[]|].
  - intros required eku u -> Hc Hin.
    destruct (He u Hin) as [[_ ?]|(l & ? & ?)]; congruence.
Qed.

Lemma validate_aa_usage_accepts_only_witness :
  (exists ku, key_usage_value example_aa_cert = Some ku
              /\ "digital_signature"%string ∈ ku)
  /\ basic_constraints_ca example_aa_cert <> Some true
  /\ (forall (required : gset string) eku u,
        Some {["client_auth"%string]} = Some required ->
        extended_key_usage_value example_aa_cert = Some eku ->
        u ∈ required -> u ∈ eku).
Proof.
  apply (validate_aa_usage_accepts_only example_aa_cert
           (Some {["client_auth"%string]})).
  vm_compute. reflexivity.
Defined.

(** X17.  [validate_tls_hostname] asks no more of the key usage than
    [validate_usage] does for a TLS server: a certificate that
    [validate_usage] accepts for the key usage digital_signature and the
    extended key usage server_auth, with or without [extended_optional], and
    that is valid for the host name, is accepted by
    [validate_tls_hostname]. *)
Theorem validate_usage_covers_tls_hostname (cert : Certificate)
  (extended_optional : bool) :
  validate_usage false cert (Some {["digital_signature"%string]})
    (Some {["server_auth"%string]}) extended_optional = Return tt ->
  validate_tls_hostname false true cert = Return tt.
Proof.
  intros Hu. apply validate_usage_returns in Hu as [Hku Heku].
  pose proof (proj1 (missing_key_usage_empty _ _) Hku) as Hk.
  pose proof (proj1 (missing_extended_key_usage_empty _ _ _) Heku) as He.
  clear Hku Heku. simpl in Hk, He.
  destruct (Hk "digital_signature"%string) as (ku & Eku & Hin);
    [by apply elem_of_singleton|].
  unfold validate_tls_hostname. cbv zeta. cbn [negb].
  rewrite Eku. rewrite bool_decide_eq_false_2 by (intros Hn; by apply Hn).
  destruct (He "server_auth"%string) as [[_ Eeku]|(l & Eeku & Hl)];
    [by apply elem_of_singleton| |]; rewrite Eeku; [done|].
  destruct l as [|u us]; [done|].
  by rewrite bool_decide_eq_false_2 by (intros Hn; by apply Hn).
Qed.

Lemma validate_usage_covers_tls_hostname_witness :
  validate_tls_hostname false true example_tls_cert = Return tt.
Proof.
  apply (validate_usage_covers_tls_hostname example_tls_cert false).
  vm_compute. reflexivity.
Defined.

End ValidateUsageFacts.

(* ===================================================================== *)
(** * Properties of validate.py: attribute certificates                *)
(* ===================================================================== *)

Module ValidateACFacts.
Import ValidateAC.

Section TargetingFacts.
Context {GeneralName : Type}.
Variable general_name_eq : GeneralName -> GeneralName -> option bool.
Variable dump : GeneralName -> list Z.

Local Abbreviation Target := (@Target GeneralName).
Local Abbreviation target_accepted :=
  (target_accepted general_name_eq dump).

Lemma targets_loop_exists (acceptable_targets : ACTargetDescription)
  (targets : list Target) :
  targets_loop general_name_eq dump acceptable_targets targets = true
  <-> exists target,
        target ∈ targets /\ target_accepted acceptable_targets target = true.
Proof.
  induction targets as [|t rest IH]; simpl.
  - split; [done|]. intros (t & Hin & _). by apply elem_of_nil in Hin.
  - destruct (target_accepted acceptable_targets t) eqn:Ht.
    + split; [|done]. intros _. exists t. split; [apply elem_of_cons; auto|done].
    + rewrite IH. split.
      * intros (t' & Hin & Hok). exists t'. split; [|done].
        apply elem_of_cons. auto.
      * intros (t' & Hin & Hok). exists t'. split; [|done].
        apply elem_of_cons in Hin as [->|Hin]; [congruence|done].
Qed.

(** X18.  One matching target is enough: [_validate_ac_targeting] accepts
    an attribute certificate with a target information extension exactly
    when some target of some of its target sequences is a target name among
    the validator names, or a target group among the group memberships, of
    the acceptable targets; targets of other kinds are passed over, and an
    extension that lists no such target is rejected. *)
Theorem targeting_needs_one_matching_target
  (target_info : list (list Target))
  (acceptable_targets : ACTargetDescription) :
  _validate_ac_targeting general_name_eq dump (Some target_info)
    acceptable_targets = Return tt
  <-> exists targets target,
        targets ∈ target_info /\ target ∈ targets
        /\ target_accepted acceptable_targets target = true.
Proof.
  unfold _validate_ac_targeting.
  assert (Hloop :
    target_info_loop general_name_eq dump acceptable_targets target_info = true
    <-> exists targets target,
          targets ∈ target_info /\ target ∈ targets
          /\ target_accepted acceptable_targets target = true).
  { induction target_info as [|ts rest IH]; simpl.
    - split; [done|]. intros (ts & t & Hin & _). by apply elem_of_nil in Hin.
    - destruct (targets_loop general_name_eq dump acceptable_targets ts)
        eqn:Hts.
      + split; [|done]. intros _.
        apply targets_loop_exists in Hts as (t & Hin & Hok).
        exists ts, t. split; [apply elem_of_cons; auto|done].
      + rewrite IH. split.
        * intros (ts' & t & Hin & Hin' & Hok). exists ts', t.
          split; [apply elem_of_cons; auto|done].
        * intros (ts' & t & Hin & Hin' & Hok). exists ts', t.
          apply elem_of_cons in Hin as [->|Hin]; [|done].
          assert (targets_loop general_name_eq dump acceptable_targets ts
                  = true) by (apply targets_loop_exists; eauto).
          congruence. }
  rewrite <- Hloop.
  by destruct (target_info_loop general_name_eq dump acceptable_targets
                 target_info).
Qed.

End TargetingFacts.

Section NamesFacts.
Context {GeneralNames Name : Type} `{EqDecision Name}.
Variable extract_dir_name : GeneralNames -> PyResult exn Name.
Variable name_sha256 : Name -> list Z.
Variable format_iss_serial : list Z -> Z -> list Z.
Context {ObjectDigestInfo : Type}.

(** X19.  [_process_aki_ext] never returns an issuer and serial number: for
    an authority key identifier extension that has both the issuer and the
    serial number of the authority certificate it raises [AttributeError]
    (when the issuer has a directory name), so whenever it returns, the
    third component is [None] and the extension lacks one of the two. *)
Theorem process_aki_ext_never_returns_issuer_serial
  (aki_ext : @AuthorityKeyIdentifier GeneralNames)
  (aki : option (list Z)) (auth_iss_dirname : option Name)
  (auth_iss_ser : option (list Z)) :
  _process_aki_ext extract_dir_name aki_ext
    = Return (aki, auth_iss_dirname, auth_iss_ser) ->
  auth_iss_ser = None
  /\ aki = key_identifier aki_ext
  /\ (authority_cert_issuer aki_ext = None
      \/ authority_cert_serial_number aki_ext = None).
Proof.
  unfold _process_aki_ext.
  destruct (authority_cert_issuer aki_ext) as [names|].
  - destruct (extract_dir_name names); [|done].
    destruct (authority_cert_serial_number aki_ext); [done|].
    intros [= <- <- <-]. auto.
  - intros [= <- <- <-]. auto.
Qed.

(** X20.  [check_ac_holder_match] reports only [base_certificate_id] and
    [entity_name]: it returns only for a holder without object digest info,
    the set returned has [base_certificate_id] exactly when the holder names
    an issuer and serial number other than that of the certificate, and
    [entity_name] exactly when it names a subject other than that of the
    certificate; for a holder with none of the three it is empty. *)
Theorem holder_mismatches_are_id_and_name
  (holder_cert : @HolderCert Name)
  (holder : @Holder GeneralNames ObjectDigestInfo)
  (mismatches : gset string) :
  check_ac_holder_match extract_dir_name name_sha256 format_iss_serial
    holder_cert holder = Return mismatches ->
  object_digest_info holder = None
  /\ ("base_certificate_id"%string ∈ mismatches
      <-> exists id designated,
            base_certificate_id holder = Some id
            /\ _parse_iss_serial extract_dir_name name_sha256
                 format_iss_serial id = Return designated
            /\ designated <> issuer_serial holder_cert)
  /\ ("entity_name"%string ∈ mismatches
      <-> exists names holder_dn,
            entity_name holder = Some names
            /\ extract_dir_name names = Return holder_dn
            /\ holder_dn <> subject holder_cert)
  /\ (forall field, field ∈ mismatches ->
        field = "base_certificate_id"%string
        \/ field = "entity_name"%string).
Proof.
  unfold check_ac_holder_match.
  destruct (base_certificate_id holder) as [id|];
    [destruct (_parse_iss_serial _ _ _ id) as [designated|] eqn:Hid;
       [|done]; case_bool_decide as Hne|];
    (destruct (entity_name holder) as [names|];
       [destruct (extract_dir_name names) as [holder_dn|] eqn:Hdn;
          [|done]; case_bool_decide as Hne'|]);
    (destruct (object_digest_info holder); [done|]);
    intros [= <-]; (split; [done|]).
  all: repeat split; intros Hx;
         rewrite ?elem_of_union, ?elem_of_singleton, ?elem_of_empty in *.
  all: try (destruct Hx as (? & ? & ? & ? & ?); simplify_eq; congruence).
  all: try (by eauto 10).
  all: by intuition discriminate.
Qed.

End NamesFacts.

Section AASearchFacts.
Context {Certificate ValidationPath : Type}.
Variable validate_aa_usage : Certificate -> call_outcome unit.
Variable async_build_paths : Certificate -> call_outcome (list ValidationPath).
Variable intl_validate_path : ValidationPath -> call_outcome unit.

Local Abbreviation first_valid_path :=
  (first_valid_path validate_aa_usage async_build_paths intl_validate_path).
Local Abbreviation candidates_loop :=
  (candidates_loop validate_aa_usage async_build_paths intl_validate_path).

Lemma paths_loop_finds (paths : list ValidationPath)
  (exceptions exceptions' : list exn) (found : option ValidationPath) :
  paths_loop intl_validate_path paths exceptions = Return (found, exceptions') ->
  found = find (fun p => match intl_validate_path p with
                         | Returns _ => true
                         | _ => false
                         end) paths.
Proof.
  revert exceptions. induction paths as [|p rest IH]; intros exceptions; simpl.
  - by intros [= <- <-].
  - destruct (intl_validate_path p); [by intros [= <- <-]| |done].
    apply IH.
Qed.

Lemma candidates_loop_last (aa_candidates : list Certificate)
  (aa_path aa_path' : option ValidationPath) (exceptions exceptions' : list exn) :
  candidates_loop aa_candidates aa_path exceptions
    = Return (aa_path', exceptions') ->
  (aa_path' = aa_path
   /\ Forall (fun c => first_valid_path c = None) aa_candidates)
  \/ exists pre c post p,
       aa_candidates = pre ++ c :: post
       /\ aa_path' = Some p
       /\ first_valid_path c = Some p
       /\ Forall (fun c' => first_valid_path c' = None) post.
Proof.
  revert aa_path exceptions.
  induction aa_candidates as [|c rest IH]; intros aa_path exceptions; simpl.
  - intros [= <- <-]. left. by split.
  - assert (Hstep : forall ap ex,
              candidates_loop rest ap ex = Return (aa_path', exceptions') ->
              (ap = aa_path /\ first_valid_path c = None
               \/ exists p, ap = Some p /\ first_valid_path c = Some p) ->
              (aa_path' = aa_path
               /\ Forall (fun c => first_valid_path c = None) (c :: rest))
              \/ exists pre c0 post p,
                   c :: rest = pre ++ c0 :: post
                   /\ aa_path' = Some p
                   /\ first_valid_path c0 = Some p
                   /\ Forall (fun c' => first_valid_path c' = None) post).
    { intros ap ex Hl Hc.
      apply IH in Hl as [[-> Hall]|(pre & c0 & post & p & -> & -> & Hp & Hall)].
      - destruct Hc as [[-> Hn]|(p & -> & Hp)].
        + left. split; [done|]. by constructor.
        + right. by exists [], c, rest, p.
      - right. by exists (c :: pre), c0, post, p. }
    unfold ValidateAC.first_valid_path in Hstep.
    destruct (validate_aa_usage c) as [[]|e|e]; [| |done].
    + destruct (async_build_paths c) as [paths|e|e]; [| |done].
      * destruct (paths_loop intl_validate_path paths exceptions)
          as [[[p|] ex]|e] eqn:Hp; [| |done];
          apply paths_loop_finds in Hp; intros Hl;
          apply (Hstep _ _ Hl); eauto.
      * intros Hl. apply (Hstep _ _ Hl). auto.
    + intros Hl. apply (Hstep _ _ Hl). auto.
Qed.

(** X21.  The search for the AA does not stop at the first candidate that
    validates: when [async_validate_ac] gets past the search, the AA path it
    uses is the first path that validates of the last candidate that has
    one. *)
Theorem aa_path_is_of_last_valid_candidate
  (aa_candidates : list Certificate) (aa_path : ValidationPath) :
  find_aa_path validate_aa_usage async_build_paths intl_validate_path
    aa_candidates = Return aa_path ->
  exists pre aa_candidate post,
    aa_candidates = pre ++ aa_candidate :: post
    /\ first_valid_path aa_candidate = Some aa_path
    /\ Forall (fun c => first_valid_path c = None) post.
Proof.
  unfold find_aa_path.
  destruct (candidates_loop aa_candidates None []) as [[[p|] ex]|e] eqn:Hl.
  - intros [= ->].
    apply candidates_loop_last in Hl
      as [[[=] _]|(pre & c & post & p & -> & [= <-] & Hp & Hall)].
    by exists pre, c, post.
  - by destruct ex.
  - done.
Qed.

End AASearchFacts.

Lemma process_aki_ext_never_returns_issuer_serial_witness :
  @None (list Z) = None
  /\ Some [1; 2] = key_identifier (mkAKI (Some [1; 2]) (Some "CN=AA"%string) None)
  /\ (authority_cert_issuer (mkAKI (Some [1; 2]) (Some "CN=AA"%string) None)
      = None
      \/ authority_cert_serial_number
           (mkAKI (Some [1; 2]) (Some "CN=AA"%string) None) = None).
Proof.
  apply (process_aki_ext_never_returns_issuer_serial
           (fun names : string => Return names)
           (mkAKI (Some [1; 2]) (Some "CN=AA"%string) None)
           (Some [1; 2]) (Some "CN=AA"%string) None).
  reflexivity.
Defined.

Lemma holder_mismatches_are_id_and_name_witness :
  "entity_name"%string ∈ ({["entity_name"%string]} : gset string)
  <-> exists names holder_dn : string,
        entity_name
          (mkHolder (ObjectDigestInfo:=unit)
             (Some (mkIssuerSerial "CN=CA"%string 7))
             (Some "CN=other"%string) None) = Some names
        /\ Return (E:=exn) names = Return holder_dn
        /\ holder_dn <> subject (mkHolderCert [5; 7] "CN=holder"%string).
Proof.
  apply (holder_mismatches_are_id_and_name
           (fun names : string => Return names)
           (fun name : string => [Z.of_nat (String.length name)])
           (fun digest serial => digest ++ [serial])
           (ObjectDigestInfo:=unit)
           (mkHolderCert [5; 7] "CN=holder"%string)
           (mkHolder (Some (mkIssuerSerial "CN=CA"%string 7))
              (Some "CN=other"%string) None)).
  vm_compute. reflexivity.
Defined.

Lemma aa_path_is_of_last_valid_candidate_witness :
  exists pre aa_candidate post,
    [1; 2; 3] = pre ++ aa_candidate :: post
    /\ first_valid_path (fun _ : Z => Returns tt)
         (fun c : Z => Returns [10 * c; 10 * c + 1])
         (fun p : Z => if Z.even p then RaisesHandled (OtherError "expired")
                       else Returns tt)
         aa_candidate = Some 31
    /\ Forall (fun c =>
                 first_valid_path (fun _ : Z => Returns tt)
                   (fun c : Z => Returns [10 * c; 10 * c + 1])
                   (fun p : Z => if Z.even p
                                 then RaisesHandled (OtherError "expired")
                                 else Returns tt)
                   c = None) post.
Proof.
  apply (aa_path_is_of_last_valid_candidate (fun _ : Z => Returns tt)
           (fun c : Z => Returns [10 * c; 10 * c + 1])
           (fun p : Z => if Z.even p then RaisesHandled (OtherError "expired")
                         else Returns tt)
           [1; 2; 3] 31).
  reflexivity.
Defined.

End ValidateACFacts.

(* ===================================================================== *)
(** * Properties of revinfo/validate_crl.py: lookups and verdicts      *)
(* ===================================================================== *)

Module ValidateCrlMoreFacts.
Import ValidateCrl ValidateCrlFacts.

Section MoreLookupFacts.
Variable KNOWN_CRL_ENTRY_EXTENSIONS : gset string.
Variable cert_serial : Z.
Variable cert_issuer_name : Name.

Local Abbreviation find :=
  (find_loop KNOWN_CRL_ENTRY_EXTENSIONS cert_serial cert_issuer_name).
Local Abbreviation recognised :=
  (fun e => critical_extensions e ∖ KNOWN_CRL_ENTRY_EXTENSIONS = ∅).

Lemma find_cons (last_issuer_name : Name) (e : RevokedCertificate)
  (rest : list RevokedCertificate) :
  find last_issuer_name (e :: rest) =
  if bool_decide (critical_extensions e ∖ KNOWN_CRL_ENTRY_EXTENSIONS <> ∅)
  then Raise NotImplementedError
  else if bool_decide (default last_issuer_name (issuer_name e)
                       <> cert_issuer_name)
  then find (default last_issuer_name (issuer_name e)) rest
  else if bool_decide (user_certificate e <> cert_serial)
  then find (default last_issuer_name (issuer_name e)) rest
  else Return (Some (revocation_date e,
                     default "unspecified"%string (crl_reason_value e))).
Proof. apply find_unfold. Qed.

Lemma carried_issuer_cons (last_issuer_name : Name) (e : RevokedCertificate)
  (rest : list RevokedCertificate) :
  carried_issuer last_issuer_name (e :: rest)
  = carried_issuer (default last_issuer_name (issuer_name e)) rest.
Proof. reflexivity. Qed.

(** X22.  [_find_cert_in_list] reports a certificate only from an entry
    with its serial number, at which the issuer in effect is the issuer of
    the certificate, and it reports the first such entry: the date is the
    revocation date of that entry and the reason its reason, or unspecified
    when it has none; no entry before it matches, and no entry up to it has
    an unrecognised critical extension. *)
Theorem found_entry_is_first_match (crl_issuer : Certificate)
  (certificate_list : list RevokedCertificate) (revoked_date : Z)
  (crl_reason : string) :
  _find_cert_in_list KNOWN_CRL_ENTRY_EXTENSIONS cert_serial cert_issuer_name
    certificate_list crl_issuer = Return (Some (revoked_date, crl_reason)) ->
  exists pre e post,
    certificate_list = pre ++ e :: post
    /\ user_certificate e = cert_serial
    /\ carried_issuer (subject crl_issuer) (pre ++ [e]) = cert_issuer_name
    /\ revoked_date = revocation_date e
    /\ crl_reason = default "unspecified"%string (crl_reason_value e)
    /\ Forall recognised (pre ++ [e])
    /\ (forall pre' e' post',
          pre = pre' ++ e' :: post' ->
          ~ (user_certificate e' = cert_serial
             /\ carried_issuer (subject crl_issuer) (pre' ++ [e'])
                = cert_issuer_name)).
Proof.
  unfold _find_cert_in_list. generalize (subject crl_issuer) as last.
  induction certificate_list as [|x entries IH]; intros last; [done|].
  rewrite find_cons.
  case_bool_decide as Hcrit; [done|].
  assert (Hskip :
    find (default last (issuer_name x)) entries
      = Return (Some (revoked_date, crl_reason)) ->
    (default last (issuer_name x) <> cert_issuer_name
     \/ user_certificate x <> cert_serial) ->
    exists pre e post,
      x :: entries = pre ++ e :: post
      /\ user_certificate e = cert_serial
      /\ carried_issuer last (pre ++ [e]) = cert_issuer_name
      /\ revoked_date = revocation_date e
      /\ crl_reason = default "unspecified"%string (crl_reason_value e)
      /\ Forall recognised (pre ++ [e])
      /\ (forall pre' e' post',
            pre = pre' ++ e' :: post' ->
            ~ (user_certificate e' = cert_serial
               /\ carried_issuer last (pre' ++ [e']) = cert_issuer_name))).
  { intros Hf Hx.
    apply IH in Hf
      as (pre & e & post & -> & Hser & Hiss & Hd & Hr & Hrec & Hfirst).
    exists (x :: pre), e, post. repeat split; try done.
    - by constructor.
    - intros pre' e' post' Hsplit [Hs Hi].
      destruct pre' as [|y pre']; simplify_eq/=.
      + destruct Hx; done.
      + by apply (Hfirst pre' e' post'). }
  case_bool_decide as Hiss; [intros Hf; apply Hskip; auto|].
  case_bool_decide as Hser; [intros Hf; apply Hskip; auto|].
  intros [= <- <-]. exists [], x, entries. repeat split; try done.
  - by repeat constructor.
  - intros pre' e' post' Hsplit. by destruct pre'.
Qed.

(** X23.  What the delta CRL says about a certificate wins over the
    complete CRL: when the certificate is found in the delta CRL, the
    complete CRL is not searched; the result is the entry of the delta CRL,
    and the certificate counts as not revoked when that entry has the reason
    remove_from_crl, also when the complete CRL lists it. *)
Theorem delta_entry_takes_precedence (crl_issuer : Certificate)
  (certificate_list delta_certificate_list : list RevokedCertificate)
  (errs : _CRLErrs) (revoked_date : Z) (revoked_reason : string) :
  _find_cert_in_list KNOWN_CRL_ENTRY_EXTENSIONS cert_serial cert_issuer_name
    delta_certificate_list crl_issuer
    = Return (Some (revoked_date, revoked_reason)) ->
  _check_cert_on_crl_and_delta KNOWN_CRL_ENTRY_EXTENSIONS crl_issuer
    cert_serial cert_issuer_name certificate_list
    (Some delta_certificate_list) errs
  = (errs,
     Return (if bool_decide (revoked_reason = "remove_from_crl"%string)
             then None else Some (revoked_date, revoked_reason))).
Proof.
  intros Hdelta. unfold _check_cert_on_crl_and_delta. rewrite Hdelta.
  by case_bool_decide.
Qed.

Local Abbreviation reports_revoked :=
  (reports_revoked KNOWN_CRL_ENTRY_EXTENSIONS cert_serial cert_issuer_name).
Local Abbreviation covered_reasons :=
  (covered_reasons KNOWN_CRL_ENTRY_EXTENSIONS cert_serial cert_issuer_name).
Local Abbreviation loop :=
  (crl_loop KNOWN_CRL_ENTRY_EXTENSIONS cert_serial cert_issuer_name).
Local Abbreviation verify :=
  (verify_crl KNOWN_CRL_ENTRY_EXTENSIONS cert_serial cert_issuer_name).

Lemma union_list_permutation (Xs Ys : list (gset string)) :
  Xs ≡ₚ Ys -> ⋃ Xs = ⋃ Ys.
Proof.
  induction 1 as [|X Xs Ys _ IH|X Y Xs|Xs Ys Zs _ IH1 _ IH2].
  - done.
  - by rewrite !union_list_cons, IH.
  - rewrite !union_list_cons, !(assoc_L (∪)). f_equal. apply (comm_L (∪)).
  - by rewrite IH1.
Qed.

Local Abbreviation propagated :=
  (propagated KNOWN_CRL_ENTRY_EXTENSIONS cert_serial cert_issuer_name).

Lemma propagated_or_not (crls : list CRLToProcess) :
  Forall (fun c => propagated c = None) crls
  \/ exists pre c post e,
       crls = pre ++ c :: post
       /\ Forall (fun c => propagated c = None) pre
       /\ propagated c = Some e.
Proof.
  induction crls as [|c crls IH].
  - left. constructor.
  - destruct (propagated c) as [e|] eqn:Hc.
    + right. exists [], c, crls, e. by repeat split.
    + destruct IH as [IH|(pre & c' & post & e & -> & Hpre & Hc')].
      * left. by constructor.
      * right. exists (c :: pre), c', post, e. repeat split; [|done].
        by constructor.
Qed.

Lemma completeness_None (checked_reasons : gset string) (total_crls : Z)
  (errs : _CRLErrs) :
  _process_crl_completeness checked_reasons total_crls errs = None
  <-> checked_reasons ∖ {["unused"%string]} = VALID_REVOCATION_REASONS.
Proof.
  unfold _process_crl_completeness.
  case_bool_decide as Hne; [|done].
  split; [|done]. by case_bool_decide.
Qed.

Lemma completeness_not_revoked (checked_reasons : gset string)
  (total_crls : Z) (errs : _CRLErrs) (r : string) (d : Z) :
  _process_crl_completeness checked_reasons total_crls errs
  <> Some (RevokedError r d).
Proof.
  unfold _process_crl_completeness. by repeat case_bool_decide.
Qed.

Lemma not_all_None (crls pre post : list CRLToProcess) (c : CRLToProcess)
  (e : exn) :
  crls = pre ++ c :: post -> propagated c = Some e ->
  ~ Forall (fun c => propagated c = None) crls.
Proof.
  intros -> Hc Hall. rewrite Forall_forall in Hall.
  assert (propagated c = None)
    by (apply Hall, elem_of_app; right; apply elem_of_cons; auto).
  congruence.
Qed.

Lemma verify_returns_iff (classification_failures : list string)
  (authority : Name) (crls : list CRLToProcess) :
  verify classification_failures (Some authority) crls = Return tt
  <-> Forall (fun c => propagated c = None) crls
      /\ (⋃ (covered_reasons <$> crls)) ∖ {["unused"%string]}
         = VALID_REVOCATION_REASONS.
Proof.
  unfold verify_crl.
  destruct (propagated_or_not crls)
    as [Hno|(pre & c & post & e & Hcrls & Hpre & Hc)].
  - rewrite (loop_runs _ _ _ _ _ _ Hno), (left_id_L ∅ (∪)).
    rewrite <- (completeness_None _ (Z.of_nat (length crls))
                  {| failures :=
                       failures (mkErrs classification_failures 0)
                       ++ concat
                            (diagnostics KNOWN_CRL_ENTRY_EXTENSIONS
                               cert_serial cert_issuer_name <$> crls);
                     issuer_failures :=
                       issuer_failures (mkErrs classification_failures 0)
                       + Z.of_nat
                           (length
                              (filter (fun c => issuer_failed c = true)
                                 crls)) |}).
    destruct (_process_crl_completeness _ _ _); split; try done;
      by intros [_ ?].
  - split.
    + rewrite Hcrls.
      by rewrite (loop_propagates _ _ _ pre post c e _ _ Hpre Hc).
    + intros [Hno _]. by destruct (not_all_None crls pre post c e).
Qed.

Lemma verify_revoked_iff (classification_failures : list string)
  (authority : Name) (crls : list CRLToProcess) :
  Forall (fun c => forall e, propagated c = Some e ->
                     exists r d, e = RevokedError r d) crls ->
  (exists r d, verify classification_failures (Some authority) crls
               = Raise (RevokedError r d))
  <-> ~ Forall (fun c => propagated c = None) crls.
Proof.
  intros Honly. unfold verify_crl.
  destruct (propagated_or_not crls)
    as [Hno|(pre & c & post & e & Hcrls & Hpre & Hc)].
  - rewrite (loop_runs _ _ _ _ _ _ Hno). split; [|done].
    intros (r & d & Hr).
    destruct (_process_crl_completeness _ _ _) as [exc|] eqn:Hcompl; [|done].
    injection Hr as ->. by apply completeness_not_revoked in Hcompl.
  - split; [intros _; by apply (not_all_None crls pre post c e)|].
    intros _. rewrite Forall_forall in Honly.
    destruct (Honly c) with (e := e) as (r & d & ->); [|done|].
    { rewrite Hcrls. apply elem_of_app. right. apply elem_of_cons. auto. }
    exists r, d. rewrite Hcrls.
    by rewrite (loop_propagates _ _ _ pre post c _ _ _ Hpre Hc).
Qed.

(** X24.  The verdict of [verify_crl] does not depend on the order in which
    the complete CRLs are processed: for two orders of the same CRLs, it
    returns for one exactly when it returns for the other; and when
    RevokedError is the only exception with which a CRL of the list ends the
    loop, it raises RevokedError for one order exactly when it does for the
    other.  (An exception that nothing handles, such as the AttributeError
    of [_get_crl_authority_name], ends the call as well, and which of two
    such CRLs comes first then decides.) *)
Theorem crl_verdict_is_order_independent
  (classification_failures : list string) (issuing_authority : option Name)
  (crls crls' : list CRLToProcess) :
  crls ≡ₚ crls' ->
  (verify classification_failures issuing_authority crls = Return tt
   <-> verify classification_failures issuing_authority crls' = Return tt)
  /\ (Forall (fun c => forall e, propagated c = Some e ->
                         exists r d, e = RevokedError r d) crls ->
      (exists r d, verify classification_failures issuing_authority crls
                   = Raise (RevokedError r d))
      <-> (exists r d, verify classification_failures issuing_authority crls'
                       = Raise (RevokedError r d))).
Proof.
  intros Hp. destruct issuing_authority as [authority|]; [|done].
  split.
  - rewrite !verify_returns_iff.
    assert (Hu : ⋃ (covered_reasons <$> crls) = ⋃ (covered_reasons <$> crls'))
      by (apply union_list_permutation; by rewrite Hp).
    rewrite Hu. split; intros [Hno ?]; (split; [|done]).
    + by rewrite <- Hp.
    + by rewrite Hp.
  - intros Honly.
    assert (Honly' : Forall (fun c => forall e, propagated c = Some e ->
                               exists r d, e = RevokedError r d) crls')
      by (by rewrite <- Hp).
    rewrite !verify_revoked_iff by done.
    split; intros Hn Hall; apply Hn.
    + by rewrite Hp.
    + by rewrite <- Hp.
Qed.

End MoreLookupFacts.

Lemma found_entry_is_first_match_witness :
  exists pre e post,
    [entry_other; entry_42_no_reason] = pre ++ e :: post
    /\ user_certificate e = 42
    /\ carried_issuer (subject example_ca_cert) (pre ++ [e]) = example_ca
    /\ 100 = revocation_date e
    /\ "unspecified"%string = default "unspecified"%string (crl_reason_value e)
    /\ Forall (fun e => critical_extensions e ∖ rfc5280_entry_extensions = ∅)
         (pre ++ [e])
    /\ (forall pre' e' post',
          pre = pre' ++ e' :: post' ->
          ~ (user_certificate e' = 42
             /\ carried_issuer (subject example_ca_cert) (pre' ++ [e'])
                = example_ca)).
Proof.
  apply (found_entry_is_first_match rfc5280_entry_extensions 42 example_ca
           example_ca_cert [entry_other; entry_42_no_reason] 100
           "unspecified").
  vm_compute. reflexivity.
Defined.

Lemma delta_entry_takes_precedence_witness :
  _check_cert_on_crl_and_delta rfc5280_entry_extensions example_ca_cert 42
    example_ca [entry_42_key_compromise]
    (Some [mkRevoked ∅ None 42 (Some "remove_from_crl"%string) 120])
    (mkErrs [] 0)
  = (mkErrs [] 0, Return None).
Proof.
  apply (delta_entry_takes_precedence rfc5280_entry_extensions 42 example_ca
           example_ca_cert [entry_42_key_compromise]
           [mkRevoked ∅ None 42 (Some "remove_from_crl"%string) 120]
           (mkErrs [] 0) 120 "remove_from_crl").
  vm_compute. reflexivity.
Defined.

Lemma crl_verdict_is_order_independent_witness :
  (verify_crl rfc5280_entry_extensions 42 example_ca [] (Some example_ca)
     [crl_first_half; crl_second_half] = Return tt
   <-> verify_crl rfc5280_entry_extensions 42 example_ca [] (Some example_ca)
         [crl_second_half; crl_first_half] = Return tt)
  /\ ((exists r d,
         verify_crl rfc5280_entry_extensions 42 example_ca []
           (Some example_ca) [crl_first_half; crl_second_half]
         = Raise (RevokedError r d))
      <-> (exists r d,
             verify_crl rfc5280_entry_extensions 42 example_ca []
               (Some example_ca) [crl_second_half; crl_first_half]
             = Raise (RevokedError r d))).
Proof.
  destruct (crl_verdict_is_order_independent rfc5280_entry_extensions 42
              example_ca [] (Some example_ca)
              [crl_first_half; crl_second_half]
              [crl_second_half; crl_first_half]) as [Hret Hrev].
  - apply perm_swap.
  - split; [exact Hret|]. apply Hrev.
    repeat (constructor; [vm_compute; discriminate|]). constructor.
Defined.

End ValidateCrlMoreFacts.

(* ===================================================================== *)
(** * Properties of revinfo/validate_crl.py: scope and issuers         *)
(* ===================================================================== *)

Module ValidateCrlScopeFacts.
Import ValidateCrl ValidateCrlScope.

(** ** Matching the names of distribution points *)

Lemma GeneralName_eq_Return (a b : GeneralName) (m : bool) :
  GeneralName_eq a b = Return m -> (m = true <-> a = b).
Proof.
  unfold GeneralName_eq. destruct (_ && _); [|done].
  intros [= <-]. apply bool_decide_eq_true.
Qed.

Lemma GeneralName_eq_cases (a b : GeneralName) :
  (comparable a = true /\ comparable b = true
   /\ GeneralName_eq a b = Return (bool_decide (a = b)))
  \/ ((comparable a = false \/ comparable b = false)
      /\ GeneralName_eq a b = Raise ValueError).
Proof.
  unfold GeneralName_eq. destruct (comparable a), (comparable b); simpl; auto.
Qed.

Lemma name_in_Return (x : GeneralName) (ys : list GeneralName) (m : bool) :
  name_in x ys = Return m -> (m = true <-> x ∈ ys).
Proof.
  induction ys as [|n rest IH]; simpl.
  - intros [= <-]. split; [done|]. by intros ?%elem_of_nil.
  - destruct (GeneralName_eq n x) as [[]|] eqn:E; [| |done].
    + intros [= <-]. apply GeneralName_eq_Return in E. split; [|done].
      intros _. apply elem_of_cons. left. symmetry. by apply E.
    + intros H. apply IH in H. rewrite H, elem_of_cons.
      apply GeneralName_eq_Return in E. split; [auto|].
      intros [->|?]; [|done]. destruct E as [_ E]. by specialize (E eq_refl).
Qed.

Lemma name_in_outcome (x : GeneralName) (ys : list GeneralName) :
  (forall e, name_in x ys = Raise e -> e = ValueError)
  /\ (comparable x = true -> Forall (fun n => comparable n = true) ys ->
      exists m, name_in x ys = Return m).
Proof.
  induction ys as [|n rest [IH1 IH2]]; simpl.
  - split; [done|]. eauto.
  - destruct (GeneralName_eq_cases n x) as [(Hn & Hx & ->)|[Hc ->]].
    + destruct (bool_decide (n = x)).
      * split; [done|]. eauto.
      * split; [done|]. intros ? Hall. apply IH2; [done|].
        by apply Forall_cons in Hall as [_ ?].
    + split; [by intros e [= <-]|]. intros Hx Hall.
      apply Forall_cons in Hall as [Hn _]. destruct Hc; congruence.
Qed.

Lemma any_in_Return (xs ys : list GeneralName) (m : bool) :
  any_in xs ys = Return m -> (m = true <-> exists g, g ∈ xs /\ g ∈ ys).
Proof.
  induction xs as [|x rest IH]; simpl.
  - intros [= <-]. split; [done|]. intros (g & Hin & _).
    by apply elem_of_nil in Hin.
  - destruct (name_in x ys) as [[]|] eqn:E; [| |done].
    + intros [= <-]. apply name_in_Return in E. split; [|done].
      intros _. exists x. split; [apply elem_of_cons; auto|by apply E].
    + intros H. apply IH in H. rewrite H. apply name_in_Return in E.
      split.
      * intros (g & Hin & Hy). exists g. split; [|done].
        apply elem_of_cons. auto.
      * intros (g & Hin & Hy). apply elem_of_cons in Hin as [->|Hin].
        -- destruct E as [_ E]. by specialize (E Hy).
        -- eauto.
Qed.

Lemma any_in_outcome (xs ys : list GeneralName) :
  (forall e, any_in xs ys = Raise e -> e = ValueError)
  /\ (Forall (fun n => comparable n = true) xs ->
      Forall (fun n => comparable n = true) ys ->
      exists m, any_in xs ys = Return m).
Proof.
  induction xs as [|x rest [IH1 IH2]]; simpl.
  - split; [done|]. eauto.
  - destruct (name_in_outcome x ys) as [Hr Ht].
    destruct (name_in x ys) as [[]|e] eqn:E.
    + split; [done|]. eauto.
    + split; [done|]. intros Hxs Hys. apply IH2; [|done].
      by apply Forall_cons in Hxs as [_ ?].
    + split; [intros e' [= <-]; by apply Hr|].
      intros Hxs Hys. apply Forall_cons in Hxs as [Hx _].
      destruct (Ht Hx Hys) as [m Hm]. congruence.
Qed.

(** A distribution point shares a name with the issuing distribution
    point. *)
Local Abbreviation shares_name crl_issuer idp_general_names :=
  (fun dp => exists g, g ∈ dp_names crl_issuer dp /\ g ∈ idp_general_names).

(** The names of the distribution points and of the issuing distribution
    point are of kinds that asn1crypto compares. *)
Local Abbreviation all_comparable :=
  (Forall (fun n => comparable n = true)).

Lemma dps_loop_found (crl_issuer : Certificate)
  (idp_general_names : list GeneralName) (dps : list DistributionPoint)
  (found : bool) :
  dps_loop crl_issuer idp_general_names dps true found
  = if found then Return (true, found)
    else dps_loop crl_issuer idp_general_names dps true false.
Proof. destruct found; [|done]. by destruct dps. Qed.

Lemma dps_loop_spec (crl_issuer : Certificate)
  (idp_general_names : list GeneralName) (dps : list DistributionPoint)
  (has_dp_name : bool) (r : bool * bool) :
  dps_loop crl_issuer idp_general_names dps has_dp_name false = Return r ->
  (snd r = true
   <-> Exists (shares_name crl_issuer idp_general_names) dps)
  /\ (snd r = false ->
      (fst r = true <-> has_dp_name = true \/ Exists dp_is_named dps)).
Proof.
  revert has_dp_name.
  induction dps as [|dp dps IH]; intros has_dp_name; cbn [dps_loop].
  - intros [= <-]. simpl. split.
    + split; [done|]. by intros ?%Exists_nil.
    + intros _. split; [auto|]. intros [?|?%Exists_nil]; done.
  - assert (Hstep : forall (m : bool),
      (m = true <-> shares_name crl_issuer idp_general_names dp) ->
      dp_is_named dp ->
      dps_loop crl_issuer idp_general_names dps true m = Return r ->
      (snd r = true
       <-> Exists (shares_name crl_issuer idp_general_names) (dp :: dps))
      /\ (snd r = false ->
          (fst r = true
           <-> has_dp_name = true \/ Exists dp_is_named (dp :: dps)))).
    { intros m Hm Hnamed. rewrite dps_loop_found. destruct m.
      - intros [= <-]. simpl. split; [|done]. split; [|done].
        intros _. constructor. by apply Hm.
      - intros Hr. destruct (IH true Hr) as [IH1 IH2]. split.
        + rewrite IH1, Exists_cons. split; [auto|].
          intros [Hs|?]; [|done]. by apply Hm in Hs.
        + intros Hf. rewrite (IH2 Hf), !Exists_cons. split; [|auto].
          intros _. right. by left. }
    unfold dp_names, dp_is_named in *.
    destruct (dp_distribution_point dp) as [[names|rdn]|] eqn:Hdp.
    + destruct (any_in names idp_general_names) as [m|] eqn:E; [|done].
      apply Hstep; [by apply any_in_Return|by left].
    + destruct (name_in _ idp_general_names) as [m|] eqn:E; [|done].
      apply Hstep; [|by left]. rewrite (name_in_Return _ _ _ E). split.
      * intros Hin. eexists. split; [apply list_elem_of_singleton|]; done.
      * intros (g & ->%list_elem_of_singleton & Hin). done.
    + destruct (dp_crl_issuer dp) as [|n names] eqn:Hci.
      * intros Hr. destruct (IH has_dp_name Hr) as [IH1 IH2]. split.
        -- rewrite IH1, Exists_cons. split; [auto|].
           intros [(g & Hin & _)|?]; [|done]. rewrite Hdp, Hci in Hin.
           by apply elem_of_nil in Hin.
        -- intros Hf. rewrite (IH2 Hf), !Exists_cons. split; [tauto|].
           intros [?|[[?|?]|?]]; try done; auto.
      * destruct (any_in (n :: names) idp_general_names) as [m|] eqn:E;
          [|done].
        apply Hstep; [by apply any_in_Return|by right].
Qed.

Lemma dps_loop_outcome (crl_issuer : Certificate)
  (idp_general_names : list GeneralName) (dps : list DistributionPoint)
  (has_dp_name idp_dp_match : bool) :
  (forall e, dps_loop crl_issuer idp_general_names dps has_dp_name
               idp_dp_match = Raise e -> e = ValueError)
  /\ (all_comparable idp_general_names ->
      Forall (fun dp => all_comparable (dp_names crl_issuer dp)) dps ->
      exists r, dps_loop crl_issuer idp_general_names dps has_dp_name
                  idp_dp_match = Return r).
Proof.
  revert has_dp_name idp_dp_match.
  induction dps as [|dp dps IH]; intros has_dp_name idp_dp_match;
    cbn [dps_loop].
  - split; [done|]. eauto.
  - destruct idp_dp_match; [split; [done|]; eauto|].
    assert (Hany : forall names,
      dp_names crl_issuer dp = names ->
      (forall e,
         match any_in names idp_general_names with
         | Return found =>
             dps_loop crl_issuer idp_general_names dps true found
         | Raise e => Raise e
         end = Raise e -> e = ValueError)
      /\ (all_comparable idp_general_names ->
          Forall (fun dp => all_comparable (dp_names crl_issuer dp))
            (dp :: dps) ->
          exists r,
            match any_in names idp_general_names with
            | Return found =>
                dps_loop crl_issuer idp_general_names dps true found
            | Raise e => Raise e
            end = Return r)).
    { intros names Hnames.
      destruct (any_in_outcome names idp_general_names) as [Hr Ht].
      destruct (any_in names idp_general_names) as [m|e] eqn:E.
      - destruct (IH true m) as [IH1 IH2]. split; [done|].
        intros Hidp Hall. apply IH2; [done|].
        by apply Forall_cons in Hall as [_ ?].
      - split; [intros e' [= <-]; by apply Hr|].
        intros Hidp Hall. apply Forall_cons in Hall as [Hdp _].
        rewrite Hnames in Hdp. destruct (Ht Hdp Hidp) as [m Hm]. congruence. }
    unfold dp_names in *.
    destruct (dp_distribution_point dp) as [[names|rdn]|] eqn:Hdp.
    + by apply Hany.
    + destruct (name_in_outcome (extended_issuer_name (subject crl_issuer) rdn)
                  idp_general_names) as [Hr Ht].
      destruct (name_in _ idp_general_names) as [m|e] eqn:E.
      * destruct (IH true m) as [IH1 IH2]. split; [done|].
        intros Hidp Hall. apply IH2; [done|].
        by apply Forall_cons in Hall as [_ ?].
      * split; [intros e' [= <-]; by apply Hr|].
        intros Hidp Hall. destruct (Ht eq_refl Hidp) as [m Hm]. congruence.
    + destruct (dp_crl_issuer dp) as [|n names] eqn:Hci.
      * destruct (IH has_dp_name false) as [IH1 IH2]. split; [done|].
        intros Hidp Hall. apply IH2; [done|].
        by apply Forall_cons in Hall as [_ ?].
      * by apply Hany.
Qed.

(** The condition under which names match, as the loop decides it. *)
Local Abbreviation names_match crl_idp crl_dps crl_issuer
  crl_authority_name :=
  (distribution_point crl_idp = None
   \/ match crl_dps with
      | Some (dp :: dps) =>
          ~ Exists dp_is_named (dp :: dps)
          \/ Exists (shares_name crl_issuer
                       (idp_general_names_of crl_idp crl_issuer))
               (dp :: dps)
      | _ =>
          directory_name crl_authority_name
          ∈ idp_general_names_of crl_idp crl_issuer
      end).


(** ** Finding the delta CRL *)

(** X26.  [_find_matching_delta_crl] returns the first delta CRL of the
    list that was issued under the name of the CRL authority, has the same
    issuing distribution point as the complete CRL (or none, when that has
    none) and the same authority key identifier; it returns [None] exactly
    when no delta CRL of the list is such. *)
Theorem matching_delta_is_first_match (delta_lists : list CertificateList)
  (crl_authority_name : Name) (crl_idp : option IssuingDistributionPoint)
  (parent_crl_aki : option (list Z)) :
  match _find_matching_delta_crl delta_lists crl_authority_name crl_idp
          parent_crl_aki with
  | Some delta =>
      exists pre post,
        delta_lists = pre ++ delta :: post
        /\ delta_matches crl_authority_name crl_idp parent_crl_aki delta
        /\ Forall (fun d => ~ delta_matches crl_authority_name crl_idp
                                parent_crl_aki d) pre
  | None =>
      Forall (fun d => ~ delta_matches crl_authority_name crl_idp
                          parent_crl_aki d) delta_lists
  end.
Proof.
  induction delta_lists as [|d rest IH]; simpl; [constructor|].
  assert (Hskip : ~ delta_matches crl_authority_name crl_idp parent_crl_aki d ->
    match _find_matching_delta_crl rest crl_authority_name crl_idp
            parent_crl_aki with
    | Some delta =>
        exists pre post,
          d :: rest = pre ++ delta :: post
          /\ delta_matches crl_authority_name crl_idp parent_crl_aki delta
          /\ Forall (fun d => ~ delta_matches crl_authority_name crl_idp
                                  parent_crl_aki d) pre
    | None =>
        Forall (fun d => ~ delta_matches crl_authority_name crl_idp
                            parent_crl_aki d) (d :: rest)
    end).
  { intros Hn.
    destruct (_find_matching_delta_crl rest crl_authority_name crl_idp
                parent_crl_aki) as [delta|].
    - destruct IH as (pre & post & -> & Hm & Hpre).
      exists (d :: pre), post. repeat split; try apply Hm. by constructor.
    - by constructor. }
  unfold delta_matches in *.
  case_bool_decide as Hname; [apply Hskip; tauto|].
  destruct crl_idp as [idp|],
    (issuing_distribution_point_value d) as [didp|] eqn:Hd;
    try (apply Hskip; intros (_ & [=] & _); fail).
  - case_bool_decide as Hidp; [apply Hskip; intros (_ & [=] & _); done|].
    case_bool_decide as Haki; [apply Hskip; intros (_ & _ & ?); done|].
    exists [], rest. repeat split; try done; try congruence.
  - simpl. case_bool_decide as Haki; [apply Hskip; intros (_ & _ & ?); done|].
    exists [], rest. repeat split; try done; try congruence.
Qed.

(** ** The scope of a CRL *)

Lemma dp_crl_issuer_loop_spec (g : GeneralName) (dps : list DistributionPoint)
  (has_dp_crl_issuer dp_match : bool) (r : bool * bool) :
  dp_crl_issuer_loop g dps has_dp_crl_issuer dp_match = Return r ->
  (fst r = true
   <-> has_dp_crl_issuer = true
       \/ Exists (fun dp => dp_crl_issuer dp <> []) dps)
  /\ (snd r = true
      <-> dp_match = true \/ Exists (fun dp => g ∈ dp_crl_issuer dp) dps).
Proof.
  revert has_dp_crl_issuer dp_match.
  induction dps as [|dp dps IH]; intros has_dp_crl_issuer dp_match.
  - intros [= <-]. simpl.
    split; (split; [auto|]); intros [?|?%Exists_nil]; done.
  - cbn [dp_crl_issuer_loop].
    destruct (dp_crl_issuer dp) as [|n names] eqn:Hci.
    + intros Hr. destruct (IH has_dp_crl_issuer dp_match Hr) as [IH1 IH2].
      rewrite IH1, IH2, !Exists_cons, Hci. split.
      * split; [tauto|]. intros [?|[?|?]]; try done; auto.
      * split; [tauto|]. intros [?|[Hin|?]]; auto.
        by apply elem_of_nil in Hin.
    + destruct (name_in g (n :: names)) as [found|] eqn:E; [|done].
      apply name_in_Return in E.
      intros Hr.
      destruct (IH true (if found then true else dp_match) Hr) as [IH1 IH2].
      rewrite IH1, IH2, !Exists_cons, Hci. split.
      * split; [|auto]. intros _. right. by left.
      * destruct found.
        -- split; [|auto]. intros _. right. left. by apply E.
        -- split; [tauto|]. intros [?|[Hin|?]]; auto.
           destruct E as [_ E]. by specialize (E Hin).
Qed.

Section ScopeFacts.
Variable KNOWN_CRL_EXTENSIONS : gset string.

Local Abbreviation scope :=
  (_get_crl_scope_assuming_authority KNOWN_CRL_EXTENSIONS).

Lemma idp_constraints_frame (cert : CheckedCert) (crl_issuer : Certificate)
  (idp : IssuingDistributionPoint) (crl_authority_name : Name)
  (errs errs1 : _CRLErrs) (ok : bool) :
  (if is_pkc cert
   then _handle_crl_idp_ext_constraints cert crl_issuer idp
          crl_authority_name errs
   else _handle_attr_cert_crl_idp_ext_constraints (crl_dps cert) crl_issuer
          idp crl_authority_name errs) = (errs1, Return ok) ->
  exists match_,
    _match_dps_idp_names idp (crl_dps cert) crl_issuer crl_authority_name
    = Return match_
    /\ (ok = true -> errs1 = errs /\ match_ = true)
    /\ (ok = false ->
        exists msg,
          failures errs1 = failures errs ++ [msg]
          /\ issuer_failures errs1
             = issuer_failures errs + (if match_ then 0 else 1)).
Proof.
  unfold _handle_crl_idp_ext_constraints,
    _handle_attr_cert_crl_idp_ext_constraints.
  destruct (_match_dps_idp_names idp (crl_dps cert) crl_issuer
              crl_authority_name) as [match_|e];
    [|by destruct (is_pkc cert)].
  intros Hr. exists match_. split; [done|].
  destruct (is_pkc cert), match_; simpl in Hr;
    repeat (match type of Hr with
            | context [if ?b then _ else _] => destruct b eqn:?
            end; simpl in Hr);
    injection Hr as <- <-;
    (split; [try done; by intros _|]); intros; try done;
    eexists; split; try reflexivity; simpl; lia.
Qed.

(** X27.  [_get_crl_scope_assuming_authority] puts a certificate in the
    scope of a CRL only if the CRL issuer is related to the certificate:
    when no CRL distribution point of the certificate names a CRL issuer,
    the CRL issuer has the name of the certificate's issuer or was issued by
    it; when one does, the CRL is indirect and some distribution point names
    the CRL issuer.  The reasons returned are those of the issuing
    distribution point when it lists some, or else all of them; nothing is
    recorded in [errs]; and the CRL has no unrecognised critical
    extension. *)
Theorem crl_scope_needs_related_issuer (crl_issuer : Certificate)
  (cert : CheckedCert) (certificate_list : CertificateList)
  (crl_critical_extensions : gset string) (is_indirect : bool)
  (errs errs' : _CRLErrs) (interim_reasons : gset string) :
  scope crl_issuer cert certificate_list crl_critical_extensions is_indirect
    errs = (errs', Return (Some interim_reasons)) ->
  let dps := default [] (crl_dps cert) in
  ((Forall (fun dp => dp_crl_issuer dp = []) dps
    /\ (subject crl_issuer = issuer_dn cert
        \/ issuer crl_issuer = issuer_dn cert))
   \/ (is_indirect = true
       /\ Exists (fun dp => directory_name (subject crl_issuer)
                            ∈ dp_crl_issuer dp) dps))
  /\ errs' = errs
  /\ crl_critical_extensions ∖ KNOWN_CRL_EXTENSIONS = ∅
  /\ interim_reasons
     = match issuing_distribution_point_value certificate_list with
       | Some idp =>
           match only_some_reasons idp with
           | Some reasons =>
               if bool_decide (reasons <> ∅) then reasons
               else VALID_REVOCATION_REASONS
           | None => VALID_REVOCATION_REASONS
           end
       | None => VALID_REVOCATION_REASONS
       end
  /\ (forall idp,
        issuing_distribution_point_value certificate_list = Some idp ->
        _match_dps_idp_names idp (crl_dps cert) crl_issuer
          (subject crl_issuer) = Return true).
Proof.
  unfold _get_crl_scope_assuming_authority. cbv zeta.
  set (g := directory_name (subject crl_issuer)).
  destruct (match crl_dps cert with
            | Some (dp :: dps) => dp_crl_issuer_loop g (dp :: dps) false false
            | _ => Return (false, false)
            end) as [[has m]|e] eqn:Eloop; [|done].
  assert (Hloop :
    (has = true
     <-> Exists (fun dp => dp_crl_issuer dp <> []) (default [] (crl_dps cert)))
    /\ (m = true
        <-> Exists (fun dp => g ∈ dp_crl_issuer dp)
              (default [] (crl_dps cert)))).
  { destruct (crl_dps cert) as [[|dp dps]|]; cbn [default from_option id].
    - injection Eloop as <- <-.
      repeat split; try done; by intros ?%Exists_nil.
    - destruct (dp_crl_issuer_loop_spec _ _ _ _ _ Eloop) as [H1 H2].
      cbn [fst snd] in H1, H2. rewrite H1, H2.
      split; split; try tauto; intros [?|?]; done.
    - injection Eloop as <- <-.
      repeat split; try done; by intros ?%Exists_nil. }
  destruct Hloop as (Hhas & Hm). clear Eloop.
  destruct (_ || _) eqn:Hgate; [done|].
  apply orb_false_iff in Hgate as [Hrel Hmissing].
  assert (Hrelated :
    (Forall (fun dp => dp_crl_issuer dp = []) (default [] (crl_dps cert))
     /\ (subject crl_issuer = issuer_dn cert
         \/ issuer crl_issuer = issuer_dn cert))
    \/ (is_indirect = true
        /\ Exists (fun dp => g ∈ dp_crl_issuer dp)
             (default [] (crl_dps cert)))).
  { destruct has.
    - right. destruct m, is_indirect; try done. split; [done|]. by apply Hm.
    - left. split.
      + apply Forall_forall. intros dp Hin.
        destruct (dp_crl_issuer dp) eqn:Hdp; [done|]. exfalso.
        assert (false = true); [|done]. apply Hhas.
        apply Exists_exists. exists dp. split; [done|]. by rewrite Hdp.
      + simpl in Hrel. rewrite andb_true_r in Hrel.
        apply andb_false_iff in Hrel as [Hs|Hi].
        * left. apply negb_false_iff in Hs. by apply bool_decide_eq_true in Hs.
        * right. apply negb_false_iff in Hi. by apply bool_decide_eq_true in Hi. }
  clear Hrel Hmissing Hhas Hm.
  destruct (issuing_distribution_point_value certificate_list) as [idp|].
  - destruct (if is_pkc cert then _ else _) as [errs1 [ok|e]] eqn:Eidp;
      [|done].
    apply idp_constraints_frame in Eidp as (match_ & Hmatch & Hok & _).
    destruct ok; [|done]. destruct (Hok eq_refl) as [-> ->]. simpl.
    case_bool_decide as Hcrit; [done|]. intros [= <- <-].
    repeat split; try done.
    + by destruct (only_some_reasons idp) as [rs|]; [case_bool_decide|].
    + by intros ? [= <-].
  - simpl. case_bool_decide as Hcrit; [done|]. intros [= <- <-].
    repeat split; done.
Qed.

(** X28.  A CRL that [_get_crl_scope_assuming_authority] rejects leaves a
    trace in [errs]: no failure is removed, and either an issuer failure is
    counted, with at most one new failure message, or exactly one failure
    message is added. *)
Theorem crl_scope_rejection_is_recorded (crl_issuer : Certificate)
  (cert : CheckedCert) (certificate_list : CertificateList)
  (crl_critical_extensions : gset string) (is_indirect : bool)
  (errs errs' : _CRLErrs) :
  scope crl_issuer cert certificate_list crl_critical_extensions is_indirect
    errs = (errs', Return None) ->
  (issuer_failures errs' = issuer_failures errs + 1
   /\ (failures errs' = failures errs
       \/ exists msg, failures errs' = failures errs ++ [msg]))
  \/ (issuer_failures errs' = issuer_failures errs
      /\ exists msg, failures errs' = failures errs ++ [msg]).
Proof.
  unfold _get_crl_scope_assuming_authority. cbv zeta.
  destruct (match crl_dps cert with
            | Some (dp :: dps) => _
            | _ => Return (false, false)
            end) as [[has m]|e]; [|done].
  destruct (_ || _); [intros [= <-]; left; simpl; auto|].
  destruct (issuing_distribution_point_value certificate_list) as [idp|].
  - destruct (if is_pkc cert then _ else _) as [errs1 [ok|e]] eqn:Eidp;
      [|done].
    apply idp_constraints_frame in Eidp as (match_ & Hmatch & Hok & Hbad).
    destruct ok; simpl.
    + destruct (Hok eq_refl) as [-> _].
      case_bool_decide; [|done]. intros [= <-]. right. simpl. eauto.
    + intros [= <-]. destruct (Hbad eq_refl) as (msg & Hf & Hi).
      destruct match_.
      * right. split; [lia|eauto].
      * left. split; [lia|eauto].
  - simpl. case_bool_decide; [|done]. intros [= <-]. right. simpl. eauto.
Qed.

End ScopeFacts.

(** ** The search for the issuer of a CRL *)

Section CandidatePathsFacts.
Context {ValidationPath : Type}.
Variable crl_signature_verifies : list Z -> bool.
Variable check_path_verif_recursion : Candidate -> option ValidationPath.
Variable truncate_to_issuer_and_append : Candidate -> option ValidationPath.
Variable path_last : ValidationPath -> Candidate.
Variable _validate_crl_issuer_path : ValidationPath -> @path_validation.

Variable cert_issuer_name : Name.
Variable cert_sha256 : list Z.
Variable is_indirect : bool.

Local Abbreviation loop :=
  (candidate_paths_loop crl_signature_verifies check_path_verif_recursion
     truncate_to_issuer_and_append cert_issuer_name cert_sha256 is_indirect).
Local Abbreviation usable :=
  (usable crl_signature_verifies cert_issuer_name cert_sha256 is_indirect).
Local Abbreviation path_of :=
  (path_of check_path_verif_recursion truncate_to_issuer_and_append).
Local Abbreviation unrelated := (unrelated cert_issuer_name cert_sha256).

(** The counters of a search, together. *)
Local Abbreviation accounted errs paths :=
  (candidates_skipped errs + unauthorized_certs errs + signatures_failed errs
   + path_building_failures errs + Z.of_nat (length paths)).

(** A candidate that the loop skips. *)
Local Abbreviation skippable :=
  (fun c => is_indirect = false /\ unrelated c).

Lemma loop_spec (candidates : list Candidate)
  (paths0 : list ValidationPath) (errs0 : _CRLIssuerSearchErrs) :
  let '(paths, errs) := loop candidates paths0 errs0 in
  accounted errs paths
    = accounted errs0 paths0 + Z.of_nat (length candidates)
  /\ candidate_issuers errs = candidate_issuers errs0
  /\ explicit_errors errs = explicit_errors errs0
  /\ candidates_skipped errs0 <= candidates_skipped errs
     <= candidates_skipped errs0 + Z.of_nat (length candidates)
  /\ (candidates_skipped errs
      = candidates_skipped errs0 + Z.of_nat (length candidates)
      <-> Forall skippable candidates)
  /\ (forall p, p ∈ paths
                <-> p ∈ paths0
                    \/ exists c, c ∈ candidates /\ usable c
                                 /\ path_of c = Some p).
Proof.
  revert paths0 errs0.
  induction candidates as [|c cs IH]; intros paths0 errs0.
  - simpl. repeat split; try lia; try done.
    + auto.
    + intros [?|(c & Hin & _)]; [done|]. by apply elem_of_nil in Hin.
  - cbn [candidate_paths_loop]. cbv zeta.
    unfold ValidateCrlScope.usable, ValidateCrlScope.path_of,
      ValidateCrlScope.unrelated in *.
    set (direct := bool_decide (cand_subject c = cert_issuer_name)).
    set (indirect :=
           bool_decide (cand_issuer c = cert_issuer_name)
           && bool_decide (cand_sha256 c <> cert_sha256)).
    assert (Hdirect : direct = true <-> cand_subject c = cert_issuer_name)
      by apply bool_decide_eq_true.
    assert (Hindirect :
              indirect = true
              <-> cand_issuer c = cert_issuer_name
                  /\ cand_sha256 c <> cert_sha256).
    { unfold indirect. by rewrite andb_true_iff, !bool_decide_eq_true. }
    clearbody direct indirect.
    set (bad := match cand_key_usage_value c with
                | Some key_usage => bool_decide ("crl_sign"%string ∉ key_usage)
                | None => false
                end).
    assert (Hbad : bad = false
                   <-> forall key_usage,
                         cand_key_usage_value c = Some key_usage ->
                         "crl_sign"%string ∈ key_usage).
    { unfold bad. destruct (cand_key_usage_value c) as [ku|].
      - rewrite bool_decide_eq_false. split.
        + intros Hn ku' [= <-]. by apply dec_stable.
        + intros Hin Hn. by apply Hn, Hin.
      - split; [by intros _ ? [=]|done]. }
    clearbody bad.
    assert (Hcount : forall (A : Type) (l : list A) (x : A),
              Z.of_nat (length (l ++ [x])) = Z.of_nat (length l) + 1)
      by (intros; rewrite length_app; simpl; lia).
    assert (Hlen : Z.of_nat (length (c :: cs)) = Z.of_nat (length cs) + 1)
      by (simpl length; lia).
    rewrite Hlen.
    destruct (negb direct && negb indirect && negb is_indirect) eqn:Hskip.
    + (* skipped *)
      specialize (IH paths0 (skipped errs0)).
      destruct (loop cs paths0 (skipped errs0)) as [paths errs].
      destruct IH as (Hacc & Hci & Hee & Hsk & Hall & Hpaths). simpl in *.
      apply andb_true_iff in Hskip as [Hskip Hi].
      apply andb_true_iff in Hskip as [Hd Hind].
      apply negb_true_iff in Hd, Hind, Hi.
      repeat split; try lia; try done.
      * intros Hs. constructor; [|apply Hall; lia].
        split; [done|]. split.
        -- intros Hx. apply Hdirect in Hx. congruence.
        -- intros Hx. apply Hindirect in Hx. congruence.
      * intros Hf. apply Forall_cons in Hf as [_ Hf].
        apply Hall in Hf. lia.
      * intros Hin. apply Hpaths in Hin as [?|(c' & Hin & Hu & Hp)]; [auto|].
        right. exists c'. split; [by apply elem_of_cons; right|done].
      * intros [?|(c' & Hin & Hu & Hp)]; apply Hpaths; [auto|].
        apply elem_of_cons in Hin as [->|Hin]; [|eauto].
        exfalso. destruct Hu as ([Hx|[Hx|Hx]] & _).
        -- apply Hdirect in Hx. congruence.
        -- apply Hindirect in Hx. congruence.
        -- congruence.
    + assert (Hrelated :
        cand_subject c = cert_issuer_name
        \/ (cand_issuer c = cert_issuer_name /\ cand_sha256 c <> cert_sha256)
        \/ is_indirect = true).
      { destruct direct; [left; by apply Hdirect|].
        destruct indirect; [right; left; by apply Hindirect|].
        destruct is_indirect; [auto|done]. }
      assert (Hnot_all :
        ~ Forall (fun c =>
                    is_indirect = false
                    /\ cand_subject c <> cert_issuer_name
                    /\ ~ (cand_issuer c = cert_issuer_name
                          /\ cand_sha256 c <> cert_sha256)) (c :: cs)).
      { intros Hf. apply Forall_cons in Hf as [(Hi & Hn1 & Hn2) _].
        destruct Hrelated as [?|[?|?]]; congruence. }
      assert (Hother : forall paths1 errs1,
        accounted errs1 paths1 = accounted errs0 paths0 + 1 ->
        candidate_issuers errs1 = candidate_issuers errs0 ->
        explicit_errors errs1 = explicit_errors errs0 ->
        candidates_skipped errs1 = candidates_skipped errs0 ->
        (forall p, p ∈ paths1
                   <-> p ∈ paths0
                       \/ (((forall key_usage,
                               cand_key_usage_value c = Some key_usage ->
                               "crl_sign"%string ∈ key_usage)
                            /\ crl_signature_verifies (cand_public_key c)
                               = true)
                           /\ match check_path_verif_recursion c with
                              | Some p => Some p
                              | None => truncate_to_issuer_and_append c
                              end = Some p)) ->
        let '(paths, errs) := loop cs paths1 errs1 in
        accounted errs paths
          = accounted errs0 paths0 + (Z.of_nat (length cs) + 1)
        /\ candidate_issuers errs = candidate_issuers errs0
        /\ explicit_errors errs = explicit_errors errs0
        /\ candidates_skipped errs0 <= candidates_skipped errs
           <= candidates_skipped errs0 + (Z.of_nat (length cs) + 1)
        /\ (candidates_skipped errs
            = candidates_skipped errs0 + (Z.of_nat (length cs) + 1)
            <-> Forall (fun c =>
                          is_indirect = false
                          /\ cand_subject c <> cert_issuer_name
                          /\ ~ (cand_issuer c = cert_issuer_name
                                /\ cand_sha256 c <> cert_sha256))
                  (c :: cs))
        /\ (forall p, p ∈ paths
                      <-> p ∈ paths0
                          \/ exists c0,
                               c0 ∈ c :: cs
                               /\ ((cand_subject c0 = cert_issuer_name
                                    \/ (cand_issuer c0 = cert_issuer_name
                                        /\ cand_sha256 c0 <> cert_sha256)
                                    \/ is_indirect = true)
                                   /\ (forall key_usage,
                                         cand_key_usage_value c0
                                         = Some key_usage ->
                                         "crl_sign"%string ∈ key_usage)
                                   /\ crl_signature_verifies
                                        (cand_public_key c0) = true)
                               /\ match check_path_verif_recursion c0 with
                                  | Some p => Some p
                                  | None => truncate_to_issuer_and_append c0
                                  end = Some p)).
      { intros paths1 errs1 Hacc1 Hci1 Hee1 Hsk1 Hp1.
        specialize (IH paths1 errs1).
        destruct (loop cs paths1 errs1) as [paths errs].
        destruct IH as (Hacc & Hci & Hee & Hsk & Hall & Hpaths).
        repeat split; try lia; try congruence.
        - intros Hin. apply Hpaths in Hin as [Hin|(c' & Hin & Hu & Hp)].
          + apply Hp1 in Hin as [?|[[Hku Hsig] Hp]]; [auto|].
            right. exists c. split; [apply elem_of_cons; auto|done].
          + right. exists c'. split; [apply elem_of_cons; auto|done].
        - intros [Hin|(c' & Hin & Hu & Hp)]; apply Hpaths.
          + left. apply Hp1. auto.
          + apply elem_of_cons in Hin as [->|Hin]; [|eauto].
            left. apply Hp1. right. destruct Hu as (_ & Hku & Hsig). done. }
      destruct bad eqn:Hb.
      { apply Hother; simpl; try lia; try done.
        intros p. split; [auto|]. intros [?|[[Hku _] _]]; [done|].
        apply Hbad in Hku. congruence. }
      destruct (crl_signature_verifies (cand_public_key c)) eqn:Hsig; simpl.
      2: { apply Hother; simpl; try lia; try done.
           intros p. split; [auto|]. intros [?|[[_ ?] _]]; done. }
      assert (Hku : forall key_usage,
                cand_key_usage_value c = Some key_usage ->
                "crl_sign"%string ∈ key_usage) by (by apply Hbad).
      destruct (check_path_verif_recursion c) as [p1|] eqn:Hrec;
        [|destruct (truncate_to_issuer_and_append c) as [p1|] eqn:Htr].
      * apply Hother; simpl; try done.
        -- rewrite Hcount. lia.
        -- intros p. rewrite elem_of_app, list_elem_of_singleton.
           split; [intros [?| ->]; auto|].
           intros [?|[_ Heq]]; [auto|]. injection Heq as ->. auto.
      * apply Hother; simpl; try done.
        -- rewrite Hcount. lia.
        -- intros p. rewrite elem_of_app, list_elem_of_singleton.
           split; [intros [?| ->]; auto|].
           intros [?|[_ Heq]]; [auto|]. injection Heq as ->. auto.
      * apply Hother; simpl; try lia; try done.
        intros p. split; [auto|]. intros [?|[_ Heq]]; done.
Qed.

(** X29.  [_find_candidate_crl_paths] accounts for every candidate CRL
    issuer exactly once, as skipped, as not authorised, as a signature
    failure, as a path building failure or with a candidate path; and the
    candidate paths are the paths of the candidates that are related to the
    issuer of the certificate (or any, for an indirect CRL), are allowed to
    sign CRLs when they have a key usage extension, and under whose key the
    signature of the CRL verifies. *)
Theorem candidate_paths_are_counted_and_sound (candidates : list Candidate) :
  let '(candidate_paths, errs) :=
    _find_candidate_crl_paths crl_signature_verifies
      check_path_verif_recursion truncate_to_issuer_and_append
      cert_issuer_name cert_sha256 is_indirect candidates in
  candidate_issuers errs = Z.of_nat (length candidates)
  /\ accounted errs candidate_paths = candidate_issuers errs
  /\ (forall p, p ∈ candidate_paths
                <-> exists c, c ∈ candidates /\ usable c
                              /\ path_of c = Some p).
Proof.
  unfold _find_candidate_crl_paths.
  pose proof (loop_spec candidates []
                (mkSearchErrs (Z.of_nat (length candidates)) 0 0 0 0 []))
    as Hspec.
  destruct (loop candidates [] _) as [paths errs].
  destruct Hspec as (Hacc & Hci & _ & _ & _ & Hpaths). simpl in *.
  repeat split; try lia.
  - intros Hin. by apply Hpaths in Hin as [?%elem_of_nil|?].
  - intros Hc. apply Hpaths. by right.
Qed.

Lemma get_exc_no_matches (errs : _CRLIssuerSearchErrs) :
  get_exc errs = SearchNoMatches
  <-> candidate_issuers errs = 0
      \/ candidates_skipped errs = candidate_issuers errs.
Proof.
  unfold get_exc.
  destruct (Z.eqb_spec (candidate_issuers errs) 0) as [H0|H0]; simpl;
    [by split; auto|].
  destruct (Z.eqb_spec (candidates_skipped errs) (candidate_issuers errs));
    simpl; [by split; auto|].
  split; [|by intros [?|?]].
  repeat (match goal with
          | |- context [if ?b then _ else _] => destruct b
          end; try done).
  by destruct (explicit_errors errs) as [|? []].
Qed.

Lemma crl_issuer_loop_raises (paths : list ValidationPath)
  (errs : _CRLIssuerSearchErrs) :
  crl_issuer_loop check_path_verif_recursion truncate_to_issuer_and_append
    path_last _validate_crl_issuer_path paths errs = Raise SearchNoMatches ->
  candidate_issuers errs = 0
  \/ candidates_skipped errs = candidate_issuers errs.
Proof.
  revert errs. induction paths as [|p rest IH]; intros errs; simpl.
  - intros [= Hg]. by apply get_exc_no_matches.
  - destruct (check_path_verif_recursion (path_last p)); [done|].
    destruct (truncate_to_issuer_and_append (path_last p)) as [p'|]; [|done].
    destruct (_validate_crl_issuer_path p'); [done| |done].
    intros Hl. by apply IH in Hl.
Qed.

(** X30.  [_find_crl_issuer] raises CRLNoMatchesError, which
    [_handle_single_crl] counts as an issuer failure, exactly when it has no
    candidate CRL issuer that is related to the issuer of the certificate:
    the CRL is not indirect (or there is no candidate at all), no candidate
    has the name of the issuer of the certificate, and none was issued by it
    (other than the certificate itself). *)
Theorem no_matches_iff_no_related_candidate (candidates : list Candidate) :
  _find_crl_issuer crl_signature_verifies check_path_verif_recursion
    truncate_to_issuer_and_append path_last _validate_crl_issuer_path
    cert_issuer_name cert_sha256 is_indirect candidates
  = Raise SearchNoMatches
  <-> Forall (fun c => is_indirect = false /\ unrelated c) candidates.
Proof.
  unfold _find_crl_issuer, _find_candidate_crl_paths.
  pose proof (loop_spec candidates []
                (mkSearchErrs (Z.of_nat (length candidates)) 0 0 0 0 []))
    as Hspec.
  destruct (loop candidates [] _) as [paths errs].
  destruct Hspec as (Hacc & Hci & _ & Hsk & Hall & Hpaths). simpl in *.
  assert (Hskipped : candidate_issuers errs = 0
                     \/ candidates_skipped errs = candidate_issuers errs
                     <-> Forall skippable candidates).
  { rewrite Hci, <- Hall. split; [|lia].
    intros [H0|?]; lia. }
  rewrite <- Hskipped. split.
  - apply crl_issuer_loop_raises.
  - intros Hno.
    assert (paths = []) as ->.
    { destruct paths as [|p ps]; [done|]. exfalso.
      apply Hskipped in Hno.
      destruct (Hpaths p) as [Hp _].
      destruct Hp as [?%elem_of_nil|(c & Hin & Hu & _)];
        [apply elem_of_cons; auto|done|].
      rewrite Forall_forall in Hno.
      destruct (Hno c Hin) as (Hi & Hn1 & Hn2).
      destruct Hu as ([?|[?|?]] & _); congruence. }
    simpl. f_equal. by apply get_exc_no_matches.
Qed.

End CandidatePathsFacts.


(** A name of a kind that asn1crypto does not compare, listed by the
    issuing distribution point before a name that the certificate shares,
    makes [_match_dps_idp_names] raise [ValueError]. *)
Lemma dps_match_raises_before_shared_name :
  let shared :=
    other_general_name "uniform_resource_identifier"
      "http://crl.example/ca.crl" in
  _match_dps_idp_names
    (mkIDP (Some (full_name [other_general_name "other_name" "1.2.3"; shared]))
       false false None false false)
    (Some [mkDP (Some (full_name [shared])) []])
    example_ca_cert example_ca
  = Raise ValueError.
Proof. reflexivity. Qed.

Lemma crl_scope_needs_related_issuer_witness :
  (Forall (fun dp => dp_crl_issuer dp = []) []
   /\ (subject example_ca_cert = example_ca
       \/ issuer example_ca_cert = example_ca))
  \/ (false = true
      /\ Exists (fun dp => directory_name (subject example_ca_cert)
                           ∈ dp_crl_issuer dp) []).
Proof.
  apply (crl_scope_needs_related_issuer ∅ example_ca_cert
           (mkCheckedCert true None example_ca None)
           (mkCRL example_ca None None []) ∅ false (mkErrs [] 0)
           (mkErrs [] 0) VALID_REVOCATION_REASONS).
  vm_compute. reflexivity.
Defined.

Lemma crl_scope_rejection_is_recorded_witness :
  (issuer_failures (mkErrs [] 1) = issuer_failures (mkErrs [] 0) + 1
   /\ (failures (mkErrs [] 1) = failures (mkErrs [] 0)
       \/ exists msg, failures (mkErrs [] 1)
                      = failures (mkErrs [] 0) ++ [msg]))
  \/ (issuer_failures (mkErrs [] 1) = issuer_failures (mkErrs [] 0)
      /\ exists msg, failures (mkErrs [] 1)
                     = failures (mkErrs [] 0) ++ [msg]).
Proof.
  apply (crl_scope_rejection_is_recorded ∅ example_ca_cert
           (mkCheckedCert true None [[("common_name", "Another CA")]]%string
              None)
           (mkCRL example_ca None None []) ∅ false (mkErrs [] 0)
           (mkErrs [] 1)).
  vm_compute. reflexivity.
Defined.

End ValidateCrlScopeFacts.
